(** * Signet: request authorisation and signing engine

    A shallow embedding of the policy store, the ACL evaluator, token
    redemption, the authorisation broker, the admin channel, the vault and the
    GET /requests listing of the Signet daemon, with the properties that the
    specification states about them.

    Conventions.
    - Prisma tables are lists of records in insertion order; [findFirst] and
      [findUnique] return the first matching row; auto-increment keys come
      from counters kept in the store.
    - [undefined]/[null] are [None]; a thrown [Error(msg)] is [inl msg].
    - A JavaScript string that the code passes along, compares or parses is
      a [string], one character for each code unit; the plaintext and the
      passphrase of the vault, which the code encodes to bytes, are lists of
      UTF-16 code units ([JsString]), and [jsString] reads a [string] as one.
    - A write of the store is a total function on the tables; [applyTokenOn]
      runs the writes of a redemption on a store that may refuse one.
    - Wall-clock reads ([new Date()], [Date.now()]) are explicit arguments in
      milliseconds since the epoch.
    - What the daemon calls in its runtime and libraries is taken through
      classes: JavaScript built-ins ([JSON.parse], [JSON.stringify],
      [Number.prototype.toString]) in [JsRuntime], [nip19.decode] in
      [NostrTools], the hash and the block cipher of Node's [crypto], the
      messages of its OpenSSL errors and the decoding of ill-formed UTF-8 in
      [NodeCrypto].  The modules [MiniJs], [Nip19] and [XorCipher] give
      instances on which the model is run. *)

From Stdlib Require Import String Ascii List ZArith NArith Bool Lia Arith DecimalString
  Sorted ZifyBool.
Import ListNotations.
Local Open Scope string_scope.
Local Open Scope list_scope.

Set Implicit Arguments.
Local Set Warnings "-register-all".

(* ------------------------------------------------------------------------- *)
(** ** JavaScript values *)

Inductive JsValue (num : Type) : Type :=
| JNull
| JBool (b : bool)
| JNumber (n : num)
| JString (s : string)
| JArray (items : list (JsValue num))
| JObject (fields : list (string * JsValue num)).

Arguments JNull {num}.
Arguments JBool {num} b.
Arguments JString {num} s.

Class JsRuntime : Type := {
  number : Type;
  (** [Number.prototype.toString()] *)
  number_toString : number -> string;
  (** [ToBoolean] on a number: false for [0] and [NaN] *)
  number_truthy : number -> bool;
  (** [JSON.parse]; [None] when it throws a [SyntaxError] *)
  JSON_parse : string -> option (JsValue number);
  (** [JSON.stringify] *)
  JSON_stringify : JsValue number -> string;
  (** [Number(s)] when [Number.isInteger] holds of it, [None] otherwise *)
  Number_integer : string -> option Z
}.

Definition Js {R : JsRuntime} : Type := JsValue number.

(** Last binding wins, as in an object built by [JSON.parse]. *)
Fixpoint assocLast {A : Type} (k : string) (fs : list (string * A)) : option A :=
  match fs with
  | [] => None
  | (k', v) :: rest =>
      match assocLast k rest with
      | Some v' => Some v'
      | None => if String.eqb k k' then Some v else None
      end
  end.

(** [v.k] for the property names the daemon reads ([kind], [content], [tags]):
    only objects carry them; on every other parsed value the access yields
    [undefined]. *)
Definition getProp {R : JsRuntime} (v : Js) (k : string) : option Js :=
  match v with
  | JObject fs => assocLast k fs
  | _ => None
  end.

(** [ToBoolean]. *)
Definition truthy {R : JsRuntime} (v : Js) : bool :=
  match v with
  | JNull => false
  | JBool b => b
  | JNumber n => number_truthy n
  | JString s => negb (String.eqb s EmptyString)
  | JArray _ => true
  | JObject _ => true
  end.

Definition strTruthy (s : string) : bool := negb (String.eqb s EmptyString).

Definition optStrTruthy (s : option string) : bool :=
  match s with
  | Some s => strTruthy s
  | None => false
  end.

Definition isSome {A : Type} (o : option A) : bool :=
  match o with Some _ => true | None => false end.

(* ------------------------------------------------------------------------- *)
(** ** Policy store (Prisma models, as the daemon uses them) *)

Record KeyUser : Type := {
  ku_id : nat;
  ku_keyName : string;
  ku_userPubkey : string;
  ku_description : option string;
  ku_revokedAt : option Z
}.

Record SigningCondition : Type := {
  sc_id : nat;
  sc_keyUserId : nat;
  sc_method : string;
  sc_kind : option string;
  sc_allowed : option bool
}.

Record PolicyRule : Type := {
  pr_method : string;
  pr_kind : option string;
  pr_maxUsageCount : option Z;
  pr_currentUsageCount : Z
}.

Record Policy : Type := {
  pol_id : nat;
  pol_name : string;
  pol_expiresAt : option Z;
  pol_rules : list PolicyRule
}.

Record Token : Type := {
  tok_id : nat;
  tok_keyName : string;
  tok_clientName : string;
  tok_createdBy : string;
  tok_token : string;
  tok_policyId : option nat;
  tok_expiresAt : option Z;
  tok_redeemedAt : option Z;
  tok_keyUserId : option nat
}.

Record Request : Type := {
  rq_id : string;
  rq_keyName : option string;
  rq_requestId : string;
  rq_remotePubkey : string;
  rq_method : string;
  rq_params : option string;
  rq_allowed : option bool;
  rq_createdAt : Z;
  rq_processedAt : option Z
}.

Record Db : Type := {
  keyUsers : list KeyUser;
  signingConditions : list SigningCondition;
  policies : list Policy;
  tokens : list Token;
  requests : list Request;
  nextKeyUserId : nat;
  nextConditionId : nat;
  nextPolicyId : nat;
  nextTokenId : nat
}.

Definition emptyDb : Db :=
  {| keyUsers := []; signingConditions := []; policies := []; tokens := [];
     requests := []; nextKeyUserId := 1; nextConditionId := 1;
     nextPolicyId := 1; nextTokenId := 1 |}.

Definition withKeyUsers (db : Db) (us : list KeyUser) (next : nat) : Db :=
  {| keyUsers := us; signingConditions := signingConditions db;
     policies := policies db; tokens := tokens db; requests := requests db;
     nextKeyUserId := next; nextConditionId := nextConditionId db;
     nextPolicyId := nextPolicyId db; nextTokenId := nextTokenId db |}.

Definition withConditions (db : Db) (cs : list SigningCondition) (next : nat) : Db :=
  {| keyUsers := keyUsers db; signingConditions := cs;
     policies := policies db; tokens := tokens db; requests := requests db;
     nextKeyUserId := nextKeyUserId db; nextConditionId := next;
     nextPolicyId := nextPolicyId db; nextTokenId := nextTokenId db |}.

Definition withPolicies (db : Db) (ps : list Policy) (next : nat) : Db :=
  {| keyUsers := keyUsers db; signingConditions := signingConditions db;
     policies := ps; tokens := tokens db; requests := requests db;
     nextKeyUserId := nextKeyUserId db; nextConditionId := nextConditionId db;
     nextPolicyId := next; nextTokenId := nextTokenId db |}.

Definition withTokens (db : Db) (ts : list Token) (next : nat) : Db :=
  {| keyUsers := keyUsers db; signingConditions := signingConditions db;
     policies := policies db; tokens := ts; requests := requests db;
     nextKeyUserId := nextKeyUserId db; nextConditionId := nextConditionId db;
     nextPolicyId := nextPolicyId db; nextTokenId := next |}.

Definition withRequests (db : Db) (rs : list Request) : Db :=
  {| keyUsers := keyUsers db; signingConditions := signingConditions db;
     policies := policies db; tokens := tokens db; requests := rs;
     nextKeyUserId := nextKeyUserId db; nextConditionId := nextConditionId db;
     nextPolicyId := nextPolicyId db; nextTokenId := nextTokenId db |}.

(** *** Queries and writes on KeyUser *)

Definition keyUserIs (keyName userPubkey : string) (u : KeyUser) : bool :=
  String.eqb (ku_keyName u) keyName && String.eqb (ku_userPubkey u) userPubkey.

(** [prisma.keyUser.findUnique({ where: { unique_key_user: {...} } })] *)
Definition keyUser_findUnique (db : Db) (keyName userPubkey : string) : option KeyUser :=
  find (keyUserIs keyName userPubkey) (keyUsers db).

(** [prisma.keyUser.findUnique({ where: { id } })] *)
Definition keyUser_findById (db : Db) (id : nat) : option KeyUser :=
  find (fun u => Nat.eqb (ku_id u) id) (keyUsers db).

(** [prisma.keyUser.upsert({ where, update: {}, create: {...} })] *)
Definition keyUser_upsert (db : Db) (keyName userPubkey : string)
    (description : option string) : KeyUser * Db :=
  match keyUser_findUnique db keyName userPubkey with
  | Some u => (u, db)
  | None =>
      let u := {| ku_id := nextKeyUserId db; ku_keyName := keyName;
                  ku_userPubkey := userPubkey; ku_description := description;
                  ku_revokedAt := None |} in
      (u, withKeyUsers db (keyUsers db ++ [u]) (S (nextKeyUserId db)))
  end.

Definition setRevokedAt (now : Z) (u : KeyUser) : KeyUser :=
  {| ku_id := ku_id u; ku_keyName := ku_keyName u; ku_userPubkey := ku_userPubkey u;
     ku_description := ku_description u; ku_revokedAt := Some now |}.

Definition setDescription (d : string) (u : KeyUser) : KeyUser :=
  {| ku_id := ku_id u; ku_keyName := ku_keyName u; ku_userPubkey := ku_userPubkey u;
     ku_description := Some d; ku_revokedAt := ku_revokedAt u |}.

(** [prisma.keyUser.update({ where: { id }, data })] on a row that exists. *)
Definition keyUser_update (db : Db) (id : nat) (f : KeyUser -> KeyUser) : Db :=
  withKeyUsers db
    (map (fun u => if Nat.eqb (ku_id u) id then f u else u) (keyUsers db))
    (nextKeyUserId db).

(** *** Writes on SigningCondition *)

(** [prisma.signingCondition.create({ data })] *)
Definition signingCondition_create (db : Db) (keyUserId : nat) (method : string)
    (kind : option string) (allowed : option bool) : Db :=
  withConditions db
    (signingConditions db ++
       [{| sc_id := nextConditionId db; sc_keyUserId := keyUserId;
           sc_method := method; sc_kind := kind; sc_allowed := allowed |}])
    (S (nextConditionId db)).

(* ------------------------------------------------------------------------- *)
(** ** ACL evaluator (daemon/lib/acl.ts) *)

(** The [payload] argument: [string | NostrEvent | NDKEvent].  Of an event
    object only what the daemon inspects is kept: its own numeric [kind], and
    of [rawEvent()], when that method exists, the numeric [kind] and the
    serialisation. *)
Record RawEvent {R : JsRuntime} : Type := {
  raw_kind : option number;
  (** [JSON.stringify] of the raw event *)
  raw_json : string
}.

Record EventObject {R : JsRuntime} : Type := {
  ev_kind : option number;
  (** [None] when the object has no usable [rawEvent()] *)
  ev_rawEvent : option RawEvent
}.

Inductive Payload {R : JsRuntime} : Type :=
| PString (s : string)
| PEvent (e : EventObject).

Section Acl.
Context {R : JsRuntime}.

Definition extractKind (payload : option Payload) : option number :=
  match payload with
  | None => None
  | Some (PString s) =>
      if strTruthy s then
        match JSON_parse s with
        | Some parsed =>
            match getProp parsed "kind" with
            | Some (JNumber k) => Some k
            | _ => None
            end
        | None => None
        end
      else None
  | Some (PEvent e) =>
      match ev_kind e with
      | Some k => Some k
      | None =>
          match ev_rawEvent e with
          | Some raw => raw_kind raw
          | None => None
          end
      end
  end.

(** [SigningConditionQuery] as [buildConditionQuery] produces it: the method
    and, for [sign_event] only, [{ in: kinds }]. *)
Record ConditionQuery : Type := {
  q_method : string;
  q_kindIn : option (list string)
}.

Definition buildConditionQuery (method : string) (payload : option Payload)
    : ConditionQuery :=
  if negb (String.eqb method "sign_event") then
    {| q_method := method; q_kindIn := None |}
  else
    let kinds :=
      match extractKind payload with
      | Some k => ["all"; number_toString k]
      | None => ["all"]
      end in
    {| q_method := method; q_kindIn := Some kinds |}.

Definition kindMatches (filter : option (list string)) (kind : option string) : bool :=
  match filter with
  | None => true
  | Some kinds =>
      match kind with
      | Some k => existsb (String.eqb k) kinds
      | None => false
      end
  end.

Definition conditionMatches (keyUserId : nat) (q : ConditionQuery)
    (c : SigningCondition) : bool :=
  Nat.eqb (sc_keyUserId c) keyUserId
  && String.eqb (sc_method c) (q_method q)
  && kindMatches (q_kindIn q) (sc_kind c).

Definition isExplicitDeny (keyUserId : nat) (c : SigningCondition) : bool :=
  Nat.eqb (sc_keyUserId c) keyUserId
  && String.eqb (sc_method c) "*"
  && match sc_allowed c with Some false => true | _ => false end.

Definition isRequestPermitted (db : Db) (keyName remotePubkey method : string)
    (payload : option Payload) : option bool :=
  match keyUser_findUnique db keyName remotePubkey with
  | None => None
  | Some keyUser =>
      match find (isExplicitDeny (ku_id keyUser)) (signingConditions db) with
      | Some _ => Some false
      | None =>
          let query := buildConditionQuery method payload in
          match find (conditionMatches (ku_id keyUser) query) (signingConditions db) with
          | None => None
          | Some condition =>
              match sc_allowed condition, ku_revokedAt keyUser with
              | Some true, Some _ => Some false
              | allowed, _ => allowed
              end
          end
      end
  end.

Inductive ScopeKind : Type :=
| KindNumber (n : number)
| KindAll.

(** [AllowScope = { kind?: number | 'all' }] *)
Record AllowScope : Type := { scope_kind : option ScopeKind }.

Definition scopeKind_toString (k : ScopeKind) : string :=
  match k with
  | KindNumber n => number_toString n
  | KindAll => "all"
  end.

(** Returns the [(method, kind)] pair spread into the created row. *)
Definition scopeToCondition (method : string) (scope : option AllowScope)
    : string * option string :=
  match scope with
  | None => (method, None)
  | Some s =>
      match scope_kind s with
      | None => (method, None)
      | Some k => (method, Some (scopeKind_toString k))
      end
  end.

Definition permitAllRequests (db : Db) (remotePubkey keyName method : string)
    (description : option string) (scope : option AllowScope) : Db :=
  let '(keyUser, db1) := keyUser_upsert db keyName remotePubkey description in
  let '(m, k) := scopeToCondition method scope in
  signingCondition_create db1 (ku_id keyUser) m k (Some true).

Definition blockAllRequests (db : Db) (remotePubkey keyName : string) : Db :=
  let '(keyUser, db1) := keyUser_upsert db keyName remotePubkey None in
  signingCondition_create db1 (ku_id keyUser) "*" None (Some false).

End Acl.

(* ------------------------------------------------------------------------- *)
(** ** Effects: a store threaded through code that may throw

    [Eff S A] is an async function over a mutable store [S].  A [throw] keeps
    the store as it is at that point: nothing is undone implicitly. *)

Definition Eff (S A : Type) : Type := S -> (string + A) * S.

Definition ret {S A : Type} (a : A) : Eff S A := fun s => (inr a, s).

Definition throw {S A : Type} (msg : string) : Eff S A := fun s => (inl msg, s).

Definition bind {S A B : Type} (m : Eff S A) (k : A -> Eff S B) : Eff S B :=
  fun s =>
    match m s with
    | (inl e, s') => (inl e, s')
    | (inr a, s') => k a s'
    end.

Definition gets {S A : Type} (f : S -> A) : Eff S A := fun s => (inr (f s), s).

Definition modify {S : Type} (f : S -> S) : Eff S unit := fun s => (inr tt, f s).

Definition update {S A : Type} (f : S -> A * S) : Eff S A :=
  fun s => let '(a, s') := f s in (inr a, s').

Declare Scope eff_scope.
Delimit Scope eff_scope with eff.
Notation "x <- m ;; k" := (bind m (fun x => k))
  (at level 61, m at next level, right associativity) : eff_scope.
Notation "m ;;; k" := (bind m (fun _ => k))
  (at level 61, right associativity) : eff_scope.
Local Open Scope eff_scope.

(** [for (const x of xs) { await body(x) }] *)
Fixpoint forEach {S A : Type} (xs : list A) (body : A -> Eff S unit) : Eff S unit :=
  match xs with
  | [] => ret tt
  | x :: rest => body x ;;; forEach rest body
  end.

(* ------------------------------------------------------------------------- *)
(** ** Token redemption (daemon/backend.ts) *)

(** [prisma.token.findUnique({ where: { token } })] *)
Definition token_findUnique (db : Db) (token : string) : option Token :=
  find (fun t => String.eqb (tok_token t) token) (tokens db).

Definition policy_findById (db : Db) (id : nat) : option Policy :=
  find (fun p => Nat.eqb (pol_id p) id) (policies db).

(** [include: { policy: { include: { rules: true } } }] *)
Definition token_policy (db : Db) (t : Token) : option Policy :=
  match tok_policyId t with
  | Some pid => policy_findById db pid
  | None => None
  end.

Definition setRedeemed (now : Z) (keyUserId : nat) (t : Token) : Token :=
  {| tok_id := tok_id t; tok_keyName := tok_keyName t;
     tok_clientName := tok_clientName t; tok_createdBy := tok_createdBy t;
     tok_token := tok_token t; tok_policyId := tok_policyId t;
     tok_expiresAt := tok_expiresAt t;
     tok_redeemedAt := Some now; tok_keyUserId := Some keyUserId |}.

(** [prisma.token.update({ where: { id }, data })] *)
Definition token_update (db : Db) (id : nat) (f : Token -> Token) : Db :=
  withTokens db
    (map (fun t => if Nat.eqb (tok_id t) id then f t else t) (tokens db))
    (nextTokenId db).

Definition fetchValidToken (token : string) (now : Z) : Eff Db (Token * Policy) :=
  record <- gets (fun db => token_findUnique db token) ;;
  match record with
  | None => throw "Token not found"
  | Some record =>
      if isSome (tok_redeemedAt record) then throw "Token already redeemed"
      else
        policy <- gets (fun db => token_policy db record) ;;
        match policy with
        | None => throw "Token policy missing"
        | Some policy =>
            match tok_expiresAt record with
            | Some expiresAt =>
                if Z.ltb expiresAt now then throw "Token expired"
                else ret (record, policy)
            | None => ret (record, policy)
            end
        end
  end.

(** [now] is the clock read in [fetchValidToken], [redeemedNow] the one
    stored in [redeemedAt]. *)
Definition applyToken (remotePubkey token : string) (now redeemedNow : Z)
    : Eff Db unit :=
  rp <- fetchValidToken token now ;;
  let record := fst rp in
  let policy := snd rp in
  keyUser <- update (fun db =>
      keyUser_upsert db (tok_keyName record) remotePubkey
        (Some (tok_clientName record))) ;;
  modify (fun db =>
      signingCondition_create db (ku_id keyUser) "connect" None (Some true)) ;;;
  forEach (pol_rules policy) (fun rule =>
      modify (fun db =>
        signingCondition_create db (ku_id keyUser) (pr_method rule)
          (pr_kind rule) (Some true))) ;;;
  modify (fun db =>
      token_update db (tok_id record) (setRedeemed redeemedNow (ku_id keyUser))).

(** *** The redemption on a store that may refuse a write

    Each write of [applyToken] awaits a promise of the store, which the
    store may reject.  [rs_script] says, for the writes to come, with which
    error each one is refused, if it is; once the script is used up every
    write goes through. *)
Record RefusingStore : Type := {
  rs_db : Db;
  rs_script : list (option string)
}.

(** A query, which reads [rs_db]. *)
Definition reading {A : Type} (m : Eff Db A) : Eff RefusingStore A :=
  fun s =>
    let '(r, db') := m (rs_db s) in
    (r, {| rs_db := db'; rs_script := rs_script s |}).

(** A write: refused as the script says, and then without any effect. *)
Definition writing {A : Type} (f : Db -> A * Db) : Eff RefusingStore A :=
  fun s =>
    match rs_script s with
    | Some error :: rest => (inl error, {| rs_db := rs_db s; rs_script := rest |})
    | None :: rest =>
        let '(a, db') := f (rs_db s) in (inr a, {| rs_db := db'; rs_script := rest |})
    | [] =>
        let '(a, db') := f (rs_db s) in (inr a, {| rs_db := db'; rs_script := [] |})
    end.

(** [applyToken], write by write. *)
Definition applyTokenOn (remotePubkey token : string) (now redeemedNow : Z)
    : Eff RefusingStore unit :=
  rp <- reading (fetchValidToken token now) ;;
  let record := fst rp in
  let policy := snd rp in
  keyUser <- writing (fun db =>
      keyUser_upsert db (tok_keyName record) remotePubkey
        (Some (tok_clientName record))) ;;
  writing (fun db =>
      (tt, signingCondition_create db (ku_id keyUser) "connect" None (Some true))) ;;;
  forEach (pol_rules policy) (fun rule =>
      writing (fun db =>
        (tt, signingCondition_create db (ku_id keyUser) (pr_method rule)
               (pr_kind rule) (Some true)))) ;;;
  writing (fun db =>
      (tt, token_update db (tok_id record) (setRedeemed redeemedNow (ku_id keyUser)))).

(* ------------------------------------------------------------------------- *)
(** ** The daemon's world: store, relay outbox, debug log, timers *)

(** One call of [rpc.sendResponse(id, remotePubkey, result, kind, error)]. *)
Record RpcResponse : Type := {
  rs_id : string;
  rs_remotePubkey : option string;
  rs_result : string;
  rs_kind : option Z;
  rs_error : option string
}.

Record World : Type := {
  w_db : Db;
  (** responses handed to the relay, oldest first *)
  w_sent : list RpcResponse;
  (** lines written through [debug(...)] *)
  w_debug : list string;
  (** pending [setTimeout] reapers: due time and Request id *)
  w_reapers : list (Z * string);
  (** the module variable [cachedBaseUrl]: [None] is [undefined],
      [Some None] is [null] *)
  w_cachedBaseUrl : option (option string)
}.

Definition initialWorld (db : Db) : World :=
  {| w_db := db; w_sent := []; w_debug := []; w_reapers := [];
     w_cachedBaseUrl := None |}.

Definition setDb (w : World) (db : Db) : World :=
  {| w_db := db; w_sent := w_sent w; w_debug := w_debug w;
     w_reapers := w_reapers w; w_cachedBaseUrl := w_cachedBaseUrl w |}.

Definition sendResponse (id : string) (remotePubkey : option string)
    (result : string) (kind : option Z) (error : option string) (w : World) : World :=
  {| w_db := w_db w;
     w_sent := w_sent w ++
       [{| rs_id := id; rs_remotePubkey := remotePubkey; rs_result := result;
           rs_kind := kind; rs_error := error |}];
     w_debug := w_debug w; w_reapers := w_reapers w;
     w_cachedBaseUrl := w_cachedBaseUrl w |}.

Definition debugLog (line : string) (w : World) : World :=
  {| w_db := w_db w; w_sent := w_sent w; w_debug := w_debug w ++ [line];
     w_reapers := w_reapers w; w_cachedBaseUrl := w_cachedBaseUrl w |}.

Definition setReapers (w : World) (rs : list (Z * string)) : World :=
  {| w_db := w_db w; w_sent := w_sent w; w_debug := w_debug w;
     w_reapers := rs; w_cachedBaseUrl := w_cachedBaseUrl w |}.

Definition setCachedBaseUrl (w : World) (c : option string) : World :=
  {| w_db := w_db w; w_sent := w_sent w; w_debug := w_debug w;
     w_reapers := w_reapers w; w_cachedBaseUrl := Some c |}.

(** Run store code inside the world. *)
Definition liftDb {A : Type} (m : Eff Db A) : Eff World A :=
  fun w => let '(r, db') := m (w_db w) in (r, setDb w db').

(* ------------------------------------------------------------------------- *)
(** ** Authorisation broker (daemon/authorize.ts) *)

Section Authorize.
Context {R : JsRuntime}.

Definition serialiseParam (payload : option Payload) : option string :=
  match payload with
  | None => None
  | Some (PString s) => if strTruthy s then Some s else None
  | Some (PEvent e) =>
      match ev_rawEvent e with
      | Some raw => Some (raw_json raw)
      | None => None
      end
  end.

(** [prisma.request.create]; [newId] is the key the store generates and
    [now] its [createdAt] default. *)
Definition request_create (db : Db) (newId : string) (now : Z)
    (keyName : option string) (requestId remotePubkey method : string)
    (params : option string) : Request * Db :=
  let r := {| rq_id := newId; rq_keyName := keyName; rq_requestId := requestId;
              rq_remotePubkey := remotePubkey; rq_method := method;
              rq_params := params; rq_allowed := None; rq_createdAt := now;
              rq_processedAt := None |} in
  (r, withRequests db (requests db ++ [r])).

Definition request_findUnique (db : Db) (id : string) : option Request :=
  find (fun r => String.eqb (rq_id r) id) (requests db).

(** [prisma.request.delete({ where: { id } }).catch(() => {})] *)
Definition request_delete (db : Db) (id : string) : Db :=
  withRequests db (filter (fun r => negb (String.eqb (rq_id r) id)) (requests db)).

Definition persistRequest (newId : string) (now : Z) (keyName : option string)
    (requestId remotePubkey method : string) (payload : option Payload)
    (w : World) : Request * World :=
  let params := serialiseParam payload in
  let '(record, db') :=
    request_create (w_db w) newId now keyName requestId remotePubkey method params in
  let w1 := setDb w db' in
  (record, setReapers w1 (w_reapers w1 ++ [(now + 60000, rq_id record)]))%Z.

(** The reaper timers that are due at [now] run and are dropped. *)
Definition fireReapers (now : Z) (w : World) : World :=
  let due := filter (fun t => Z.leb (fst t) now) (w_reapers w) in
  let rest := filter (fun t => negb (Z.leb (fst t) now)) (w_reapers w) in
  setReapers
    (setDb w (fold_left (fun db t => request_delete db (snd t)) due (w_db w)))
    rest.

(** [configBaseUrl] is [config.baseUrl] as [admin.config()] reads it. *)
Definition resolveBaseUrl (configBaseUrl : option string) (w : World)
    : option string * World :=
  match w_cachedBaseUrl w with
  | Some cached => (cached, w)
  | None => (configBaseUrl, setCachedBaseUrl w configBaseUrl)
  end.

(** [s.replace(/\/+$/, '')] *)
Fixpoint stripTrailingSlashes (s : string) : string :=
  match s with
  | EmptyString => EmptyString
  | String c rest =>
      let r := stripTrailingSlashes rest in
      if Ascii.eqb c "/" && String.eqb r EmptyString then EmptyString
      else String c r
  end.

Definition buildRequestUrl (baseUrl requestId : string) : string :=
  stripTrailingSlashes baseUrl ++ "/requests/" ++ requestId.

Inductive PromiseState : Type :=
| Pending
| Resolved (value : option string)
| Rejected (message : string).

(** The promise that [awaitWebDecision] returns together with its
    [setInterval] handle. *)
Record Waiter : Type := {
  wt_requestId : string;
  wt_intervalActive : bool;
  wt_promise : PromiseState
}.

Definition awaitWebDecision (requestId : string) : Waiter :=
  {| wt_requestId := requestId; wt_intervalActive := true; wt_promise := Pending |}.

Definition settle (p : PromiseState) (outcome : PromiseState) : PromiseState :=
  match p with
  | Pending => outcome
  | _ => p
  end.

(** One run of the interval callback, 100 ms after the previous one. *)
Definition pollOnce (db : Db) (wt : Waiter) : Waiter :=
  if wt_intervalActive wt then
    match request_findUnique db (wt_requestId wt) with
    | None =>
        {| wt_requestId := wt_requestId wt; wt_intervalActive := false;
           wt_promise := wt_promise wt |}
    | Some record =>
        match rq_allowed record with
        | None => wt
        | Some true =>
            {| wt_requestId := wt_requestId wt; wt_intervalActive := false;
               wt_promise := settle (wt_promise wt) (Resolved (rq_params record)) |}
        | Some false =>
            {| wt_requestId := wt_requestId wt; wt_intervalActive := false;
               wt_promise := settle (wt_promise wt) (Rejected "Request denied") |}
        end
    end
  else wt.

(** [relayDecision] is what [admin.requestPermission] resolves with on the
    relay path. *)
Definition requestAuthorization (configBaseUrl : option string)
    (relayDecision : option bool) (newId : string) (now : Z)
    (keyName : option string) (remotePubkey requestId method : string)
    (payload : option Payload) (w : World) : Waiter * World :=
  let '(record, w1) :=
    persistRequest newId now keyName requestId remotePubkey method payload w in
  let '(baseUrl, w2) := resolveBaseUrl configBaseUrl w1 in
  if optStrTruthy baseUrl then
    let url := buildRequestUrl (match baseUrl with Some b => b | None => EmptyString end)
                 (rq_id record) in
    let w3 := sendResponse requestId (Some remotePubkey) "auth_url" None (Some url) w2 in
    (awaitWebDecision (rq_id record), w3)
  else
    let outcome :=
      match relayDecision with
      | Some true => Resolved None
      | _ => Rejected "Request denied"
      end in
    ({| wt_requestId := rq_id record; wt_intervalActive := false;
        wt_promise := outcome |}, w2).

(** What happens to a Request between two polls, from outside the broker. *)
Inductive AdminAction : Type :=
| NoAction
| Decide (allowed : bool) (params : option string).

Definition request_decide (db : Db) (id : string) (allowed : bool)
    (params : option string) (now : Z) : Db :=
  withRequests db
    (map (fun r =>
            if String.eqb (rq_id r) id && negb (isSome (rq_allowed r)) then
              {| rq_id := rq_id r; rq_keyName := rq_keyName r;
                 rq_requestId := rq_requestId r;
                 rq_remotePubkey := rq_remotePubkey r; rq_method := rq_method r;
                 rq_params := match params with Some p => Some p | None => rq_params r end;
                 rq_allowed := Some allowed; rq_createdAt := rq_createdAt r;
                 rq_processedAt := Some now |}
            else r)
         (requests db)).

Definition applyAdminAction (a : AdminAction) (id : string) (now : Z) (w : World) : World :=
  match a with
  | NoAction => w
  | Decide allowed params => setDb w (request_decide (w_db w) id allowed params now)
  end.

(** The wait after [requestAuthorization] on the web path: every 100 ms the
    outside action of that period lands, due reapers run, then the interval
    callback polls. *)
Fixpoint runWebWait (acts : list AdminAction) (now : Z) (w : World) (wt : Waiter)
    : Waiter * World :=
  match acts with
  | [] => (wt, w)
  | a :: rest =>
      let t := (now + 100)%Z in
      let w1 := applyAdminAction a (wt_requestId wt) t w in
      let w2 := fireReapers t w1 in
      runWebWait rest t w2 (pollOnce (w_db w2) wt)
  end.

End Authorize.

(* ------------------------------------------------------------------------- *)
(** ** Admin allow-list (daemon/admin/validations/request-from-admin.ts) *)

(** Result of [nip19.decode]: for the entity types with a string payload the
    payload is kept, the TLV entities keep their type name only. *)
Inductive Nip19Decoded : Type :=
| DecodedNpub (hex : string)
| DecodedNsec (key : string)
| DecodedNote (hex : string)
| DecodedEntity (type : string).

Class NostrTools : Type := {
  (** [nip19.decode]; [None] when it throws *)
  nip19_decode : string -> option Nip19Decoded
}.

(** An admin RPC as it reaches the handler ([NDKRpcRequest]). *)
Record RpcRequest : Type := {
  rpc_id : string;
  rpc_pubkey : option string;
  rpc_method : string;
  rpc_params : list string;
  rpc_eventKind : option Z
}.

Section AdminValidation.
Context {N : NostrTools}.

Fixpoint decodeNpubs (npubs : list string) : list string :=
  match npubs with
  | [] => []
  | npub :: rest =>
      match nip19_decode npub with
      | Some (DecodedNpub hex) => hex :: decodeNpubs rest
      | _ => decodeNpubs rest
      end
  end.

Definition validateAdminRequest (req : RpcRequest) (allowedNpubs : list string) : bool :=
  match rpc_pubkey req with
  | None => false
  | Some pubkey =>
      if strTruthy pubkey then
        existsb (String.eqb pubkey) (decodeNpubs allowedNpubs)
      else false
  end.

End AdminValidation.

(* ------------------------------------------------------------------------- *)
(** ** Admin channel: RPC dispatch (daemon/admin/index.ts and commands) *)

Section AdminRpc.
Context {R : JsRuntime} {N : NostrTools}.

(** Handlers whose bodies reach outside the store and the relay outbox (the
    vault file, key generation, daemon callbacks, HTTP services):
    [get_keys], [get_key_users], [get_key_tokens], [create_new_key],
    [create_account], [unlock_key], [create_new_policy], [get_policies],
    [create_new_token]. They are taken as given. *)
Variable collaborator : string -> RpcRequest -> Eff World unit.

Definition okResponse : string := JSON_stringify (JArray [JString "ok"]).

Definition respond (req : RpcRequest) (result : string) (kind : option Z)
    : Eff World unit :=
  modify (sendResponse (rpc_id req) (rpc_pubkey req) result kind None).

(** commands/ping.ts *)
Definition ping (req : RpcRequest) : Eff World unit :=
  respond req "ok" (Some 24134%Z).

(** commands/rename_key_user.ts *)
Definition renameKeyUser (req : RpcRequest) : Eff World unit :=
  let pubkey := nth_error (rpc_params req) 0 in
  let description := nth_error (rpc_params req) 1 in
  if negb (optStrTruthy pubkey) || negb (optStrTruthy description) then
    throw "Missing parameters for rename_key_user"
  else
    match pubkey, description with
    | Some pubkey, Some description =>
        userRecord <- gets (fun w =>
            find (fun u => String.eqb (ku_userPubkey u) pubkey) (keyUsers (w_db w))) ;;
        match userRecord with
        | None => throw "Key user not found"
        | Some userRecord =>
            liftDb (modify (fun db =>
                keyUser_update db (ku_id userRecord) (setDescription description))) ;;;
            respond req okResponse (Some 24134%Z)
        end
    | _, _ => throw "Missing parameters for rename_key_user"
    end.

(** commands/revoke_user.ts; [prisma.keyUser.update] throws when no row has
    the given id. *)
Definition revokeUser (now : Z) (req : RpcRequest) : Eff World unit :=
  match
    match nth_error (rpc_params req) 0 with
    | Some idString => Number_integer idString
    | None => None
    end
  with
  | None => throw "Invalid key user identifier"
  | Some id =>
      found <- gets (fun w =>
          if Z.ltb id 0 then None else keyUser_findById (w_db w) (Z.to_nat id)) ;;
      match found with
      | None => throw "Record to update not found"
      | Some u =>
          liftDb (modify (fun db => keyUser_update db (ku_id u) (setRevokedAt now))) ;;;
          respond req okResponse (Some 24134%Z)
      end
  end.

Definition collaboratorMethods : list string :=
  ["get_keys"; "get_key_users"; "get_key_tokens"; "create_new_key";
   "create_account"; "unlock_key"; "create_new_policy"; "get_policies";
   "create_new_token"].

Definition handleRpcRequest (adminNpubs : list string) (now : Z) (req : RpcRequest)
    : Eff World unit :=
  (if negb (String.eqb (rpc_method req) "create_account") then
     if validateAdminRequest req adminNpubs then ret tt
     else throw "You are not authorised to perform this action"
   else ret tt) ;;;
  if String.eqb (rpc_method req) "rename_key_user" then renameKeyUser req
  else if String.eqb (rpc_method req) "revoke_user" then revokeUser now req
  else if String.eqb (rpc_method req) "ping" then ping req
  else if existsb (String.eqb (rpc_method req)) collaboratorMethods then
    collaborator (rpc_method req) req
  else
    respond req
      (JSON_stringify
         (JArray [JString "error"; JString ("Unknown method " ++ rpc_method req)]))
      (match rpc_eventKind req with
       | Some k => Some k
       | None => Some 24134%Z
       end).

(** [this.rpc.on('request', req => this.handleRpcRequest(req).catch(error =>
    debug(...)))] *)
Definition onRequest (adminNpubs : list string) (now : Z) (req : RpcRequest)
    (w : World) : World :=
  match handleRpcRequest adminNpubs now req w with
  | (inl error, w') =>
      debugLog ("Error processing admin request " ++ rpc_method req ++ ": " ++ error) w'
  | (inr _, w') => w'
  end.

End AdminRpc.

(* ------------------------------------------------------------------------- *)
(** ** Admin channel: heartbeat (daemon/admin/index.ts, startHeartbeat)

    Time advances in milliseconds.  The process holds one [setTimeout]
    (the 50 s watchdog, re-armed by [schedule]) and one [setInterval]
    (the 20 s publisher). *)

Record NostrEvent : Type := {
  ne_pubkey : string;
  ne_kind : Z;
  ne_pTags : list string;
  ne_content : string
}.

Definition NostrConnect : Z := 24133.

Record Heartbeat : Type := {
  hb_now : Z;
  (** author and [#p] of the subscription; [None]: heartbeat not started *)
  hb_self : option string;
  (** due time of the watchdog [setTimeout] *)
  hb_timeout : option Z;
  (** next due time of the publishing [setInterval] *)
  hb_nextPing : option Z;
  (** events handed to [publish()], with the time, oldest first *)
  hb_published : list (Z * NostrEvent);
  (** [process.exit] status once called *)
  hb_exit : option Z
}.

Definition startHeartbeat (signerUser : option string) (now : Z) : Heartbeat :=
  match signerUser with
  | None =>
      {| hb_now := now; hb_self := None; hb_timeout := None; hb_nextPing := None;
         hb_published := []; hb_exit := None |}
  | Some pubkey =>
      {| hb_now := now; hb_self := Some pubkey;
         hb_timeout := Some (now + 50000)%Z;
         hb_nextPing := Some (now + 20000)%Z;
         hb_published := []; hb_exit := None |}
  end.

Definition pingEvent (self : string) : NostrEvent :=
  {| ne_pubkey := self; ne_kind := NostrConnect; ne_pTags := [self];
     ne_content := "ping" |}.

(** The subscription filter [{ authors: [self], kinds: [NostrConnect],
    '#p': [self] }]. *)
Definition heartbeatFilter (self : string) (e : NostrEvent) : bool :=
  String.eqb (ne_pubkey e) self
  && Z.eqb (ne_kind e) NostrConnect
  && existsb (String.eqb self) (ne_pTags e).

(** [schedule()] *)
Definition schedule (h : Heartbeat) : Heartbeat :=
  {| hb_now := hb_now h; hb_self := hb_self h;
     hb_timeout := Some (hb_now h + 50000)%Z;
     hb_nextPing := hb_nextPing h; hb_published := hb_published h;
     hb_exit := hb_exit h |}.

(** The subscriber's [on('event')] for one event delivered by a relay. *)
Definition deliver (e : NostrEvent) (h : Heartbeat) : Heartbeat :=
  match hb_exit h, hb_self h with
  | None, Some self => if heartbeatFilter self e then schedule h else h
  | _, _ => h
  end.

Definition firePublisher (h : Heartbeat) : Heartbeat :=
  match hb_self h, hb_nextPing h with
  | Some self, Some due =>
      if Z.eqb due (hb_now h) then
        {| hb_now := hb_now h; hb_self := hb_self h; hb_timeout := hb_timeout h;
           hb_nextPing := Some (due + 20000)%Z;
           hb_published := hb_published h ++ [(hb_now h, pingEvent self)];
           hb_exit := hb_exit h |}
      else h
  | _, _ => h
  end.

Definition fireWatchdog (h : Heartbeat) : Heartbeat :=
  match hb_timeout h with
  | Some due =>
      if Z.eqb due (hb_now h) then
        {| hb_now := hb_now h; hb_self := hb_self h; hb_timeout := None;
           hb_nextPing := hb_nextPing h; hb_published := hb_published h;
           hb_exit := Some 1%Z |}
      else h
  | None => h
  end.

Definition tickClock (h : Heartbeat) : Heartbeat :=
  {| hb_now := (hb_now h + 1)%Z; hb_self := hb_self h; hb_timeout := hb_timeout h;
     hb_nextPing := hb_nextPing h; hb_published := hb_published h;
     hb_exit := hb_exit h |}.

(** One millisecond passes: due timers run, then the events that relays
    deliver in that millisecond reach the subscriber.  Nothing runs after
    [process.exit]. *)
Definition msStep (delivered : list NostrEvent) (h : Heartbeat) : Heartbeat :=
  match hb_exit h with
  | Some _ => h
  | None =>
      fold_left (fun st e => deliver e st) delivered
        (fireWatchdog (firePublisher (tickClock h)))
  end.

Definition runHeartbeat (trace : list (list NostrEvent)) (h : Heartbeat) : Heartbeat :=
  fold_left (fun st d => msStep d st) trace h.


(* ------------------------------------------------------------------------- *)
(** ** HTTP surface: GET /requests (daemon/run.ts) *)

(** [StoredKey] of the vault file (config/types.ts). *)
Record StoredKey : Type := {
  sk_iv : option string;
  sk_data : option string;
  sk_key : option string
}.

Section RequestsListing.
Context {R : JsRuntime}.

Record EventPreview : Type := {
  pv_kind : option Js;
  pv_content : option Js;
  pv_tags : Js
}.

(** One element of the [requests] array of the reply; dates are kept in
    milliseconds instead of their ISO rendering. *)
Record RequestView : Type := {
  v_id : string;
  v_keyName : option string;
  v_method : string;
  v_remotePubkey : string;
  v_params : option string;
  v_eventPreview : option EventPreview;
  v_createdAt : Z;
  v_expiresAt : Z;
  v_ttlSeconds : Z;
  v_requiresPassword : bool;
  v_processedAt : option Z
}.

(** The query string after [Number.parseInt]: [None] for an absent
    parameter or a [NaN]. *)
Record RequestsQuery : Type := {
  qr_limit : option Z;
  qr_offset : option Z;
  qr_status : option string
}.

Definition queryLimit (q : RequestsQuery) : Z :=
  match qr_limit q with
  | Some requestedLimit => Z.min 50 (Z.max 1 requestedLimit)
  | None => 10
  end.

Definition queryOffset (q : RequestsQuery) : Z :=
  match qr_offset q with
  | Some requestedOffset => if Z.leb 0 requestedOffset then requestedOffset else 0
  | None => 0
  end.

Definition queryStatus (q : RequestsQuery) : string :=
  match qr_status q with
  | Some s => if strTruthy s then s else "pending"
  | None => "pending"
  end.

Definition statusWhere (status : string) (now : Z) (r : Request) : bool :=
  let sixtySecondsAgo := (now - 60000)%Z in
  if String.eqb status "approved" then
    match rq_allowed r with Some true => true | _ => false end
  else if String.eqb status "expired" then
    negb (isSome (rq_allowed r)) && Z.ltb (rq_createdAt r) sixtySecondsAgo
  else
    negb (isSome (rq_allowed r)) && Z.leb sixtySecondsAgo (rq_createdAt r).

(** [orderBy: { createdAt: 'desc' }] *)
Fixpoint insertByCreatedAtDesc (r : Request) (sorted : list Request) : list Request :=
  match sorted with
  | [] => [r]
  | x :: rest =>
      if Z.ltb (rq_createdAt x) (rq_createdAt r) then r :: x :: rest
      else x :: insertByCreatedAtDesc r rest
  end.

Definition orderByCreatedAtDesc (rs : list Request) : list Request :=
  fold_right insertByCreatedAtDesc [] rs.

Definition request_findMany (db : Db) (status : string) (now : Z) (offset limit : Z)
    : list Request :=
  firstn (Z.to_nat limit)
    (skipn (Z.to_nat offset)
       (orderByCreatedAtDesc (filter (statusWhere status now) (requests db)))).

(** [Math.round] of a number of milliseconds divided by 1000. *)
Definition roundMillisToSeconds (ms : Z) : Z := ((ms + 500) / 1000)%Z.

Definition buildEventPreview (record : Request) : option EventPreview :=
  if String.eqb (rq_method record) "sign_event" && optStrTruthy (rq_params record) then
    match rq_params record with
    | Some text =>
        match JSON_parse text with
        | Some (JArray (event :: _)) =>
            if truthy event then
              Some {| pv_kind := getProp event "kind";
                      pv_content := getProp event "content";
                      pv_tags :=
                        match getProp event "tags" with
                        | Some tags => if truthy tags then tags else JArray []
                        | None => JArray []
                        end |}
            else None
        | _ => None
        end
    | None => None
    end
  else None.

Definition requestView (allKeys : list (string * StoredKey)) (nowMillis : Z)
    (record : Request) : RequestView :=
  let requiresPassword :=
    match rq_keyName record with
    | Some keyName =>
        if strTruthy keyName then
          match assocLast keyName allKeys with
          | Some entry => negb (optStrTruthy (sk_key entry))
          | None => true
          end
        else false
    | None => false
    end in
  let expiresAt := (rq_createdAt record + 60000)%Z in
  {| v_id := rq_id record;
     v_keyName := rq_keyName record;
     v_method := rq_method record;
     v_remotePubkey := rq_remotePubkey record;
     v_params := rq_params record;
     v_eventPreview := buildEventPreview record;
     v_createdAt := rq_createdAt record;
     v_expiresAt := expiresAt;
     v_ttlSeconds := Z.max 0 (roundMillisToSeconds (expiresAt - nowMillis));
     v_requiresPassword := requiresPassword;
     v_processedAt := rq_processedAt record |}.

(** The handler: [now] is [new Date()] taken before the query, [nowMillis]
    the [Date.now()] taken after it. *)
Definition getRequests (allKeys : list (string * StoredKey)) (db : Db)
    (q : RequestsQuery) (now nowMillis : Z) : list RequestView :=
  map (requestView allKeys nowMillis)
    (request_findMany db (queryStatus q) now (queryOffset q) (queryLimit q)).

End RequestsListing.

(* ------------------------------------------------------------------------- *)
(** ** Vault (config/keyring.ts)

    Buffers are lists of bytes.  The plaintext and the passphrase are
    JavaScript strings, which the code turns into bytes and back with the
    ['utf8'] encoding of Buffers.  Node's [crypto] is used through two
    primitives, the SHA-256 hash and the AES-256 block transformation; HMAC
    (RFC 2104), PBKDF2 (RFC 8018), CBC chaining and PKCS#7 padding are spelled
    out over them. *)

Definition bytes : Type := list ascii.

(** *** JavaScript strings and their ['utf8'] encoding *)

(** A JavaScript string: its UTF-16 code units, each below [2^16]. *)
Definition JsString : Type := list N.

Section Utf8.
Local Open Scope N_scope.



Definition isHighSurrogate (u : N) : bool := (55296 <=? u) && (u <=? 56319).

Definition isLowSurrogate (u : N) : bool := (56320 <=? u) && (u <=? 57343).



(** The code points that the ['utf8'] encoder reads: a pair of surrogates
    is one code point, a lone surrogate is read as U+FFFD. *)
Fixpoint codePoints (s : JsString) : list N :=
  match s with
  | [] => []
  | u :: rest =>
      if isHighSurrogate u then
        match rest with
        | v :: rest' =>
            if isLowSurrogate v then
              (65536 + (u - 55296) * 1024 + (v - 56320)) :: codePoints rest'
            else 65533 :: codePoints rest
        | [] => [65533]
        end
      else if isLowSurrogate u then 65533 :: codePoints rest
      else u :: codePoints rest
  end.

(** UTF-8 of one code point, as byte values. *)
Definition encodeCodePoint (cp : N) : list N :=
  if cp <? 128 then [cp]
  else if cp <? 2048 then [192 + cp / 64; 128 + cp mod 64]
  else if cp <? 65536 then [224 + cp / 4096; 128 + (cp / 64) mod 64; 128 + cp mod 64]
  else [240 + cp / 262144; 128 + (cp / 4096) mod 64; 128 + (cp / 64) mod 64;
        128 + cp mod 64].

(** [Buffer.from(s, 'utf8')] *)
Definition utf8Encode (s : JsString) : bytes :=
  map ascii_of_N (flat_map encodeCodePoint (codePoints s)).

Definition isContinuation (b : N) : bool := (128 <=? b) && (b <=? 191).

(** The code points of well-formed UTF-8 (no overlong form, no surrogate,
    nothing above U+10FFFF); [None] for any other sequence of bytes. *)
Fixpoint utf8CodePoints (bs : list N) : option (list N) :=
  match bs with
  | [] => Some []
  | b0 :: r0 =>
      if b0 <? 128 then option_map (cons b0) (utf8CodePoints r0)
      else if (194 <=? b0) && (b0 <=? 223) then
        match r0 with
        | b1 :: r1 =>
            if isContinuation b1 then
              option_map (cons ((b0 - 192) * 64 + (b1 - 128))) (utf8CodePoints r1)
            else None
        | _ => None
        end
      else if (224 <=? b0) && (b0 <=? 239) then
        match r0 with
        | b1 :: b2 :: r2 =>
            let cp := (b0 - 224) * 4096 + (b1 - 128) * 64 + (b2 - 128) in
            if isContinuation b1 && isContinuation b2 && (2048 <=? cp)
               && negb ((55296 <=? cp) && (cp <=? 57343))
            then option_map (cons cp) (utf8CodePoints r2)
            else None
        | _ => None
        end
      else if (240 <=? b0) && (b0 <=? 244) then
        match r0 with
        | b1 :: b2 :: b3 :: r3 =>
            let cp := (b0 - 240) * 262144 + (b1 - 128) * 4096 + (b2 - 128) * 64
                      + (b3 - 128) in
            if isContinuation b1 && isContinuation b2 && isContinuation b3
               && (65536 <=? cp) && (cp <=? 1114111)
            then option_map (cons cp) (utf8CodePoints r3)
            else None
        | _ => None
        end
      else None
  end.

(** The code units of one code point. *)
Definition codeUnits (cp : N) : list N :=
  if cp <? 65536 then [cp]
  else [55296 + (cp - 65536) / 1024; 56320 + (cp - 65536) mod 1024].

(** The string that well-formed UTF-8 encodes. *)
Definition utf8DecodeStrict (bs : bytes) : option JsString :=
  option_map (flat_map codeUnits) (utf8CodePoints (map N_of_ascii bs)).


End Utf8.

(** A [string] of the model read as a JavaScript string, one code unit for
    each character. *)
Definition jsString (s : string) : JsString := map N_of_ascii (list_ascii_of_string s).

Class NodeCrypto : Type := {
  sha256 : bytes -> bytes;
  (** AES-256 on one 16-byte block: key, block *)
  aesEncryptBlock : bytes -> bytes -> bytes;
  aesDecryptBlock : bytes -> bytes -> bytes;
  (** The messages of the errors that OpenSSL raises through [final()] when
      the padding of the last block is wrong and when the data is not a whole
      number of blocks; their text is that of the OpenSSL build. *)
  opensslBadDecrypt : string;
  opensslWrongFinalBlockLength : string;
  (** [buf.toString('utf8')] on bytes that are not well-formed UTF-8, where
      U+FFFD stands for what cannot be decoded. *)
  utf8Replacing : bytes -> JsString
}.

(** What the block cipher guarantees. *)
Record BlockCipherLaws (C : NodeCrypto) : Prop := {
  aes_decrypt_encrypt :
    forall key block, length block = 16 ->
      aesDecryptBlock key (aesEncryptBlock key block) = block;
  aes_encrypt_length :
    forall key block, length block = 16 ->
      length (aesEncryptBlock key block) = 16
}.

Definition KEY_LENGTH : nat := 32.
Definition IV_LENGTH : nat := 16.
Definition PBKDF2_ITERATIONS : N := 100000.

Definition xorAscii (a b : ascii) : ascii :=
  match a, b with
  | Ascii a0 a1 a2 a3 a4 a5 a6 a7, Ascii b0 b1 b2 b3 b4 b5 b6 b7 =>
      Ascii (xorb a0 b0) (xorb a1 b1) (xorb a2 b2) (xorb a3 b3)
            (xorb a4 b4) (xorb a5 b5) (xorb a6 b6) (xorb a7 b7)
  end.

Fixpoint xorBytes (a b : bytes) : bytes :=
  match a, b with
  | x :: a', y :: b' => xorAscii x y :: xorBytes a' b'
  | _, _ => []
  end.

(** *** Hex encoding of buffers *)

Definition hexDigits : list ascii := list_ascii_of_string "0123456789abcdef".

Definition hexChar (n : nat) : ascii := nth n hexDigits "0"%char.

Definition hexVal (c : ascii) : option nat :=
  let n := nat_of_ascii c in
  if ((48 <=? n) && (n <=? 57))%nat then Some (n - 48)
  else if ((97 <=? n) && (n <=? 102))%nat then Some (n - 87)
  else if ((65 <=? n) && (n <=? 70))%nat then Some (n - 55)
  else None.

(** [buf.toString('hex')] *)
Fixpoint hexEncodeList (bs : bytes) : list ascii :=
  match bs with
  | [] => []
  | b :: rest =>
      hexChar (nat_of_ascii b / 16) :: hexChar (nat_of_ascii b mod 16)
        :: hexEncodeList rest
  end.

Definition hexEncode (bs : bytes) : string := string_of_list_ascii (hexEncodeList bs).

(** [Buffer.from(s, 'hex')]: decoding stops at the first pair that is not
    two hex digits. *)
Fixpoint hexDecodeList (cs : list ascii) : bytes :=
  match cs with
  | c1 :: c2 :: rest =>
      match hexVal c1, hexVal c2 with
      | Some h, Some l => ascii_of_nat (16 * h + l) :: hexDecodeList rest
      | _, _ => []
      end
  | _ => []
  end.

Definition hexDecode (s : string) : bytes := hexDecodeList (list_ascii_of_string s).

Section Vault.
Context {C : NodeCrypto}.

(** *** HMAC-SHA256 and PBKDF2 *)

Definition HMAC_BLOCK : nat := 64.

(** The key of HMAC brought to the block size: hashed when longer, then
    padded with zero bytes. *)
Definition hmacKeyBlock (key : bytes) : bytes :=
  let k := if (HMAC_BLOCK <? length key)%nat then sha256 key else key in
  k ++ repeat zero (HMAC_BLOCK - length k).

Definition hmac (key message : bytes) : bytes :=
  let k := hmacKeyBlock key in
  sha256 (xorBytes k (repeat "\"%char HMAC_BLOCK)
          ++ sha256 (xorBytes k (repeat "6"%char HMAC_BLOCK) ++ message)).

(** The first block [T_1] of PBKDF2: [U_1 xor ... xor U_c]. *)
Definition pbkdf2Block (password salt : bytes) (iterations : N) : bytes :=
  let u1 := hmac password (salt ++ [zero; zero; zero; one]) in
  snd (N.iter (iterations - 1)
         (fun st => let u := hmac password (fst st) in (u, xorBytes (snd st) u))
         (u1, u1)).

(** [crypto.pbkdf2Sync(passphrase, salt, 100000, KEY_LENGTH, 'sha256')]:
    the passphrase is taken as its UTF-8 bytes; [KEY_LENGTH] is the output
    length of SHA-256, so the key is taken from the first block. *)
Definition deriveKey (passphrase : JsString) (salt : bytes) : bytes :=
  firstn KEY_LENGTH (pbkdf2Block (utf8Encode passphrase) salt PBKDF2_ITERATIONS).

(** *** AES-256-CBC with PKCS#7 padding *)

Definition pkcs7Pad (m : bytes) : bytes :=
  let n := 16 - length m mod 16 in
  m ++ repeat (ascii_of_nat n) n.

Definition pkcs7Unpad (m : bytes) : option bytes :=
  match m with
  | [] => None
  | _ =>
      let lastByte := last m zero in
      let n := nat_of_ascii lastByte in
      if ((1 <=? n) && (n <=? 16) && (n <=? length m))%nat
         && forallb (Ascii.eqb lastByte) (skipn (length m - n) m)
      then Some (firstn (length m - n) m)
      else None
  end.

Fixpoint cbcEncrypt (fuel : nat) (key prev m : bytes) : bytes :=
  match fuel with
  | 0 => []
  | S fuel' =>
      match m with
      | [] => []
      | _ =>
          let c := aesEncryptBlock key (xorBytes (firstn 16 m) prev) in
          c ++ cbcEncrypt fuel' key c (skipn 16 m)
      end
  end.

Fixpoint cbcDecrypt (fuel : nat) (key prev ct : bytes) : bytes :=
  match fuel with
  | 0 => []
  | S fuel' =>
      match ct with
      | [] => []
      | _ =>
          let c := firstn 16 ct in
          xorBytes (aesDecryptBlock key c) prev ++ cbcDecrypt fuel' key c (skipn 16 ct)
      end
  end.

(** [createCipheriv('aes-256-cbc', key, iv)], [update] and [final]. *)
Definition aes256cbcEncrypt (key iv plaintext : bytes) : bytes :=
  let padded := pkcs7Pad plaintext in
  cbcEncrypt (length padded) key iv padded.

(** [createDecipheriv('aes-256-cbc', key, iv)], [update] and [final];
    [inl] carries the message of the error thrown. *)
Definition aes256cbcDecrypt (key iv ct : bytes) : string + bytes :=
  if negb (length iv =? IV_LENGTH)%nat then inl "Invalid initialization vector"
  else if ((length ct =? 0) || negb (length ct mod 16 =? 0))%nat then
    inl opensslWrongFinalBlockLength
  else
    match pkcs7Unpad (cbcDecrypt (length ct) key iv ct) with
    | Some m => inr m
    | None => inl opensslBadDecrypt
    end.

(** The ['utf8'] output of [update] and [final]: the string that the bytes
    encode when they are well-formed UTF-8. *)
Definition utf8Decode (m : bytes) : JsString :=
  match utf8DecodeStrict m with
  | Some s => s
  | None => utf8Replacing m
  end.

Record EncryptedSecret : Type := {
  enc_iv : string;
  enc_data : string
}.

(** [salt] and [iv] are the two results of [crypto.randomBytes(16)]. *)
Definition encryptSecret (secret passphrase : JsString) (salt iv : bytes)
    : EncryptedSecret :=
  let key := deriveKey passphrase salt in
  let encrypted := hexEncode (aes256cbcEncrypt key iv (utf8Encode secret)) in
  let combined := salt ++ hexDecode encrypted in
  {| enc_iv := hexEncode iv; enc_data := hexEncode combined |}.

Definition decryptSecret (encrypted : EncryptedSecret) (passphrase : JsString)
    : string + JsString :=
  let iv := hexDecode (enc_iv encrypted) in
  let combined := hexDecode (enc_data encrypted) in
  let salt := firstn 16 combined in
  let encryptedData := skipn 16 combined in
  let key := deriveKey passphrase salt in
  match aes256cbcDecrypt key iv (hexDecode (hexEncode encryptedData)) with
  | inl e => inl e
  | inr m => inr (utf8Decode m)
  end.

End Vault.

(* ------------------------------------------------------------------------- *)
(** ** Every write the daemon performs on the ACL tables

    Writes to the Key, Log and User tables are left out: the ACL evaluator and
    token redemption never read them. *)

Section StoreOps.
Context {R : JsRuntime}.

(** [prisma.policy.create] followed by one [prisma.policyRule.create] per
    rule (commands/create_new_policy.ts). *)
Definition policy_create (db : Db) (name : string) (expiresAt : option Z)
    (rules : list PolicyRule) : Db :=
  withPolicies db
    (policies db ++
       [{| pol_id := nextPolicyId db; pol_name := name;
           pol_expiresAt := expiresAt; pol_rules := rules |}])
    (S (nextPolicyId db)).

(** [prisma.token.create] (commands/create_new_token.ts). *)
Definition token_create (db : Db) (keyName clientName createdBy token : string)
    (policyId : nat) (expiresAt : option Z) : Db :=
  withTokens db
    (tokens db ++
       [{| tok_id := nextTokenId db; tok_keyName := keyName;
           tok_clientName := clientName; tok_createdBy := createdBy;
           tok_token := token; tok_policyId := Some policyId;
           tok_expiresAt := expiresAt; tok_redeemedAt := None;
           tok_keyUserId := None |}])
    (S (nextTokenId db)).

Inductive StoreOp : Type :=
| OpPermitAllRequests (remotePubkey keyName method : string)
    (description : option string) (scope : option AllowScope)
| OpBlockAllRequests (remotePubkey keyName : string)
| OpApplyToken (remotePubkey token : string) (now redeemedNow : Z)
| OpRevokeKeyUser (id : nat) (now : Z)
| OpRenameKeyUser (id : nat) (description : string)
| OpCreatePolicy (name : string) (expiresAt : option Z) (rules : list PolicyRule)
| OpCreateToken (keyName clientName createdBy token : string) (policyId : nat)
    (expiresAt : option Z)
| OpCreateRequest (newId : string) (now : Z) (keyName : option string)
    (requestId remotePubkey method : string) (params : option string)
| OpDecideRequest (id : string) (allowed : bool) (params : option string) (now : Z)
| OpDeleteRequest (id : string).

Definition applyOp (op : StoreOp) (db : Db) : Db :=
  match op with
  | OpPermitAllRequests remotePubkey keyName method description scope =>
      permitAllRequests db remotePubkey keyName method description scope
  | OpBlockAllRequests remotePubkey keyName =>
      blockAllRequests db remotePubkey keyName
  | OpApplyToken remotePubkey token now redeemedNow =>
      snd (applyToken remotePubkey token now redeemedNow db)
  | OpRevokeKeyUser id now => keyUser_update db id (setRevokedAt now)
  | OpRenameKeyUser id description => keyUser_update db id (setDescription description)
  | OpCreatePolicy name expiresAt rules => policy_create db name expiresAt rules
  | OpCreateToken keyName clientName createdBy token policyId expiresAt =>
      token_create db keyName clientName createdBy token policyId expiresAt
  | OpCreateRequest newId now keyName requestId remotePubkey method params =>
      snd (request_create db newId now keyName requestId remotePubkey method params)
  | OpDecideRequest id allowed params now => request_decide db id allowed params now
  | OpDeleteRequest id => request_delete db id
  end.

Definition applyOps (ops : list StoreOp) (db : Db) : Db :=
  fold_left (fun st op => applyOp op st) ops db.

End StoreOps.

(* ------------------------------------------------------------------------- *)
(** ** A runtime to evaluate the model on concrete inputs

    Numbers are integers; the reader covers the JSON texts without
    fractions, exponents and [\u] escapes and rejects the others. *)

Module MiniJs.

Definition dquote : ascii := "034"%char.
Definition backslash : ascii := "\"%char.

Definition isWs (c : ascii) : bool :=
  let n := nat_of_ascii c in
  ((n =? 32) || (n =? 9) || (n =? 10) || (n =? 13))%nat.

Fixpoint skipWs (s : list ascii) : list ascii :=
  match s with
  | c :: r => if isWs c then skipWs r else s
  | [] => []
  end.

Definition isDigit (c : ascii) : bool :=
  let n := nat_of_ascii c in ((48 <=? n) && (n <=? 57))%nat.

Definition digitVal (c : ascii) : Z := Z.of_nat (nat_of_ascii c - 48).

Fixpoint takeDigits (s : list ascii) (acc : Z) : Z * list ascii :=
  match s with
  | c :: r => if isDigit c then takeDigits r (10 * acc + digitVal c)%Z else (acc, s)
  | [] => (acc, [])
  end.

Fixpoint stripPrefix (p s : list ascii) : option (list ascii) :=
  match p, s with
  | [], _ => Some s
  | a :: p', b :: s' => if Ascii.eqb a b then stripPrefix p' s' else None
  | _ :: _, [] => None
  end.

Definition endsNumber (s : list ascii) : bool :=
  match s with
  | c :: _ => negb (Ascii.eqb c "." || Ascii.eqb c "e" || Ascii.eqb c "E")
  | [] => true
  end.

(** An integer literal: optional minus, no leading zero. *)
Definition readInteger (s : list ascii) : option (Z * list ascii) :=
  let '(neg, body) :=
    match s with
    | c :: r => if Ascii.eqb c "-" then (true, r) else (false, s)
    | [] => (false, s)
    end in
  match body with
  | d :: r =>
      if isDigit d then
        let '(n, rest) :=
          if Ascii.eqb d "0" then (0%Z, r) else takeDigits body 0%Z in
        match rest with
        | d2 :: _ => if isDigit d2 then None
                     else if endsNumber rest then Some (if neg then (- n)%Z else n, rest)
                     else None
        | [] => Some (if neg then (- n)%Z else n, rest)
        end
      else None
  | [] => None
  end.

Definition unescape (c : ascii) : option ascii :=
  if Ascii.eqb c dquote then Some dquote
  else if Ascii.eqb c backslash then Some backslash
  else if Ascii.eqb c "/" then Some "/"%char
  else if Ascii.eqb c "n" then Some "010"%char
  else if Ascii.eqb c "r" then Some "013"%char
  else if Ascii.eqb c "t" then Some "009"%char
  else None.

(** The characters after an opening quote, up to the closing one. *)
Fixpoint readStringBody (s acc : list ascii) : option (string * list ascii) :=
  match s with
  | [] => None
  | c :: r =>
      if Ascii.eqb c dquote then Some (string_of_list_ascii (rev acc), r)
      else if Ascii.eqb c backslash then
        match r with
        | e :: r' =>
            match unescape e with
            | Some u => readStringBody r' (u :: acc)
            | None => None
            end
        | [] => None
        end
      else if (nat_of_ascii c <? 32)%nat then None
      else readStringBody r (c :: acc)
  end.

Inductive ParseMode : Type := ModeValue | ModeElements | ModeMembers.

Inductive ParseResult : Type :=
| ResValue (v : JsValue Z)
| ResElements (l : list (JsValue Z))
| ResMembers (l : list (string * JsValue Z)).

Fixpoint parseJson (fuel : nat) (mode : ParseMode) (s : list ascii)
    : option (ParseResult * list ascii) :=
  match fuel with
  | 0 => None
  | S fuel' =>
      match mode with
      | ModeValue =>
          match skipWs s with
          | [] => None
          | c :: r =>
              if Ascii.eqb c "{" then
                match skipWs r with
                | c2 :: r2 =>
                    if Ascii.eqb c2 "}" then Some (ResValue (JObject []), r2)
                    else
                      match parseJson fuel' ModeMembers r with
                      | Some (ResMembers ms, rest) => Some (ResValue (JObject ms), rest)
                      | _ => None
                      end
                | [] => None
                end
              else if Ascii.eqb c "[" then
                match skipWs r with
                | c2 :: r2 =>
                    if Ascii.eqb c2 "]" then Some (ResValue (JArray []), r2)
                    else
                      match parseJson fuel' ModeElements r with
                      | Some (ResElements vs, rest) => Some (ResValue (JArray vs), rest)
                      | _ => None
                      end
                | [] => None
                end
              else if Ascii.eqb c dquote then
                match readStringBody r [] with
                | Some (str, rest) => Some (ResValue (JString str), rest)
                | None => None
                end
              else
                match stripPrefix (list_ascii_of_string "null") (c :: r) with
                | Some rest => Some (ResValue JNull, rest)
                | None =>
                match stripPrefix (list_ascii_of_string "true") (c :: r) with
                | Some rest => Some (ResValue (JBool true), rest)
                | None =>
                match stripPrefix (list_ascii_of_string "false") (c :: r) with
                | Some rest => Some (ResValue (JBool false), rest)
                | None =>
                match readInteger (c :: r) with
                | Some (n, rest) => Some (ResValue (JNumber n), rest)
                | None => None
                end end end end
          end
      | ModeElements =>
          match parseJson fuel' ModeValue s with
          | Some (ResValue v, rest) =>
              match skipWs rest with
              | c :: r =>
                  if Ascii.eqb c "," then
                    match parseJson fuel' ModeElements r with
                    | Some (ResElements vs, rest') => Some (ResElements (v :: vs), rest')
                    | _ => None
                    end
                  else if Ascii.eqb c "]" then Some (ResElements [v], r)
                  else None
              | [] => None
              end
          | _ => None
          end
      | ModeMembers =>
          match skipWs s with
          | q :: r =>
              if Ascii.eqb q dquote then
                match readStringBody r [] with
                | Some (key, afterKey) =>
                    match skipWs afterKey with
                    | colon :: afterColon =>
                        if Ascii.eqb colon ":" then
                          match parseJson fuel' ModeValue afterColon with
                          | Some (ResValue v, rest) =>
                              match skipWs rest with
                              | c :: r' =>
                                  if Ascii.eqb c "," then
                                    match parseJson fuel' ModeMembers r' with
                                    | Some (ResMembers ms, rest') =>
                                        Some (ResMembers ((key, v) :: ms), rest')
                                    | _ => None
                                    end
                                  else if Ascii.eqb c "}" then Some (ResMembers [(key, v)], r')
                                  else None
                              | [] => None
                              end
                          | _ => None
                          end
                        else None
                    | [] => None
                    end
                | None => None
                end
              else None
          | [] => None
          end
      end
  end.

Definition parse (text : string) : option (JsValue Z) :=
  let s := list_ascii_of_string text in
  match parseJson (2 * length s + 2) ModeValue s with
  | Some (ResValue v, rest) =>
      match skipWs rest with
      | [] => Some v
      | _ => None
      end
  | _ => None
  end.

Definition zToString (n : Z) : string := NilZero.string_of_int (Z.to_int n).

Fixpoint escapeChars (s : list ascii) : list ascii :=
  match s with
  | [] => []
  | c :: r =>
      if Ascii.eqb c dquote || Ascii.eqb c backslash then backslash :: c :: escapeChars r
      else c :: escapeChars r
  end.

Definition quoteString (s : string) : string :=
  String dquote
    (string_of_list_ascii (escapeChars (list_ascii_of_string s)) ++ String dquote EmptyString).

Fixpoint stringify (v : JsValue Z) : string :=
  (match v with
   | JNull => "null"
   | JBool true => "true"
   | JBool false => "false"
   | JNumber n => zToString n
   | JString s => quoteString s
   | JArray items =>
       "[" ++ (fix go (l : list (JsValue Z)) : string :=
                 match l with
                 | nil => EmptyString
                 | cons x r =>
                     stringify x
                       ++ match r with nil => EmptyString | _ => "," ++ go r end
                 end) items ++ "]"
   | JObject fields =>
       "{" ++ (fix go (l : list (string * JsValue Z)) : string :=
                 match l with
                 | nil => EmptyString
                 | cons (k, x) r =>
                     quoteString k ++ ":" ++ stringify x
                       ++ match r with nil => EmptyString | _ => "," ++ go r end
                 end) fields ++ "}"
   end)%string.

(** [Number(s)] for a decimal integer literal or the empty string. *)
Definition numberInteger (text : string) : option Z :=
  match skipWs (list_ascii_of_string text) with
  | [] => Some 0%Z
  | s =>
      match readInteger s with
      | Some (n, rest) => match skipWs rest with [] => Some n | _ => None end
      | None => None
      end
  end.

#[export] Instance runtime : JsRuntime := {
  number := Z;
  number_toString := zToString;
  number_truthy := fun n => negb (Z.eqb n 0);
  JSON_parse := parse;
  JSON_stringify := stringify;
  Number_integer := numberInteger
}.

(** [q s] is [s] between double quotes. *)
Definition q (s : string) : string :=
  String dquote (s ++ String dquote EmptyString).

End MiniJs.

(* ------------------------------------------------------------------------- *)
(** ** NIP-19 decoding (bech32, BIP-173) to evaluate the allow-list *)

Module Nip19.

Definition charset : list ascii :=
  list_ascii_of_string "qpzry9x8gf2tvdw0s3jn54khce6mua7l".

Fixpoint indexOf (c : ascii) (l : list ascii) (i : N) : option N :=
  match l with
  | [] => None
  | x :: r => if Ascii.eqb x c then Some i else indexOf c r (i + 1)%N
  end.

Fixpoint charsToWords (s : list ascii) : option (list N) :=
  match s with
  | [] => Some []
  | c :: r =>
      match indexOf c charset 0%N, charsToWords r with
      | Some w, Some ws => Some (w :: ws)
      | _, _ => None
      end
  end.

Definition generator : list N :=
  [996825010; 642813549; 513874426; 1027748829; 705979059]%N.

Definition polymodStep (chk v : N) : N :=
  let b := N.shiftr chk 25 in
  let chk' := N.lxor (N.shiftl (N.land chk 33554431) 5) v in
  fst (fold_left
         (fun (st : N * N) g =>
            let '(acc, i) := st in
            (if N.testbit b i then N.lxor acc g else acc, (i + 1)%N))
         generator (chk', 0%N)).

Definition polymod (values : list N) : N := fold_left polymodStep values 1%N.

Definition hrpExpand (hrp : list ascii) : list N :=
  map (fun c => N.shiftr (N_of_ascii c) 5) hrp
    ++ [0%N]
    ++ map (fun c => N.land (N_of_ascii c) 31) hrp.

Definition isUpper (c : ascii) : bool :=
  let n := nat_of_ascii c in ((65 <=? n) && (n <=? 90))%nat.

Definition isLower (c : ascii) : bool :=
  let n := nat_of_ascii c in ((97 <=? n) && (n <=? 122))%nat.

Definition toLower (c : ascii) : ascii :=
  if isUpper c then ascii_of_nat (nat_of_ascii c + 32) else c.

(** Position of the last ['1'], scanning the reversed string. *)
Fixpoint splitAtLastOne (revChars dataAcc : list ascii)
    : option (list ascii * list ascii) :=
  match revChars with
  | [] => None
  | c :: r =>
      if Ascii.eqb c "1" then Some (rev r, dataAcc)
      else splitAtLastOne r (c :: dataAcc)
  end.

(** [bech32.decode(str, 5000)]: the prefix and the data words without the
    checksum. *)
Definition bech32Decode (text : string) : option (string * list N) :=
  let chars := list_ascii_of_string text in
  if ((length chars <? 8) || (5000 <? length chars))%nat then None
  else if existsb isUpper chars && existsb isLower chars then None
  else
    let lowered := map toLower chars in
    match splitAtLastOne (rev lowered) [] with
    | None => None
    | Some (prefix, data) =>
        if ((length prefix =? 0) || (length data <? 6))%nat then None
        else
          match charsToWords data with
          | None => None
          | Some words =>
              if N.eqb (polymod (hrpExpand prefix ++ words)) 1 then
                Some (string_of_list_ascii prefix,
                      firstn (length words - 6) words)
              else None
          end
    end.

(** [bech32.fromWords]: regroup 5-bit words into bytes, most significant bit
    first, without padding; left-over bits must be fewer than five and
    zero. *)
Fixpoint fromWordsAux (words : list N) (acc bits : N) : option (list ascii) :=
  match words with
  | [] =>
      if (5 <=? bits)%N then None
      else if N.eqb (N.land (N.shiftl acc (8 - bits)) 255) 0 then Some []
      else None
  | w :: rest =>
      let acc' := N.lor (N.shiftl acc 5) w in
      let bits' := (bits + 5)%N in
      if (8 <=? bits')%N then
        let out := ascii_of_N (N.land (N.shiftr acc' (bits' - 8)) 255) in
        match fromWordsAux rest (N.land acc' (N.ones (bits' - 8))) (bits' - 8)%N with
        | Some bs => Some (out :: bs)
        | None => None
        end
      else fromWordsAux rest acc' bits'
  end.

Definition fromWords (words : list N) : option (list ascii) :=
  fromWordsAux words 0%N 0%N.

(** [nip19.decode]: the TLV entities ([nprofile], [nevent], [naddr]) are
    recognised by their prefix and their fields are not read. *)
Definition decode (text : string) : option Nip19Decoded :=
  match bech32Decode text with
  | None => None
  | Some (prefix, words) =>
      match fromWords words with
      | None => None
      | Some data =>
          if String.eqb prefix "npub" then Some (DecodedNpub (hexEncode data))
          else if String.eqb prefix "note" then Some (DecodedNote (hexEncode data))
          else if String.eqb prefix "nsec" then Some (DecodedNsec (hexEncode data))
          else if String.eqb prefix "nprofile" || String.eqb prefix "nevent"
                  || String.eqb prefix "naddr"
          then Some (DecodedEntity prefix)
          else None
      end
  end.

#[export] Instance tools : NostrTools := {
  nip19_decode := decode
}.

End Nip19.

(* ------------------------------------------------------------------------- *)
(** ** A block cipher that satisfies [BlockCipherLaws]

    Used to show that the assumptions on the cipher can be met and to run
    the vault on concrete inputs; it stands in for AES only in that role. *)

Module XorCipher.

Definition blockKey (key : bytes) : bytes := firstn 16 (key ++ repeat zero 16).

Definition encryptBlock (key block : bytes) : bytes := xorBytes block (blockKey key).

Definition digest (m : bytes) : bytes := firstn 32 (rev m ++ repeat zero 32).

(** U+FFFD for every byte: enough for the well-formed inputs this instance
    is run on. *)
Definition replacing (m : bytes) : JsString := map (fun _ => 65533%N) m.

#[export] Instance crypto : NodeCrypto := {
  sha256 := digest;
  aesEncryptBlock := encryptBlock;
  aesDecryptBlock := encryptBlock;
  opensslBadDecrypt := "error:1C800064:Provider routines::bad decrypt";
  opensslWrongFinalBlockLength :=
    "error:1C80006B:Provider routines::wrong final block length";
  utf8Replacing := replacing
}.

End XorCipher.

(* ------------------------------------------------------------------------- *)
(** ** Vocabulary of the specification *)

Unset Implicit Arguments.



(** [u] is a KeyUser [(keyName, clientPubkey)]: a row of the KeyUser table
    under that key name and that client pubkey. *)
Definition KeyUserOf (keyName clientPubkey : string) (u : KeyUser) : Prop :=
  ku_keyName u = keyName /\ ku_userPubkey u = clientPubkey.

(** A [method='*', allowed=false] row under the given KeyUser. *)
Definition vetoRow (keyUserId : nat) (c : SigningCondition) : Prop :=
  sc_keyUserId c = keyUserId /\ sc_method c = "*" /\ sc_allowed c = Some false.

Definition hasVeto (db : Db) (keyUserId : nat) : Prop :=
  exists c, In c (signingConditions db) /\ vetoRow keyUserId c.

(** [db'] keeps every KeyUser of [db] under its id and every
    SigningCondition of [db]. *)
Definition Extends (db db' : Db) : Prop :=
  (forall keyName pubkey u,
      keyUser_findUnique db keyName pubkey = Some u ->
      exists u', keyUser_findUnique db' keyName pubkey = Some u'
                 /\ ku_id u' = ku_id u)
  /\ incl (signingConditions db) (signingConditions db').

Section EvaluationVocabulary.
Context {R : JsRuntime}.

(** The event kind that the primary parameter carries: a non-empty string
    that parses as JSON with a numeric [kind], or an event object with a
    numeric [kind] of its own or of its raw event. *)
Inductive CarriesKind : option Payload -> number -> Prop :=
| CarriesKind_json (s : string) (v : Js) (n : number) :
    s <> EmptyString -> JSON_parse s = Some v ->
    getProp v "kind" = Some (JNumber n) ->
    CarriesKind (Some (PString s)) n
| CarriesKind_event (e : EventObject) (n : number) :
    ev_kind e = Some n -> CarriesKind (Some (PEvent e)) n
| CarriesKind_raw (e : EventObject) (raw : RawEvent) (n : number) :
    ev_kind e = None -> ev_rawEvent e = Some raw -> raw_kind raw = Some n ->
    CarriesKind (Some (PEvent e)) n.

(** Membership of a row's kind in the kind set: ["all"] plus the kind the
    parameter carries. *)
Definition inKindSet (payload : option Payload) (kind : option string) : Prop :=
  exists k, kind = Some k
    /\ (k = "all" \/ exists n, CarriesKind payload n /\ k = number_toString n).

(** A row that the query of step 4 selects: same KeyUser, same method and,
    for [sign_event] only, a kind in the kind set. *)
Definition applicable (keyUserId : nat) (method : string) (payload : option Payload)
    (c : SigningCondition) : Prop :=
  sc_keyUserId c = keyUserId /\ sc_method c = method
  /\ (method = "sign_event" -> inKindSet payload (sc_kind c)).

End EvaluationVocabulary.


Definition ruleCondition (keyUserId : nat) (db : Db) (rule : PolicyRule) : Db :=
  signingCondition_create db keyUserId (pr_method rule) (pr_kind rule) (Some true).

(** The store after a redemption that passed [fetchValidToken]: upsert,
    connect row, one row per rule, token marked. *)
Definition redeemed (db : Db) (record : Token) (policy : Policy)
    (remotePubkey : string) (redeemedNow : Z) : Db :=
  let keyUser := fst (keyUser_upsert db (tok_keyName record) remotePubkey
                        (Some (tok_clientName record))) in
  let db1 := snd (keyUser_upsert db (tok_keyName record) remotePubkey
                    (Some (tok_clientName record))) in
  let db2 := signingCondition_create db1 (ku_id keyUser) "connect" None (Some true) in
  let db3 := fold_left (ruleCondition (ku_id keyUser)) (pol_rules policy) db2 in
  token_update db3 (tok_id record) (setRedeemed redeemedNow (ku_id keyUser)).

(** Rows granted in one go: consecutive ids, all [allowed = true]. *)
Fixpoint grantRows (keyUserId firstId : nat) (entries : list (string * option string))
    : list SigningCondition :=
  match entries with
  | [] => []
  | (method, kind) :: rest =>
      {| sc_id := firstId; sc_keyUserId := keyUserId; sc_method := method;
         sc_kind := kind; sc_allowed := Some true |}
        :: grantRows keyUserId (S firstId) rest
  end.

Definition ruleEntry (rule : PolicyRule) : string * option string :=
  (pr_method rule, pr_kind rule).

Definition tokenExpired (record : Token) (now : Z) : bool :=
  match tok_expiresAt record with
  | Some expiresAt => Z.ltb expiresAt now
  | None => false
  end.

Definition unauthorised : string := "You are not authorised to perform this action".





(** The event of the first end-to-end scenario, as a client sends it. *)
Definition sampleEventJson : string :=
  "{" ++ MiniJs.q "kind" ++ ":1," ++ MiniJs.q "content" ++ ":" ++ MiniJs.q "hi"
      ++ "," ++ MiniJs.q "tags" ++ ":[]}".

(** Two entries of the NIP-19 specification and a raw hex key. *)
Definition sampleNpub : string :=
  "npub180cvv07tjdrrgpa0j7j7tmnyl2yr6yr7l8j4s3evf6u64th6gkwsyjh6w6".
Definition sampleNpubHex : string :=
  "3bf0c63fcb93463407af97a5e5ee64fa883d107ef9e558472c4eb9aaaefa459d".
Definition sampleNsec : string :=
  "nsec1vl029mgpspedva04g90vltkh6fvh240zqtv9k0t9af8935ke9laqsnlfe5".
Definition otherNpub : string :=
  "npub10elfcs4fr0l0r8af98jlmgdh9c8tcxjvz9qkw038js35mp4dma8qzvjptg".
Definition otherNpubHex : string :=
  "7e7e9c42a91bfef19fa929e5fda1b72e0ebc1a4c1141673e2794234d86addf4e".

(** Sample stores and requests on which the properties are exercised. *)

Definition aliceClient : KeyUser :=
  {| ku_id := 1; ku_keyName := "alice"; ku_userPubkey := "client-pubkey";
     ku_description := None; ku_revokedAt := None |}.


Definition vetoedStore : Db := blockAllRequests emptyDb "client-pubkey" "alice".

Definition kindOneRow : SigningCondition :=
  {| sc_id := 1; sc_keyUserId := 1; sc_method := "sign_event"; sc_kind := Some "1";
     sc_allowed := Some true |}.

Definition kindOneStore : Db :=
  withConditions (withKeyUsers emptyDb [aliceClient] 2) [kindOneRow] 2.

(** A second client of the key ["alice"], with a grant for every kind, next
    to the client of [kindOneStore]. *)
Definition otherClient : KeyUser :=
  {| ku_id := 2; ku_keyName := "alice"; ku_userPubkey := "other-pubkey";
     ku_description := None; ku_revokedAt := None |}.

Definition otherAllRow : SigningCondition :=
  {| sc_id := 2; sc_keyUserId := 2; sc_method := "sign_event"; sc_kind := Some "all";
     sc_allowed := Some true |}.

Definition twoClientStore : Db :=
  withConditions (withKeyUsers emptyDb [otherClient; aliceClient] 3)
    [otherAllRow; kindOneRow] 3.

Definition eventOfKind (k : string) : string :=
  "{" ++ MiniJs.q "kind" ++ ":" ++ k ++ "," ++ MiniJs.q "content" ++ ":"
      ++ MiniJs.q "hi" ++ "," ++ MiniJs.q "tags" ++ ":[]}".

Definition redeemableStore : Db :=
  token_create
    (policy_create emptyDb "signer" None
       [{| pr_method := "sign_event"; pr_kind := Some "1";
           pr_maxUsageCount := Some 5%Z; pr_currentUsageCount := 0%Z |}])
    "alice" "phone" "admin-pubkey" "token-1" 1 None.

Definition redeemedStore : Db :=
  snd (applyToken "client-pubkey" "token-1" 10%Z 11%Z redeemableStore).

Definition noCollaborator : string -> RpcRequest -> Eff World unit :=
  fun _ _ => ret tt.

Definition strangerRevoke : RpcRequest :=
  {| rpc_id := "rpc-9"; rpc_pubkey := Some otherNpubHex; rpc_method := "revoke_user";
     rpc_params := ["1"]; rpc_eventKind := Some 24133%Z |}.

Definition adminRevoke : RpcRequest :=
  {| rpc_id := "rpc-10"; rpc_pubkey := Some sampleNpubHex; rpc_method := "revoke_user";
     rpc_params := ["1"]; rpc_eventKind := Some 24133%Z |}.

(* ------------------------------------------------------------------------- *)
(** ** Vocabulary of the properties of the store, the listing and the vault *)

(** What every write keeps true of the KeyUser and SigningCondition tables. *)
Record StoreIntegrity (db : Db) : Prop := {
  si_user_ids_issued :
    forall u, In u (keyUsers db) -> ku_id u < nextKeyUserId db;
  si_user_ids_unique : NoDup (map ku_id (keyUsers db));
  si_user_pairs_unique :
    NoDup (map (fun u => (ku_keyName u, ku_userPubkey u)) (keyUsers db));
  si_condition_ids_issued :
    forall c, In c (signingConditions db) -> sc_id c < nextConditionId db;
  si_condition_ids_unique : NoDup (map sc_id (signingConditions db));
  si_conditions_owned :
    forall c, In c (signingConditions db) ->
      exists u, In u (keyUsers db) /\ ku_id u = sc_keyUserId c;
  si_grant_or_veto :
    forall c, In c (signingConditions db) ->
      sc_allowed c = Some true \/ (sc_method c = "*" /\ sc_allowed c = Some false)
}.

(** The client [(keyName, pubkey)] is, in [db], neither revoked nor under a
    veto; a client without KeyUser is neither. *)
Definition inGoodStanding (db : Db) (keyName pubkey : string) : Prop :=
  forall u, keyUser_findUnique db keyName pubkey = Some u ->
            ku_revokedAt u = None /\ ~ hasVeto db (ku_id u).

(** [db'] keeps every revoked KeyUser of [db] revoked. *)
Definition StaysRevoked (db db' : Db) : Prop :=
  forall keyName pubkey u,
    keyUser_findUnique db keyName pubkey = Some u -> ku_revokedAt u <> None ->
    exists u', keyUser_findUnique db' keyName pubkey = Some u'
               /\ ku_revokedAt u' <> None.

(** [k] slashes. *)
Fixpoint slashes (k : nat) : string :=
  match k with
  | 0 => EmptyString
  | S k' => String "/" (slashes k')
  end.

(** Order of the rows of a listing: newest first. *)
Definition newerFirst (a b : Request) : Prop := (rq_createdAt b <= rq_createdAt a)%Z.

(** Stores, operations and rows on which these properties are exercised. *)

Definition allKinds : option (AllowScope (R := MiniJs.runtime)) :=
  Some {| scope_kind := Some KindAll |}.

Definition grantAllKinds : StoreOp (R := MiniJs.runtime) :=
  OpPermitAllRequests "client-pubkey" "alice" "sign_event" None allKinds.

Definition allKindsRow : SigningCondition :=
  {| sc_id := 1; sc_keyUserId := 1; sc_method := "sign_event"; sc_kind := Some "all";
     sc_allowed := Some true |}.

Definition signerPolicy : Policy :=
  {| pol_id := 1; pol_name := "signer"; pol_expiresAt := None;
     pol_rules := [{| pr_method := "sign_event"; pr_kind := Some "1";
                      pr_maxUsageCount := Some 5%Z; pr_currentUsageCount := 0%Z |}] |}.

Definition issueToken : list (StoreOp (R := MiniJs.runtime)) :=
  [OpCreatePolicy "signer" None (pol_rules signerPolicy);
   OpCreateToken "alice" "phone" "admin-pubkey" "token-1" 1 None].

Definition issuedToken : Token :=
  {| tok_id := 1; tok_keyName := "alice"; tok_clientName := "phone";
     tok_createdBy := "admin-pubkey"; tok_token := "token-1"; tok_policyId := Some 1;
     tok_expiresAt := None; tok_redeemedAt := None; tok_keyUserId := None |}.

(* ------------------------------------------------------------------------- *)
(** ** The authorisation callback of a key (daemon/run.ts) *)

(** How a call of the permit callback ends: with the decision of the ACL,
    with the outcome of the wait that [requestAuthorization] started, or with
    the exception of [nip19.npubEncode]. *)
Inductive CallbackOutcome : Type :=
| Decided (allowed : bool)
| Asked (wait : Waiter)
| Thrown.

Section AuthorizationCallback.
Context {R : JsRuntime}.

(** [nip19.npubEncode]: [None] when it throws, as it does on a pubkey that
    is not hexadecimal. *)
Variable npubEncode : string -> option string.

(** [params] is [None] when the request carries no array. *)
Definition buildAuthorizationCallback (keyName : string)
    (configBaseUrl : option string) (relayDecision : option bool)
    (newId : string) (now : Z) (id method pubkey : string)
    (params : option (list Payload)) (w : World) : CallbackOutcome * World :=
  match npubEncode pubkey with
  | None => (Thrown, w)
  | Some humanPubkey =>
      let primaryParam :=
        match params with
        | Some (first :: _) => Some first
        | _ => None
        end in
      match isRequestPermitted (w_db w) keyName pubkey method primaryParam with
      | Some existingDecision => (Decided existingDecision, w)
      | None =>
          let '(wait, w') :=
            requestAuthorization configBaseUrl relayDecision newId now (Some keyName)
              pubkey id method primaryParam w in
          (Asked wait, w')
      end
  end.

(** The boolean the callback resolves with, once it does. *)
Definition callbackResult (outcome : CallbackOutcome) : option bool :=
  match outcome with
  | Decided allowed => Some allowed
  | Asked wait =>
      match wt_promise wait with
      | Pending => None
      | Resolved _ => Some true
      | Rejected _ => Some false
      end
  | Thrown => None
  end.

End AuthorizationCallback.

(* ------------------------------------------------------------------------- *)
(** ** Answers of an administrator on the relay path (daemon/admin/index.ts)

    The answer is JSON that the handler reads without checking its shape, so
    the functions it is passed to are taken on parsed values. *)

Definition indexKey (i : nat) : string := NilEmpty.string_of_uint (Nat.to_uint i).

Section PermissionResponse.
Context {R : JsRuntime}.

(** [v[i]]: the outer [None] is the [TypeError] of an access on [null], the
    inner one is [undefined]. *)
Definition getIndex (v : Js) (i : nat) : option (option Js) :=
  match v with
  | JNull => None
  | JArray items => Some (nth_error items i)
  | JObject fields => Some (assocLast (indexKey i) fields)
  | JString s =>
      Some (match String.get i s with
            | Some c => Some (JString (String c EmptyString))
            | None => None
            end)
  | _ => Some None
  end.

Definition joinComma (parts : list string) : string := String.concat "," parts.

(** [v.toString()] on a parsed value: [None] is a [TypeError], thrown for
    [null] and for an object whose own ["toString"] property hides the
    method.  Inside an array, [null] is rendered as the empty string. *)
Fixpoint jsToString (v : Js) : option string :=
  match v with
  | JNull => None
  | JBool true => Some "true"
  | JBool false => Some "false"
  | JNumber n => Some (number_toString n)
  | JString s => Some s
  | JArray items =>
      option_map joinComma
        ((fix elements (l : list Js) : option (list string) :=
            match l with
            | nil => Some nil
            | cons x rest =>
                match (match x with JNull => Some EmptyString | _ => jsToString x end),
                      elements rest with
                | Some s, Some ss => Some (s :: ss)
                | _, _ => None
                end
            end) items)
  | JObject fields =>
      if isSome (assocLast "toString" fields) then None else Some "[object Object]"
  end.

(** [scopeToCondition] on the value that [parsed[2]] holds, an [AllowScope]
    by an unchecked cast: [None] is the [TypeError] of [scope.kind.toString()]. *)
Definition scopeToConditionJs (method : string) (scope : option Js)
    : option (string * option string) :=
  match scope with
  | None => Some (method, None)
  | Some s =>
      if negb (truthy s) then Some (method, None)
      else
        match getProp s "kind" with
        | None => Some (method, None)
        | Some kind =>
            match jsToString kind with
            | Some k => Some (method, Some k)
            | None => None
            end
        end
  end.

(** The [description] argument as the store takes it: [undefined] and
    [null] leave the column empty, a string fills it, and any other value is
    refused by the store's validation of the arguments ([None]). *)
Definition descriptionArgument (description : option Js) : option (option string) :=
  match description with
  | None => Some None
  | Some JNull => Some None
  | Some (JString d) => Some (Some d)
  | Some _ => None
  end.

(** [permitAllRequests] on the arguments that [handlePermissionResponse]
    passes. *)
Definition permitAllRequestsJs (remotePubkey keyName method : string)
    (description scope : option Js) : Eff Db unit :=
  match descriptionArgument description with
  | None => throw "Invalid value provided for argument description"
  | Some d =>
      keyUser <- update (fun db => keyUser_upsert db keyName remotePubkey d) ;;
      match scopeToConditionJs method scope with
      | None => throw "TypeError"
      | Some (m, k) =>
          modify (fun db => signingCondition_create db (ku_id keyUser) m k (Some true))
      end
  end.

Definition isJsString (v : option Js) (s : string) : bool :=
  match v with
  | Some (JString x) => String.eqb x s
  | _ => false
  end.

Definition isJsBool (v : option Js) (b : bool) : bool :=
  match v with
  | Some (JBool x) => Bool.eqb x b
  | _ => false
  end.

(** [result] is [response.result].  Whatever is thrown inside the [try]
    block is logged and makes the answer [undefined]; what was written before
    stays. *)
Definition handlePermissionResponse (remotePubkey : string) (keyName : option string)
    (method result : string) (db : Db) : option bool * Db :=
  match keyName with
  | None => (None, db)
  | Some keyName =>
      if negb (strTruthy keyName) then (None, db)
      else
        match JSON_parse result with
        | None => (None, db)
        | Some parsed =>
            match getIndex parsed 0, getIndex parsed 1, getIndex parsed 2 with
            | Some decision, Some description, Some scope =>
                if isJsString decision "always" then
                  match permitAllRequestsJs remotePubkey keyName method description
                          scope db with
                  | (inr _, db') => (Some true, db')
                  | (inl _, db') => (None, db')
                  end
                else if isJsString decision "never" then
                  (Some false, blockAllRequests db remotePubkey keyName)
                else if isJsString decision "allow" || isJsBool decision true then
                  (Some true, db)
                else if isJsString decision "deny" || isJsBool decision false then
                  (Some false, db)
                else (None, db)
            | _, _, _ => (None, db)
            end
        end
  end.

End PermissionResponse.

(* ------------------------------------------------------------------------- *)
(** ** Web approval (daemon/web/authorize.ts)

    The handlers read and write, besides the tables of [Db], the User, Key
    and Log tables. *)

Record User : Type := {
  usr_username : string;
  usr_domain : string;
  usr_email : option string;
  (** the bcrypt hash *)
  usr_password : string;
  usr_pubkey : string
}.

Record KeyRow : Type := {
  key_keyName : string;
  key_pubkey : string
}.

Record LogEntry : Type := {
  lg_timestamp : Z;
  lg_type : string;
  lg_method : string;
  lg_params : option string;
  lg_keyUserId : nat
}.

Record WebStore : Type := {
  ws_db : Db;
  ws_users : list User;
  ws_keys : list KeyRow;
  ws_logs : list LogEntry
}.

Definition setWebDb (s : WebStore) (db : Db) : WebStore :=
  {| ws_db := db; ws_users := ws_users s; ws_keys := ws_keys s; ws_logs := ws_logs s |}.

(** [prisma.log.create] *)
Definition log_create (entry : LogEntry) (s : WebStore) : WebStore :=
  {| ws_db := ws_db s; ws_users := ws_users s; ws_keys := ws_keys s;
     ws_logs := ws_logs s ++ [entry] |}.

Definition liftWeb {A : Type} (m : Eff Db A) : Eff WebStore A :=
  fun s => let '(r, db') := m (ws_db s) in (r, setWebDb s db').

(** [bcrypt.compare(password, hash)] *)
Class Bcrypt : Type := {
  bcrypt_compare : string -> string -> bool
}.

(** [s.split(sep)] for a separator of one character. *)
Fixpoint splitOn (sep : ascii) (s : string) : list string :=
  match s with
  | EmptyString => [EmptyString]
  | String c rest =>
      if Ascii.eqb c sep then EmptyString :: splitOn sep rest
      else
        match splitOn sep rest with
        | first :: others => String c first :: others
        | [] => [String c EmptyString]
        end
  end.

(** What the handlers read of the HTTP request. *)
Record WebRequest : Type := {
  (** [request.params.id] *)
  wq_id : string;
  (** [request.cookies?.jwt] *)
  wq_jwt : option string;
  (** [request.body?.password] *)
  wq_password : option string
}.

(** The reply of [processRequestWebHandler]: 200 with [{ ok: true, pubkey }]
    or 401 with [{ ok: false, error }]. *)
Inductive WebReply : Type :=
| ReplyOk (pubkey : option string)
| ReplyUnauthorized (error : string).

(** [prisma.request.update({ where: { id }, data: { allowed: true,
    processedAt } })] *)
Definition request_approve (db : Db) (id : string) (now : Z) : Db :=
  withRequests db
    (map (fun r =>
            if String.eqb (rq_id r) id then
              {| rq_id := rq_id r; rq_keyName := rq_keyName r;
                 rq_requestId := rq_requestId r;
                 rq_remotePubkey := rq_remotePubkey r; rq_method := rq_method r;
                 rq_params := rq_params r; rq_allowed := Some true;
                 rq_createdAt := rq_createdAt r; rq_processedAt := Some now |}
            else r)
         (requests db)).

Section WebApproval.
Context {R : JsRuntime} {B : Bcrypt}.

(** Message of the error with which the store refuses a [null] key name. *)
Variable nullKeyNameMessage : string.

Definition user_findByPubkey (s : WebStore) (pubkey : string) : option User :=
  find (fun u => String.eqb (usr_pubkey u) pubkey) (ws_users s).

Definition user_findUnique (s : WebStore) (username domain : string) : option User :=
  find (fun u => String.eqb (usr_username u) username
                 && String.eqb (usr_domain u) domain) (ws_users s).

Definition validateAuthCookie (req : WebRequest) : Eff WebStore bool :=
  match wq_jwt req with
  | None => ret false
  | Some token =>
      if negb (strTruthy token) then ret false
      else
        user <- gets (fun s => user_findByPubkey s token) ;;
        ret (isSome user)
  end.

Definition loadPendingRequest (req : WebRequest) : Eff WebStore Request :=
  record <- gets (fun s => request_findUnique (ws_db s) (wq_id req)) ;;
  match record with
  | None => throw "Request not found or already processed"
  | Some record =>
      if isSome (rq_allowed record) then throw "Request not found or already processed"
      else ret record
  end.

Definition isPlainKey (storedKey : option StoredKey) : bool :=
  match storedKey with
  | Some k =>
      optStrTruthy (sk_key k) && negb (optStrTruthy (sk_iv k))
      && negb (optStrTruthy (sk_data k))
  | None => false
  end.

Definition authenticateUser (keyStore : option (list (string * StoredKey)))
    (record : Request) (req : WebRequest) : Eff WebStore (option User) :=
  cookie <- validateAuthCookie req ;;
  if cookie then gets (fun s => user_findByPubkey s (rq_remotePubkey record))
  else
    let keyName := rq_keyName record in
    let storedKey :=
      match keyName, keyStore with
      | Some k, Some store => if strTruthy k then assocLast k store else None
      | _, _ => None
      end in
    match keyName with
    | None =>
        if isPlainKey storedKey then ret None else throw "Request missing keyName"
    | Some k =>
        if negb (strTruthy k) then
          if isPlainKey storedKey then ret None else throw "Request missing keyName"
        else if isPlainKey storedKey then ret None
        else
          let parts := splitOn "@" k in
          match nth_error parts 0, nth_error parts 1 with
          | Some username, Some domain =>
              if negb (strTruthy username) || negb (strTruthy domain) then
                throw "Invalid key identifier"
              else
                match wq_password req with
                | None => throw "Password required"
                | Some password =>
                    if negb (strTruthy password) then throw "Password required"
                    else
                      userRecord <- gets (fun s => user_findUnique s username domain) ;;
                      match userRecord with
                      | None => throw "Account not found"
                      | Some userRecord =>
                          if bcrypt_compare password (usr_password userRecord) then
                            ret (Some userRecord)
                          else throw "Invalid password"
                      end
                end
          | _, _ => throw "Invalid key identifier"
          end
    end.

(** [permitAllRequests(record.remotePubkey, record.keyName, method,
    undefined, { kind: 'all' })] *)
Definition permitForRecord (record : Request) (method : string) : Eff WebStore unit :=
  match rq_keyName record with
  | None => throw nullKeyNameMessage
  | Some keyName =>
      liftWeb (modify (fun db =>
        permitAllRequests db (rq_remotePubkey record) keyName method None
          (Some {| scope_kind := Some KindAll |})))
  end.

Definition logApproval (record : Request) (logNow : Z) : Eff WebStore unit :=
  if optStrTruthy (rq_keyName record) && strTruthy (rq_remotePubkey record) then
    match rq_keyName record with
    | None => ret tt
    | Some keyName =>
        keyUser <- gets (fun s =>
            keyUser_findUnique (ws_db s) keyName (rq_remotePubkey record)) ;;
        match keyUser with
        | None => ret tt
        | Some keyUser =>
            modify (log_create
              {| lg_timestamp := logNow; lg_type := "approval";
                 lg_method := rq_method record; lg_params := rq_params record;
                 lg_keyUserId := ku_id keyUser |})
        end
    end
  else ret tt.

(** The body of the [try] block; [now] is the clock read for [processedAt],
    [logNow] the one for the log entry. *)
Definition approveRequest (keyStore : option (list (string * StoredKey)))
    (req : WebRequest) (now logNow : Z) : Eff WebStore (option User) :=
  record <- loadPendingRequest req ;;
  user <- authenticateUser keyStore record req ;;
  liftWeb (modify (fun db => request_approve db (rq_id record) now)) ;;;
  permitForRecord record (rq_method record) ;;;
  (if String.eqb (rq_method record) "connect" then permitForRecord record "sign_event"
   else ret tt) ;;;
  logApproval record logNow ;;;
  ret user.

Definition processRequestWebHandler (keyStore : option (list (string * StoredKey)))
    (req : WebRequest) (now logNow : Z) (s : WebStore) : WebReply * WebStore :=
  match approveRequest keyStore req now logNow s with
  | (inr user, s') => (ReplyOk (option_map usr_pubkey user), s')
  | (inl error, s') => (ReplyUnauthorized error, s')
  end.

End WebApproval.

(** *** Waiting for the key of a new account *)

Record KeyWaiter : Type := {
  kw_intervalActive : bool;
  kw_promise : PromiseState
}.

Definition waitForKeyCreation : KeyWaiter :=
  {| kw_intervalActive := true; kw_promise := Pending |}.

(** [prisma.key.findUnique({ where: { keyName } })] *)
Definition key_findUnique (keys : list KeyRow) (keyName : string) : option KeyRow :=
  find (fun k => String.eqb (key_keyName k) keyName) keys.

(** One run of the interval callback; [elapsed] is [Date.now() - start]. *)
Definition pollKey (keyName : string) (keys : list KeyRow) (elapsed : Z)
    (kw : KeyWaiter) : KeyWaiter :=
  if kw_intervalActive kw then
    let found :=
      match key_findUnique keys keyName with
      | Some record =>
          {| kw_intervalActive := false;
             kw_promise := settle (kw_promise kw) (Resolved (Some (key_pubkey record))) |}
      | None => kw
      end in
    if Z.ltb 60000 elapsed then
      {| kw_intervalActive := false;
         kw_promise := settle (kw_promise found)
                         (Rejected "Timed out waiting for key creation") |}
    else found
  else kw.

(** The runs of the callback, one after the other: [runs] gives, for each
    run, the Key table that its query finds and the [Date.now() - start] that
    it reads. *)
Fixpoint runKeyWait (keyName : string) (runs : list (list KeyRow * Z))
    (kw : KeyWaiter) : KeyWaiter :=
  match runs with
  | [] => kw
  | (keys, elapsed) :: rest => runKeyWait keyName rest (pollKey keyName keys elapsed kw)
  end.

(* ------------------------------------------------------------------------- *)
(** ** Unlocking a key (daemon/run.ts, commands/unlock_key.ts) *)




Section UnlockKey.
Context {R : JsRuntime} {C : NodeCrypto}.



End UnlockKey.

(* ------------------------------------------------------------------------- *)
(** ** Vocabulary of the properties of the web approval and the key wait *)

Section WebVocabulary.
Context {R : JsRuntime}.

(** The store after an approval of [record] that went through: the request
    is marked, the method is granted for every kind, [sign_event] as well
    when the request was a [connect]. *)
Definition approvedDb (db : Db) (record : Request) (keyName : string) (now : Z) : Db :=
  let granted :=
    permitAllRequests (request_approve db (rq_id record) now) (rq_remotePubkey record)
      keyName (rq_method record) None (Some {| scope_kind := Some KindAll |}) in
  if String.eqb (rq_method record) "connect" then
    permitAllRequests granted (rq_remotePubkey record) keyName "sign_event" None
      (Some {| scope_kind := Some KindAll |})
  else granted.

End WebVocabulary.

Definition alreadyProcessed : string := "Request not found or already processed".

(** The [jwt] cookie is the pubkey of a registered user. *)
Definition validCookie (s : WebStore) (req : WebRequest) : Prop :=
  exists token user,
    wq_jwt req = Some token /\ token <> EmptyString
    /\ user_findByPubkey s token = Some user.

Definition keyCreationTimeout : string := "Timed out waiting for key creation".

(** Runs of the callback that neither find the key nor read more than 60 s
    on the clock. *)
Definition stillWaiting (keyName : string) (runs : list (list KeyRow * Z)) : Prop :=
  Forall (fun run => key_findUnique (fst run) keyName = None /\ (snd run <= 60000)%Z)
    runs.

(** Requests, stores and key rings on which these properties are exercised. *)

(** A [bcrypt.compare] that accepts no password: the approvals evaluated
    below go through the plain-key path. *)
Module NoPasswords.

Definition bcrypt : Bcrypt := {| bcrypt_compare := fun _ _ => false |}.

End NoPasswords.

Definition pendingConnect : list (StoreOp (R := MiniJs.runtime)) :=
  [OpCreateRequest "req-1" 0%Z (Some "alice") "rpc-1" "client-pubkey" "connect" None].

Definition plainKeyStore : option (list (string * StoredKey)) :=
  Some [("alice", {| sk_iv := None; sk_data := None; sk_key := Some sampleNsec |})].

Definition approvalPost : WebRequest :=
  {| wq_id := "req-1"; wq_jwt := None; wq_password := None |}.

Definition webStoreOf (db : Db) : WebStore :=
  {| ws_db := db; ws_users := []; ws_keys := []; ws_logs := [] |}.

Definition approvedStore : WebStore :=
  snd (processRequestWebHandler (R := MiniJs.runtime) (B := NoPasswords.bcrypt)
         "Argument keyName must not be null" plainKeyStore approvalPost 5%Z 6%Z
         (webStoreOf (applyOps pendingConnect emptyDb))).

Definition aliceKeyRow : KeyRow := {| key_keyName := "alice"; key_pubkey := otherNpubHex |}.

(** A [nip19.npubEncode] that takes every pubkey. *)
Definition encodeAny (pubkey : string) : option string :=
  Some ("npub1" ++ pubkey)%string.

Definition answerOf (items : list (Js (R := MiniJs.runtime))) : string :=
  JSON_stringify (JsRuntime := MiniJs.runtime) (JArray items).



(* ------------------------------------------------------------------------- *)
(** * Properties *)

(** * Facts on lists and on the effect monad *)

Lemma find_app {A : Type} (f : A -> bool) (l1 l2 : list A) :
  find f (l1 ++ l2) =
  match find f l1 with
  | Some x => Some x
  | None => find f l2
  end.
Proof.
  induction l1 as [|a l1 IH]; simpl; [reflexivity|].
  destruct (f a); [reflexivity | exact IH].
Qed.

Lemma find_exists {A : Type} (f : A -> bool) (l : list A) (x : A) :
  In x l -> f x = true -> exists y, find f l = Some y.
Proof.
  intros Hin Hf. destruct (find f l) as [y|] eqn:E; [eauto|].
  rewrite (find_none f l E x Hin) in Hf. discriminate.
Qed.

Lemma find_first {A : Type} (f : A -> bool) (before after : list A) (c : A) :
  (forall x, In x before -> f x = false) -> f c = true ->
  find f (before ++ c :: after) = Some c.
Proof.
  intros Hb Hc. induction before as [|a before IH]; simpl.
  - rewrite Hc. reflexivity.
  - rewrite (Hb a (or_introl eq_refl)). apply IH. intros x Hx. apply Hb. right. exact Hx.
Qed.

Lemma find_map_stable {A : Type} (f : A -> bool) (g : A -> A) (l : list A) :
  (forall x, f (g x) = f x) ->
  find f (map g l) = option_map g (find f l).
Proof.
  intros Hg. induction l as [|a l IH]; simpl; [reflexivity|].
  rewrite Hg. destruct (f a); [reflexivity | exact IH].
Qed.

Lemma forEach_modify {S A : Type} (f : A -> S -> S) (xs : list A) (s : S) :
  forEach xs (fun x => modify (f x)) s = (inr tt, fold_left (fun st x => f x st) xs s).
Proof.
  revert s. induction xs as [|x xs IH]; intros s; simpl; [reflexivity|].
  unfold bind, modify at 1. simpl. apply IH.
Qed.

(** * Token redemption, step by step *)

Lemma keyUserIs_KeyUserOf (keyName clientPubkey : string) (u : KeyUser) :
  keyUserIs keyName clientPubkey u = true <-> KeyUserOf keyName clientPubkey u.
Proof.
  unfold keyUserIs, KeyUserOf. rewrite andb_true_iff, !String.eqb_eq. reflexivity.
Qed.


Lemma fetchValidToken_reads_only (token : string) (now : Z) (db : Db) :
  snd (fetchValidToken token now db) = db.
Proof.
  unfold fetchValidToken, bind, gets, throw, ret.
  destruct (token_findUnique db token) as [record|]; simpl; [|reflexivity].
  destruct (isSome (tok_redeemedAt record)); simpl; [reflexivity|].
  destruct (token_policy db record) as [policy|]; simpl; [|reflexivity].
  destruct (tok_expiresAt record) as [e|]; simpl; [|reflexivity].
  destruct (Z.ltb e now); reflexivity.
Qed.

Lemma applyToken_run (remotePubkey token : string) (now redeemedNow : Z) (db : Db) :
  applyToken remotePubkey token now redeemedNow db =
  match fst (fetchValidToken token now db) with
  | inl e => (inl e, db)
  | inr (record, policy) => (inr tt, redeemed db record policy remotePubkey redeemedNow)
  end.
Proof.
  unfold applyToken. unfold bind at 1.
  pose proof (fetchValidToken_reads_only token now db) as Hs.
  destruct (fetchValidToken token now db) as [[e|[record policy]] db0]; simpl in *; subst db0.
  - reflexivity.
  - unfold bind, update, modify. simpl.
    destruct (keyUser_upsert db (tok_keyName record) remotePubkey
                (Some (tok_clientName record))) as [keyUser db1] eqn:Eu.
    simpl.
    rewrite (forEach_modify
               (fun rule d => signingCondition_create d (ku_id keyUser)
                                (pr_method rule) (pr_kind rule) (Some true))).
    simpl. unfold redeemed. rewrite Eu. simpl. reflexivity.
Qed.

Lemma fold_ruleCondition (k : nat) (rules : list PolicyRule) (d : Db) :
  let d' := fold_left (ruleCondition k) rules d in
  signingConditions d' =
    signingConditions d ++ grantRows k (nextConditionId d) (map ruleEntry rules)
  /\ keyUsers d' = keyUsers d /\ tokens d' = tokens d
  /\ policies d' = policies d /\ requests d' = requests d
  /\ nextKeyUserId d' = nextKeyUserId d /\ nextTokenId d' = nextTokenId d.
Proof.
  revert d. induction rules as [|r rules IH]; intros d; simpl.
  - rewrite app_nil_r. repeat split.
  - destruct (IH (ruleCondition k d r)) as (Hc & Hu & Ht & Hp & Hr & Hn & Hm).
    simpl in *. rewrite Hc, Hu, Ht, Hp, Hr, Hn, Hm. simpl.
    rewrite <- app_assoc. simpl. repeat split.
Qed.

Lemma upsert_found (db : Db) (keyName userPubkey : string) (d : option string) :
  keyUser_findUnique (snd (keyUser_upsert db keyName userPubkey d)) keyName userPubkey
    = Some (fst (keyUser_upsert db keyName userPubkey d)).
Proof.
  unfold keyUser_upsert.
  destruct (keyUser_findUnique db keyName userPubkey) as [u|] eqn:E; simpl; [exact E|].
  unfold keyUser_findUnique in *. simpl. rewrite find_app, E. simpl.
  unfold keyUserIs. simpl. rewrite !String.eqb_refl. reflexivity.
Qed.

Lemma upsert_conditions (db : Db) (keyName userPubkey : string) (d : option string) :
  let db1 := snd (keyUser_upsert db keyName userPubkey d) in
  signingConditions db1 = signingConditions db
  /\ nextConditionId db1 = nextConditionId db
  /\ tokens db1 = tokens db /\ nextTokenId db1 = nextTokenId db
  /\ policies db1 = policies db /\ requests db1 = requests db.
Proof.
  unfold keyUser_upsert.
  destruct (keyUser_findUnique db keyName userPubkey); simpl; repeat split.
Qed.

Lemma token_update_found (db : Db) (token : string) (record : Token) (f : Token -> Token) :
  (forall t, tok_token (f t) = tok_token t) ->
  find (fun t => String.eqb (tok_token t) token) (tokens db) = Some record ->
  token_findUnique (token_update db (tok_id record) f) token = Some (f record).
Proof.
  intros Hf Hfind. unfold token_findUnique, token_update. simpl.
  rewrite find_map_stable.
  - rewrite Hfind. simpl. rewrite Nat.eqb_refl. reflexivity.
  - intros t. destruct (Nat.eqb (tok_id t) (tok_id record)); [rewrite Hf|]; reflexivity.
Qed.

(** [applyToken] on a store that refuses nothing: it runs, in order, the
    fetch of a valid token, the upsert of the KeyUser, the insertion of the
    [connect] row and of one row per policy rule, and the marking of the
    token ([redeemedAt], [keyUserId]).  It fails exactly when the token is
    not found, already redeemed, without policy, or expired, each time before
    its first write. *)
Lemma token_redemption_steps :
  forall (db : Db) (remotePubkey token : string) (now redeemedNow : Z),
    let outcome := fst (applyToken remotePubkey token now redeemedNow db) in
    let db' := snd (applyToken remotePubkey token now redeemedNow db) in
    match token_findUnique db token with
    | None => outcome = inl "Token not found" /\ db' = db
    | Some record =>
        match tok_redeemedAt record with
        | Some _ => outcome = inl "Token already redeemed" /\ db' = db
        | None =>
            match token_policy db record with
            | None => outcome = inl "Token policy missing" /\ db' = db
            | Some policy =>
                if tokenExpired record now then
                  outcome = inl "Token expired" /\ db' = db
                else
                  outcome = inr tt
                  /\ db' = redeemed db record policy remotePubkey redeemedNow
                  /\ exists keyUser,
                       keyUser_findUnique db' (tok_keyName record) remotePubkey
                         = Some keyUser
                       /\ signingConditions db' =
                            signingConditions db ++
                              grantRows (ku_id keyUser) (nextConditionId db)
                                (("connect", None) :: map ruleEntry (pol_rules policy))
                       /\ exists marked,
                            token_findUnique db' token = Some marked
                            /\ tok_redeemedAt marked = Some redeemedNow
                            /\ tok_keyUserId marked = Some (ku_id keyUser)
                            /\ tok_id marked = tok_id record
                            /\ tok_keyName marked = tok_keyName record
                            /\ tok_policyId marked = tok_policyId record
                            /\ tok_expiresAt marked = tok_expiresAt record
            end
        end
    end.
Proof.
  intros db remotePubkey token now redeemedNow. cbv zeta.
  rewrite applyToken_run.
  unfold fetchValidToken, bind, gets, throw, ret, tokenExpired.
  destruct (token_findUnique db token) as [record|] eqn:Ef; simpl; [|split; reflexivity].
  destruct (tok_redeemedAt record) as [r|]; simpl; [split; reflexivity|].
  destruct (token_policy db record) as [policy|]; simpl; [|split; reflexivity].
  assert (Hok : let db' := redeemed db record policy remotePubkey redeemedNow in
            exists keyUser,
              keyUser_findUnique db' (tok_keyName record) remotePubkey = Some keyUser
              /\ signingConditions db' =
                   signingConditions db ++
                     grantRows (ku_id keyUser) (nextConditionId db)
                       (("connect", None) :: map ruleEntry (pol_rules policy))
              /\ exists marked,
                   token_findUnique db' token = Some marked
                   /\ tok_redeemedAt marked = Some redeemedNow
                   /\ tok_keyUserId marked = Some (ku_id keyUser)
                   /\ tok_id marked = tok_id record
                   /\ tok_keyName marked = tok_keyName record
                   /\ tok_policyId marked = tok_policyId record
                   /\ tok_expiresAt marked = tok_expiresAt record).
  { cbv zeta. unfold redeemed.
    set (up := keyUser_upsert db (tok_keyName record) remotePubkey
                 (Some (tok_clientName record))).
    pose proof (upsert_found db (tok_keyName record) remotePubkey
                  (Some (tok_clientName record))) as Hfound.
    destruct (upsert_conditions db (tok_keyName record) remotePubkey
                (Some (tok_clientName record))) as (Hc & Hn & Ht & _).
    fold up in Hfound, Hc, Hn, Ht.
    set (db2 := signingCondition_create (snd up) (ku_id (fst up)) "connect" None (Some true)).
    destruct (fold_ruleCondition (ku_id (fst up)) (pol_rules policy) db2)
      as (Fc & Fu & Ft & _).
    exists (fst up). split; [|split].
    - unfold keyUser_findUnique, token_update. simpl. rewrite Fu. exact Hfound.
    - unfold token_update. simpl. rewrite Fc. unfold db2. simpl.
      rewrite Hc, Hn, <- app_assoc. reflexivity.
    - exists (setRedeemed redeemedNow (ku_id (fst up)) record).
      split; [|repeat split].
      apply token_update_found; [reflexivity|].
      rewrite Ft. unfold db2. simpl. rewrite Ht. exact Ef. }
  destruct (tok_expiresAt record) as [e|]; simpl.
  - destruct (Z.ltb e now); simpl; [split; reflexivity|].
    split; [reflexivity|]. split; [reflexivity|]. exact Hok.
  - split; [reflexivity|]. split; [reflexivity|]. exact Hok.
Qed.

(** ** The redemption when the store refuses a write *)


Lemma forEach_writing_through {A : Type} (f : A -> Db -> Db) (xs : list A) (db : Db) :
  forEach xs (fun x => writing (fun d => (tt, f x d))) {| rs_db := db; rs_script := [] |}
  = (inr tt, {| rs_db := fold_left (fun st x => f x st) xs db; rs_script := [] |}).
Proof.
  revert db. induction xs as [|x xs IH]; intros db; [reflexivity|].
  cbn [forEach]. unfold bind at 1, writing at 1. cbn [rs_script rs_db]. apply IH.
Qed.

(** With nothing refused, [applyTokenOn] is [applyToken]. *)
Lemma applyTokenOn_through (remotePubkey token : string) (now redeemedNow : Z) (db : Db) :
  applyTokenOn remotePubkey token now redeemedNow {| rs_db := db; rs_script := [] |}
  = (fst (applyToken remotePubkey token now redeemedNow db),
     {| rs_db := snd (applyToken remotePubkey token now redeemedNow db);
        rs_script := [] |}).
Proof.
  rewrite applyToken_run. unfold applyTokenOn. unfold bind at 1, reading at 1.
  cbn [rs_db rs_script].
  pose proof (fetchValidToken_reads_only token now db) as Hs.
  destruct (fetchValidToken token now db) as [[e|[record policy]] db0];
    cbn [fst snd] in *; subst db0; [reflexivity|].
  unfold bind at 1, writing at 1. cbn [rs_script rs_db]. unfold redeemed.
  destruct (keyUser_upsert db (tok_keyName record) remotePubkey
              (Some (tok_clientName record))) as [keyUser db1].
  cbn [fst snd].
  unfold bind at 1, writing at 1. cbn [rs_script rs_db].
  unfold bind at 1.
  rewrite (forEach_writing_through
             (fun rule d => signingCondition_create d (ku_id keyUser) (pr_method rule)
                              (pr_kind rule) (Some true))).
  unfold writing. cbn [rs_script rs_db]. reflexivity.
Qed.




(** C7: redeeming a token whose [redeemedAt] is set fails with "Token
    already redeemed" and leaves the whole store unchanged: no KeyUser is
    created or updated, no SigningCondition is inserted, the token row is
    untouched. *)
Theorem redeemed_token_cannot_be_redeemed_again :
  forall (db : Db) (remotePubkey token : string) (now redeemedNow : Z)
         (record : Token),
    token_findUnique db token = Some record ->
    tok_redeemedAt record <> None ->
    applyToken remotePubkey token now redeemedNow db
      = (inl "Token already redeemed", db).
Proof.
  intros db remotePubkey token now redeemedNow record Hfind Hred.
  rewrite applyToken_run.
  unfold fetchValidToken, bind, gets, throw. rewrite Hfind. simpl.
  destruct (tok_redeemedAt record); [reflexivity | contradiction].
Qed.

(** * The ACL evaluator *)

Section AclFacts.
Context {R : JsRuntime}.

Lemma isExplicitDeny_veto (k : nat) (c : SigningCondition) :
  isExplicitDeny k c = true <-> vetoRow k c.
Proof.
  unfold isExplicitDeny, vetoRow. split.
  - intros H. apply andb_true_iff in H as [H Ha]. apply andb_true_iff in H as [Hk Hm].
    apply Nat.eqb_eq in Hk. apply String.eqb_eq in Hm.
    destruct (sc_allowed c) as [[|]|]; try discriminate. auto.
  - intros (Hk & Hm & Ha). rewrite Hk, Hm, Ha, Nat.eqb_refl. reflexivity.
Qed.

Lemma Extends_refl (db : Db) : Extends db db.
Proof. split; [eauto | apply incl_refl]. Qed.

Lemma Extends_trans (a b c : Db) : Extends a b -> Extends b c -> Extends a c.
Proof.
  intros [Hu1 Hc1] [Hu2 Hc2]. split.
  - intros kn pk u Hf. destruct (Hu1 _ _ _ Hf) as (u' & Hf' & Hid).
    destruct (Hu2 _ _ _ Hf') as (u'' & Hf'' & Hid'). exists u''. split; [assumption|congruence].
  - eapply incl_tran; eassumption.
Qed.

Lemma Extends_same (db db' : Db) :
  keyUsers db' = keyUsers db -> signingConditions db' = signingConditions db ->
  Extends db db'.
Proof.
  intros Hu Hc. split.
  - intros kn pk u Hf. exists u. unfold keyUser_findUnique in *. rewrite Hu. auto.
  - rewrite Hc. apply incl_refl.
Qed.

Lemma Extends_upsert (db : Db) (keyName pubkey : string) (d : option string) :
  Extends db (snd (keyUser_upsert db keyName pubkey d)).
Proof.
  unfold keyUser_upsert.
  destruct (keyUser_findUnique db keyName pubkey) eqn:E; simpl; [apply Extends_refl|].
  split; simpl; [|apply incl_refl].
  intros kn pk u Hf. exists u. split; [|reflexivity].
  unfold keyUser_findUnique in *. simpl. rewrite find_app, Hf. reflexivity.
Qed.

Lemma Extends_create (db : Db) (k : nat) (m : string) (kind : option string)
    (a : option bool) :
  Extends db (signingCondition_create db k m kind a).
Proof.
  split; simpl; [eauto|]. apply incl_appl, incl_refl.
Qed.

Lemma Extends_update (db : Db) (id : nat) (f : KeyUser -> KeyUser) :
  (forall u, ku_id (f u) = ku_id u /\ ku_keyName (f u) = ku_keyName u
             /\ ku_userPubkey (f u) = ku_userPubkey u) ->
  Extends db (keyUser_update db id f).
Proof.
  intros Hf. split; simpl; [|apply incl_refl].
  intros kn pk u Hfind. unfold keyUser_findUnique in *. simpl.
  rewrite find_map_stable.
  - rewrite Hfind. simpl. eexists. split; [reflexivity|].
    destruct (Nat.eqb (ku_id u) id); [apply Hf | reflexivity].
  - intros x. destruct (Nat.eqb (ku_id x) id); [|reflexivity].
    unfold keyUserIs. destruct (Hf x) as (_ & Hk & Hp). rewrite Hk, Hp. reflexivity.
Qed.

Lemma Extends_fold_rules (k : nat) (rules : list PolicyRule) (d : Db) :
  Extends d (fold_left (ruleCondition k) rules d).
Proof.
  revert d. induction rules as [|r rules IH]; intros d; simpl; [apply Extends_refl|].
  eapply Extends_trans; [apply Extends_create | apply IH].
Qed.

Lemma Extends_applyOp (op : StoreOp) (db : Db) : Extends db (applyOp op db).
Proof.
  destruct op; simpl.
  - unfold permitAllRequests.
    pose proof (Extends_upsert db keyName remotePubkey description) as Hu.
    destruct (keyUser_upsert db keyName remotePubkey description) as [u db1].
    destruct (scopeToCondition method scope) as [m k]. simpl in Hu.
    eapply Extends_trans; [exact Hu | apply Extends_create].
  - unfold blockAllRequests.
    pose proof (Extends_upsert db keyName remotePubkey None) as Hu.
    destruct (keyUser_upsert db keyName remotePubkey None) as [u db1]. simpl in Hu.
    eapply Extends_trans; [exact Hu | apply Extends_create].
  - rewrite applyToken_run.
    destruct (fst (fetchValidToken token now db)) as [e|[record policy]]; simpl;
      [apply Extends_refl|].
    unfold redeemed.
    eapply Extends_trans; [apply Extends_upsert|].
    eapply Extends_trans; [apply Extends_create|].
    eapply Extends_trans; [apply Extends_fold_rules|].
    apply Extends_same; reflexivity.
  - apply Extends_update. intros u. repeat split.
  - apply Extends_update. intros u. repeat split.
  - apply Extends_same; reflexivity.
  - apply Extends_same; reflexivity.
  - apply Extends_same; reflexivity.
  - apply Extends_same; reflexivity.
  - apply Extends_same; reflexivity.
Qed.

Lemma Extends_applyOps (ops : list StoreOp) (db : Db) : Extends db (applyOps ops db).
Proof.
  revert db. induction ops as [|op ops IH]; intros db; simpl; [apply Extends_refl|].
  eapply Extends_trans; [apply Extends_applyOp | apply IH].
Qed.

Lemma veto_denies (db : Db) (keyName pubkey method : string) (payload : option Payload)
    (u : KeyUser) :
  keyUser_findUnique db keyName pubkey = Some u ->
  hasVeto db (ku_id u) ->
  isRequestPermitted db keyName pubkey method payload = Some false.
Proof.
  intros Hf (c & Hin & Hv). unfold isRequestPermitted. rewrite Hf.
  apply isExplicitDeny_veto in Hv.
  destruct (find_exists _ _ _ Hin Hv) as (y & Hy). rewrite Hy. reflexivity.
Qed.

Lemma blockAllRequests_vetoes (db : Db) (pubkey keyName : string) :
  exists u, keyUser_findUnique (blockAllRequests db pubkey keyName) keyName pubkey = Some u
            /\ hasVeto (blockAllRequests db pubkey keyName) (ku_id u).
Proof.
  unfold blockAllRequests.
  pose proof (upsert_found db keyName pubkey None) as Hf.
  destruct (keyUser_upsert db keyName pubkey None) as [u db1]. simpl in Hf.
  exists u. split; [exact Hf|].
  eexists. split; [simpl; apply in_or_app; right; left; reflexivity|].
  repeat split.
Qed.

(** C1: when the KeyUser [(keyName, clientPubkey)] exists and has a
    [method='*', allowed=false] row, [isRequestPermitted] denies every method
    with every payload, whatever other rows exist and whatever writes the
    daemon performs afterwards; in particular in every state reached after
    [blockAllRequests(clientPubkey, keyName)]. *)
Theorem veto_precedence :
  (forall (db : Db) (keyName clientPubkey : string) (keyUser : KeyUser),
      keyUser_findUnique db keyName clientPubkey = Some keyUser ->
      hasVeto db (ku_id keyUser) ->
      forall (ops : list StoreOp) (method : string) (payload : option Payload),
        isRequestPermitted (applyOps ops db) keyName clientPubkey method payload
          = Some false)
  /\ (forall (db : Db) (keyName clientPubkey : string) (ops : list StoreOp)
             (method : string) (payload : option Payload),
        isRequestPermitted
          (applyOps ops (blockAllRequests db clientPubkey keyName))
          keyName clientPubkey method payload = Some false).
Proof.
  assert (Hmain : forall db keyName clientPubkey keyUser,
             keyUser_findUnique db keyName clientPubkey = Some keyUser ->
             hasVeto db (ku_id keyUser) ->
             forall ops method payload,
               isRequestPermitted (applyOps ops db) keyName clientPubkey method payload
                 = Some false).
  { intros db keyName clientPubkey keyUser Hf (c & Hin & Hv) ops method payload.
    destruct (Extends_applyOps ops db) as [Hu Hc].
    destruct (Hu _ _ _ Hf) as (u' & Hf' & Hid).
    eapply veto_denies; [exact Hf'|].
    exists c. split; [apply Hc; exact Hin | rewrite Hid; exact Hv]. }
  split; [exact Hmain|].
  intros db keyName clientPubkey ops method payload.
  destruct (blockAllRequests_vetoes db clientPubkey keyName) as (u & Hf & Hv).
  exact (Hmain _ _ _ _ Hf Hv ops method payload).
Qed.

End AclFacts.

Section AclEvaluation.
Context {R : JsRuntime}.

Lemma strTruthy_nonempty (s : string) : strTruthy s = true <-> s <> EmptyString.
Proof.
  unfold strTruthy. destruct (String.eqb_spec s EmptyString); simpl; split; intros;
    congruence.
Qed.

Lemma extractKind_carries (payload : option Payload) (n : number) :
  extractKind payload = Some n <-> CarriesKind payload n.
Proof.
  split.
  - destruct payload as [[s|e]|]; simpl; [| |discriminate].
    + destruct (strTruthy s) eqn:Et; [|discriminate].
      destruct (JSON_parse s) as [v|] eqn:Ep; [|discriminate].
      destruct (getProp v "kind") as [[| | k | | |]|] eqn:Eg; try discriminate.
      intros H. injection H as ->.
      eapply CarriesKind_json; eauto. apply strTruthy_nonempty. exact Et.
    + destruct (ev_kind e) as [k|] eqn:Ek.
      * intros H. injection H as ->. apply CarriesKind_event. exact Ek.
      * destruct (ev_rawEvent e) as [raw|] eqn:Er; [|discriminate].
        intros H. eapply CarriesKind_raw; eauto.
  - intros H. destruct H as [s v n Hs Hp Hg | e n Hk | e raw n Hk Hr Hn]; simpl.
    + apply strTruthy_nonempty in Hs. rewrite Hs, Hp, Hg. reflexivity.
    + rewrite Hk. reflexivity.
    + rewrite Hk, Hr. exact Hn.
Qed.

Lemma conditionMatches_applicable (k : nat) (method : string)
    (payload : option Payload) (c : SigningCondition) :
  conditionMatches k (buildConditionQuery method payload) c = true
  <-> applicable k method payload c.
Proof.
  unfold conditionMatches, applicable, buildConditionQuery, inKindSet.
  destruct (String.eqb_spec method "sign_event") as [Hm|Hm]; simpl.
  - rewrite !andb_true_iff, Nat.eqb_eq, String.eqb_eq. split.
    + intros [[Hk Hme] Hkind]. repeat split; try assumption. intros _.
      destruct (sc_kind c) as [kd|]; [|discriminate]. exists kd. split; [reflexivity|].
      destruct (extractKind payload) as [n|] eqn:Ee; simpl in Hkind.
      * rewrite !orb_true_iff in Hkind. destruct Hkind as [H|[H|H]]; [| |discriminate].
        -- left. apply String.eqb_eq. exact H.
        -- right. exists n. split; [apply extractKind_carries; exact Ee|].
           apply String.eqb_eq. exact H.
      * rewrite orb_true_iff in Hkind. destruct Hkind as [H|H]; [|discriminate].
        left. apply String.eqb_eq. exact H.
    + intros (Hk & Hme & Hkind). repeat split; try assumption.
      destruct (Hkind Hm) as (kd & Hkd & Hcase). rewrite Hkd.
      destruct Hcase as [->|(n & Hc & ->)].
      * destruct (extractKind payload); reflexivity.
      * apply extractKind_carries in Hc. rewrite Hc. simpl.
        rewrite String.eqb_refl, !orb_true_r. reflexivity.
  - rewrite !andb_true_iff, Nat.eqb_eq, String.eqb_eq. split.
    + intros [[Hk Hme] _]. repeat split; try assumption. intros Hs. contradiction.
    + intros (Hk & Hme & _). repeat split; assumption.
Qed.

Lemma conditionMatches_not_applicable (k : nat) (method : string)
    (payload : option Payload) (c : SigningCondition) :
  ~ applicable k method payload c ->
  conditionMatches k (buildConditionQuery method payload) c = false.
Proof.
  intros H. destruct (conditionMatches k (buildConditionQuery method payload) c) eqn:E;
    [|reflexivity].
  apply conditionMatches_applicable in E. contradiction.
Qed.

Lemma no_veto_find (db : Db) (k : nat) :
  ~ hasVeto db k -> find (isExplicitDeny k) (signingConditions db) = None.
Proof.
  intros H. destruct (find (isExplicitDeny k) (signingConditions db)) as [c|] eqn:E;
    [|reflexivity].
  apply find_some in E as [Hin Hd]. exfalso. apply H. exists c. split; [exact Hin|].
  apply isExplicitDeny_veto. exact Hd.
Qed.

Lemma findUnique_absent (db : Db) (keyName clientPubkey : string) :
  (forall u, In u (keyUsers db) -> ~ KeyUserOf keyName clientPubkey u) ->
  keyUser_findUnique db keyName clientPubkey = None.
Proof.
  intros Hno. unfold keyUser_findUnique.
  destruct (find (keyUserIs keyName clientPubkey) (keyUsers db)) as [u|] eqn:E;
    [|reflexivity].
  apply find_some in E as [Hin Hu]. apply keyUserIs_KeyUserOf in Hu.
  destruct (Hno u Hin Hu).
Qed.

Lemma findUnique_the_row (db : Db) (keyName clientPubkey : string) (keyUser : KeyUser) :
  In keyUser (keyUsers db) -> KeyUserOf keyName clientPubkey keyUser ->
  (forall u, In u (keyUsers db) -> KeyUserOf keyName clientPubkey u -> u = keyUser) ->
  keyUser_findUnique db keyName clientPubkey = Some keyUser.
Proof.
  intros Hin Hk Huniq. unfold keyUser_findUnique.
  destruct (find (keyUserIs keyName clientPubkey) (keyUsers db)) as [u|] eqn:E.
  - apply find_some in E as [Hin' Hu]. apply keyUserIs_KeyUserOf in Hu.
    rewrite (Huniq u Hin' Hu). reflexivity.
  - apply keyUserIs_KeyUserOf in Hk. rewrite (find_none _ _ E keyUser Hin) in Hk.
    discriminate.
Qed.

(** C2: [isRequestPermitted] answers unknown when the KeyUser table holds no
    row under the key name and the client pubkey of the request.  When it
    holds one, [keyUser] (the table has no second row under the same pair),
    and no wildcard veto stands against it, the evaluator looks for the first
    SigningCondition of that KeyUser with the given method and, for
    [sign_event] only, a kind in the set made of ["all"] and of the kind that
    the primary parameter carries; it answers unknown when there is none,
    deny when the row found allows but the KeyUser is revoked, and the row's
    [allowed] value otherwise. *)
Theorem acl_evaluation :
  forall (db : Db) (keyName clientPubkey method : string)
         (paramPrimary : option Payload),
    let result := isRequestPermitted db keyName clientPubkey method paramPrimary in
    ((forall u, In u (keyUsers db) -> ~ KeyUserOf keyName clientPubkey u) ->
     result = None)
    /\ (forall keyUser,
          In keyUser (keyUsers db) -> KeyUserOf keyName clientPubkey keyUser ->
          (forall u, In u (keyUsers db) -> KeyUserOf keyName clientPubkey u ->
                     u = keyUser) ->
          ~ hasVeto db (ku_id keyUser) ->
          ((forall c, In c (signingConditions db) ->
                      ~ applicable (ku_id keyUser) method paramPrimary c) ->
           result = None)
          /\ (forall before matched after,
                signingConditions db = before ++ matched :: after ->
                (forall c, In c before ->
                           ~ applicable (ku_id keyUser) method paramPrimary c) ->
                applicable (ku_id keyUser) method paramPrimary matched ->
                (sc_allowed matched = Some true -> ku_revokedAt keyUser <> None ->
                 result = Some false)
                /\ (sc_allowed matched <> Some true \/ ku_revokedAt keyUser = None ->
                    result = sc_allowed matched))).
Proof.
  intros db keyName clientPubkey method paramPrimary result. subst result.
  unfold isRequestPermitted. split.
  - intros Hno. rewrite (findUnique_absent db keyName clientPubkey Hno). reflexivity.
  - intros keyUser Hin Hk Huniq Hnoveto.
    rewrite (findUnique_the_row db keyName clientPubkey keyUser Hin Hk Huniq).
    rewrite (no_veto_find db (ku_id keyUser) Hnoveto). split.
    + intros Hnone.
      destruct (find (conditionMatches (ku_id keyUser)
                        (buildConditionQuery method paramPrimary))
                     (signingConditions db)) as [c|] eqn:E; [|reflexivity].
      apply find_some in E as [Hin' Hm]. apply conditionMatches_applicable in Hm.
      exfalso. exact (Hnone c Hin' Hm).
    + intros before matched after Hsplit Hbefore Hmatched. rewrite Hsplit.
      rewrite find_first.
      * split.
        -- intros Ha Hr. rewrite Ha. destruct (ku_revokedAt keyUser); [reflexivity|contradiction].
        -- intros [Ha| ->].
           ++ destruct (sc_allowed matched) as [[|]|]; try reflexivity. contradiction.
           ++ destruct (sc_allowed matched) as [[|]|]; reflexivity.
      * intros x Hx. apply conditionMatches_not_applicable. apply Hbefore. exact Hx.
      * apply conditionMatches_applicable. exact Hmatched.
Qed.

End AclEvaluation.

Section AllowList.
Context {N : NostrTools}.

Lemma decodeNpubs_In (npubs : list string) (hex : string) :
  In hex (decodeNpubs npubs) <->
  exists entry, In entry npubs /\ nip19_decode entry = Some (DecodedNpub hex).
Proof.
  induction npubs as [|e rest IH]; simpl.
  - split; [contradiction | intros (x & [] & _)].
  - destruct (nip19_decode e) as [[h|k|h|t]|] eqn:Ed; simpl; rewrite ?IH.
    + split.
      * intros [<-|(x & Hin & Hd)]; [exists e; auto | exists x; auto].
      * intros (x & [<-|Hin] & Hd); [left; congruence | right; eauto].
    + split; [intros (x & Hin & Hd); eauto | intros (x & [<-|Hin] & Hd); [congruence | eauto]].
    + split; [intros (x & Hin & Hd); eauto | intros (x & [<-|Hin] & Hd); [congruence | eauto]].
    + split; [intros (x & Hin & Hd); eauto | intros (x & [<-|Hin] & Hd); [congruence | eauto]].
    + split; [intros (x & Hin & Hd); eauto | intros (x & [<-|Hin] & Hd); [congruence | eauto]].
Qed.

Lemma decodeNpubs_app (l1 l2 : list string) :
  decodeNpubs (l1 ++ l2) = decodeNpubs l1 ++ decodeNpubs l2.
Proof.
  induction l1 as [|e l1 IH]; simpl; [reflexivity|].
  destruct (nip19_decode e) as [[h|k|h|t]|]; simpl; rewrite IH; reflexivity.
Qed.

Lemma decodeNpubs_skips (l1 l2 : list string) (entry : string) :
  (forall hex, nip19_decode entry <> Some (DecodedNpub hex)) ->
  decodeNpubs (l1 ++ entry :: l2) = decodeNpubs (l1 ++ l2).
Proof.
  intros Hno. rewrite !decodeNpubs_app. simpl.
  destruct (nip19_decode entry) as [[h|k|h|t]|]; try reflexivity.
  exfalso. exact (Hno h eq_refl).
Qed.

(** C10: [validateAdminRequest] holds exactly when the request has a
    non-empty pubkey that is the hex decoding of some allow-list entry
    decoding as an npub; an entry that does not decode, or decodes to another
    type, is passed over without an error and changes neither the decoded
    list nor the verdict for any requester. *)
Theorem admin_allow_list_membership :
  forall (req : RpcRequest) (allowedNpubs : list string),
    (validateAdminRequest req allowedNpubs = true <->
     exists pubkey,
       rpc_pubkey req = Some pubkey /\ pubkey <> EmptyString
       /\ exists entry, In entry allowedNpubs
                        /\ nip19_decode entry = Some (DecodedNpub pubkey))
    /\ (forall before entry after,
          allowedNpubs = before ++ entry :: after ->
          (forall hex, nip19_decode entry <> Some (DecodedNpub hex)) ->
          decodeNpubs allowedNpubs = decodeNpubs (before ++ after)
          /\ validateAdminRequest req allowedNpubs
               = validateAdminRequest req (before ++ after)).
Proof.
  intros req allowedNpubs. split.
  - unfold validateAdminRequest. destruct (rpc_pubkey req) as [pubkey|].
    + destruct (strTruthy pubkey) eqn:Et.
      * rewrite existsb_exists. split.
        -- intros (hex & Hin & He). apply String.eqb_eq in He. subst hex.
           exists pubkey. split; [reflexivity|]. split; [apply strTruthy_nonempty; exact Et|].
           apply decodeNpubs_In. exact Hin.
        -- intros (pk & Hpk & _ & Hentry). injection Hpk as <-.
           exists pubkey. split; [apply decodeNpubs_In; exact Hentry | apply String.eqb_refl].
      * split; [discriminate|].
        intros (pk & Hpk & Hne & _). injection Hpk as <-.
        apply strTruthy_nonempty in Hne. congruence.
    + split; [discriminate | intros (pk & Hpk & _); discriminate].
  - intros before entry after -> Hno.
    pose proof (decodeNpubs_skips before after entry Hno) as Hs. split; [exact Hs|].
    unfold validateAdminRequest. rewrite Hs. reflexivity.
Qed.

End AllowList.

Section Gate.
Context {R : JsRuntime} {N : NostrTools}.
Variable collaborator : string -> RpcRequest -> Eff World unit.

Lemma handleRpcRequest_unauthorised (adminNpubs : list string) (now : Z)
    (req : RpcRequest) (w : World) :
  rpc_method req <> "create_account" ->
  validateAdminRequest req adminNpubs = false ->
  handleRpcRequest collaborator adminNpubs now req w = (inl unauthorised, w).
Proof.
  intros Hm Hv. unfold handleRpcRequest, bind.
  apply String.eqb_neq in Hm. rewrite Hm, Hv. reflexivity.
Qed.

(** C5, as the code behaves: for a request other than [create_account] from
    a pubkey that is absent or not in the allow-list, the handler writes
    nothing to the store; the authorisation error is thrown and reaches the
    debug log only, so that no response at all is sent to the requester. *)
Theorem unauthorised_admin_request_is_dropped :
  forall (adminNpubs : list string) (now : Z) (req : RpcRequest) (w : World),
    rpc_method req <> "create_account" ->
    validateAdminRequest req adminNpubs = false ->
    let w' := onRequest collaborator adminNpubs now req w in
    w_db w' = w_db w
    /\ w_sent w' = w_sent w
    /\ w_debug w' = w_debug w ++
         [("Error processing admin request " ++ rpc_method req ++ ": "
            ++ unauthorised)%string].
Proof.
  intros adminNpubs now req w Hm Hv. cbv zeta. unfold onRequest.
  rewrite (handleRpcRequest_unauthorised adminNpubs now req w Hm Hv).
  repeat split.
Qed.

End Gate.

Section Broker.
Context {R : JsRuntime}.

Lemma pollOnce_cleared (db : Db) (wt : Waiter) :
  wt_intervalActive wt = false -> pollOnce db wt = wt.
Proof. intros H. unfold pollOnce. rewrite H. reflexivity. Qed.

Lemma runWebWait_cleared (acts : list AdminAction) (now : Z) (w : World) (wt : Waiter) :
  wt_intervalActive wt = false -> fst (runWebWait acts now w wt) = wt.
Proof.
  revert now w. induction acts as [|a acts IH]; intros now w H; simpl; [reflexivity|].
  rewrite (pollOnce_cleared _ wt H). apply IH. exact H.
Qed.

Lemma runWebWait_app (a b : list AdminAction) (now : Z) (w : World) (wt : Waiter) :
  runWebWait (a ++ b) now w wt =
  runWebWait b (now + 100 * Z.of_nat (length a))
    (snd (runWebWait a now w wt)) (fst (runWebWait a now w wt)).
Proof.
  revert now w wt. induction a as [|x a IH]; intros now w wt.
  - simpl. rewrite Z.add_0_r. reflexivity.
  - cbn [app runWebWait length]. rewrite IH. f_equal. lia.
Qed.

(** The poll that finds the record approved resolves with the stored
    [params]. *)
Lemma pollOnce_approved (db : Db) (id : string) (record : Request) :
  request_findUnique db id = Some record -> rq_allowed record = Some true ->
  wt_promise (pollOnce db (awaitWebDecision id)) = Resolved (rq_params record).
Proof. intros Hf Ha. unfold pollOnce. simpl. rewrite Hf, Ha. reflexivity. Qed.

Lemma pollOnce_denied (db : Db) (id : string) (record : Request) :
  request_findUnique db id = Some record -> rq_allowed record = Some false ->
  wt_promise (pollOnce db (awaitWebDecision id)) = Rejected "Request denied".
Proof. intros Hf Ha. unfold pollOnce. simpl. rewrite Hf, Ha. reflexivity. Qed.

Lemma pollOnce_undecided (db : Db) (id : string) (record : Request) :
  request_findUnique db id = Some record -> rq_allowed record = None ->
  pollOnce db (awaitWebDecision id) = awaitWebDecision id.
Proof. intros Hf Ha. unfold pollOnce. simpl. rewrite Hf, Ha. reflexivity. Qed.

(** The poll that finds the record gone clears the interval and leaves the
    promise as it is; no later poll runs. *)
Lemma pollOnce_reaped (db : Db) (wt : Waiter) :
  request_findUnique db (wt_requestId wt) = None ->
  wt_promise (pollOnce db wt) = wt_promise wt
  /\ wt_intervalActive (pollOnce db wt) = false.
Proof.
  intros Hf. unfold pollOnce. destruct (wt_intervalActive wt) eqn:Ea.
  - rewrite Hf. split; reflexivity.
  - split; [reflexivity | exact Ea].
Qed.

Lemma reaped_wait_stays_pending (db : Db) (wt : Waiter) (acts : list AdminAction)
    (now : Z) (w : World) :
  wt_promise wt = Pending ->
  request_findUnique db (wt_requestId wt) = None ->
  wt_promise (fst (runWebWait acts now w (pollOnce db wt))) = Pending.
Proof.
  intros Hp Hf. destruct (pollOnce_reaped db wt Hf) as [Hpr Hin].
  rewrite (runWebWait_cleared acts now w _ Hin). rewrite Hpr. exact Hp.
Qed.

(** On the web path the [auth_url] response, carrying the request URL, is
    sent before the wait starts, and the wait starts pending. *)
Lemma requestAuthorization_web_path (configBaseUrl : option string)
    (relayDecision : option bool) (newId : string) (now : Z)
    (keyName : option string) (remotePubkey requestId method : string)
    (payload : option Payload) (w : World) (baseUrl : string) :
  fst (resolveBaseUrl configBaseUrl w) = Some baseUrl ->
  baseUrl <> EmptyString ->
  let result :=
    requestAuthorization configBaseUrl relayDecision newId now keyName remotePubkey
      requestId method payload w in
  fst result = awaitWebDecision newId
  /\ w_sent (snd result) =
       w_sent w ++
         [{| rs_id := requestId; rs_remotePubkey := Some remotePubkey;
             rs_result := "auth_url"; rs_kind := None;
             rs_error := Some (buildRequestUrl baseUrl newId) |}]
  /\ request_findUnique (w_db (snd result)) newId <> None.
Proof.
  intros Hbase Hne. cbv zeta. unfold requestAuthorization, persistRequest.
  cbn [request_create fst snd].
  unfold resolveBaseUrl in *. cbn [setReapers setDb w_cachedBaseUrl].
  assert (Ht : optStrTruthy (Some baseUrl) = true).
  { unfold optStrTruthy, strTruthy. destruct (String.eqb_spec baseUrl EmptyString);
      [contradiction | reflexivity]. }
  assert (Hfound : forall rs r, String.eqb (rq_id r) newId = true ->
            find (fun x => String.eqb (rq_id x) newId) (rs ++ [r]) <> None).
  { intros rs r Hr. induction rs as [|x rs IH]; simpl.
    - rewrite Hr. discriminate.
    - destruct (String.eqb (rq_id x) newId); [discriminate | exact IH]. }
  destruct (w_cachedBaseUrl w) as [cached|]; cbn [fst snd] in *; subst;
    rewrite Ht; cbn [fst snd rq_id sendResponse w_sent w_db setCachedBaseUrl
                     setReapers setDb];
    (split; [reflexivity|]; split; [reflexivity|]);
    unfold request_findUnique; cbn [requests withRequests];
    apply Hfound; apply String.eqb_refl.
Qed.

End Broker.

Section BrokerOnMiniJs.
#[local] Existing Instance MiniJs.runtime.

(** C4, as the code behaves on the web path: the [auth_url] response with
    the request URL is sent first and the returned promise is pending on a
    100 ms poll; the 60 s reaper removes the undecided record at the 600th
    poll, that poll clears the interval without settling the promise, and
    whatever happens later the promise stays pending. *)
Theorem web_wait_never_settles_after_reap :
  forall (later : list AdminAction),
    let start :=
      requestAuthorization (Some "https://bunker.example.com/") None "req-1" 0%Z
        (Some "alice") "client-pubkey" "rpc-7" "sign_event"
        (Some (PString sampleEventJson)) (initialWorld emptyDb) in
    let final := runWebWait (repeat NoAction 600 ++ later) 0%Z (snd start) (fst start) in
    w_sent (snd start) =
      [{| rs_id := "rpc-7"; rs_remotePubkey := Some "client-pubkey";
          rs_result := "auth_url"; rs_kind := None;
          rs_error := Some "https://bunker.example.com/requests/req-1" |}]
    /\ fst start = awaitWebDecision "req-1"
    /\ request_findUnique
         (w_db (snd (runWebWait (repeat NoAction 599) 0%Z (snd start) (fst start))))
         "req-1" <> None
    /\ request_findUnique
         (w_db (snd (runWebWait (repeat NoAction 600) 0%Z (snd start) (fst start))))
         "req-1" = None
    /\ wt_intervalActive (fst final) = false
    /\ wt_promise (fst final) = Pending.
Proof.
  intros later start final.
  assert (H600 : fst (runWebWait (repeat NoAction 600) 0%Z (snd start) (fst start))
                 = {| wt_requestId := "req-1"; wt_intervalActive := false;
                      wt_promise := Pending |}) by (vm_compute; reflexivity).
  split; [vm_compute; reflexivity|].
  split; [vm_compute; reflexivity|].
  split; [vm_compute; discriminate|].
  split; [vm_compute; reflexivity|].
  subst final. rewrite runWebWait_app, H600.
  rewrite runWebWait_cleared by reflexivity. split; reflexivity.
Qed.

End BrokerOnMiniJs.

Lemma In_firstn {A : Type} (n : nat) (l : list A) (x : A) :
  In x (firstn n l) -> In x l.
Proof.
  intros H. rewrite <- (firstn_skipn n l). apply in_or_app. left. exact H.
Qed.

Lemma In_skipn {A : Type} (n : nat) (l : list A) (x : A) :
  In x (skipn n l) -> In x l.
Proof.
  intros H. rewrite <- (firstn_skipn n l). apply in_or_app. right. exact H.
Qed.

Section Listing.
Context {R : JsRuntime}.

Lemma getRequests_rows (allKeys : list (string * StoredKey)) (db : Db)
    (q : RequestsQuery) (now nowMillis : Z) (row : RequestView) :
  In row (getRequests allKeys db q now nowMillis) ->
  exists record, In record (requests db) /\ row = requestView allKeys nowMillis record.
Proof.
  unfold getRequests, request_findMany. intros H.
  apply in_map_iff in H as (record & <- & Hin). exists record. split; [|reflexivity].
  apply In_firstn, In_skipn in Hin.
  assert (Hsorted : forall rs x, In x (orderByCreatedAtDesc rs) -> In x rs).
  { clear. induction rs as [|r rs IH]; simpl; [auto|]. intros x Hx.
    assert (Hins : forall l, In x (insertByCreatedAtDesc r l) -> x = r \/ In x l).
    { clear. induction l as [|y l IHl]; simpl.
      - intros [<-|[]]. left. reflexivity.
      - destruct (Z.ltb (rq_createdAt y) (rq_createdAt r)); simpl.
        + intros [<-|[<-|H]]; auto.
        + intros [<-|H]; auto. destruct (IHl H); auto. }
    destruct (Hins _ Hx) as [->|H]; auto. }
  apply Hsorted in Hin. apply filter_In in Hin. tauto.
Qed.

(** The time to live of a row: 60 s minus its age, rounded to the nearest
    second, and never negative. *)
Lemma ttlSeconds_rounded (allKeys : list (string * StoredKey)) (nowMillis : Z)
    (record : Request) :
  let age := (nowMillis - rq_createdAt record)%Z in
  v_ttlSeconds (requestView allKeys nowMillis record)
    = Z.max 0 (roundMillisToSeconds (60000 - age)).
Proof.
  cbv zeta. unfold requestView. cbn [v_ttlSeconds].
  f_equal. f_equal. lia.
Qed.

Lemma ttlSeconds_whole_seconds (allKeys : list (string * StoredKey))
    (record : Request) (ageSeconds : Z) :
  v_ttlSeconds (requestView allKeys (rq_createdAt record + 1000 * ageSeconds) record)
    = Z.max 0 (60 - ageSeconds).
Proof.
  unfold requestView. cbn [v_ttlSeconds]. unfold roundMillisToSeconds. f_equal.
  replace (rq_createdAt record + 60000 - (rq_createdAt record + 1000 * ageSeconds) + 500)%Z
    with (500 + (60 - ageSeconds) * 1000)%Z by lia.
  rewrite Z.div_add by lia. reflexivity.
Qed.

(** A stored parameter that parses as a JSON object, which is what
    [persistRequest] stores for [sign_event], gives no preview: the handler
    looks for an array. *)
Lemma buildEventPreview_object (record : Request) (text : string)
    (fields : list (string * Js)) :
  rq_params record = Some text ->
  JSON_parse text = Some (JObject fields) ->
  buildEventPreview record = None.
Proof.
  intros Hp Hj. unfold buildEventPreview. rewrite Hp.
  destruct (String.eqb (rq_method record) "sign_event" && optStrTruthy (Some text));
    [|reflexivity].
  rewrite Hj. reflexivity.
Qed.

(** A stored parameter that does not parse gives no preview, and no error. *)
Lemma buildEventPreview_parse_failure (record : Request) (text : string) :
  rq_params record = Some text ->
  JSON_parse text = None ->
  buildEventPreview record = None.
Proof.
  intros Hp Hj. unfold buildEventPreview. rewrite Hp.
  destruct (String.eqb (rq_method record) "sign_event" && optStrTruthy (Some text));
    [|reflexivity].
  rewrite Hj. reflexivity.
Qed.

(** The row that [persistRequest] stores for a string payload carries the
    payload itself. *)
Lemma persistRequest_stores_payload (newId : string) (now : Z)
    (keyName : option string) (requestId remotePubkey method text : string)
    (w : World) :
  text <> EmptyString ->
  rq_params (fst (persistRequest newId now keyName requestId remotePubkey method
                    (Some (PString text)) w)) = Some text
  /\ rq_method (fst (persistRequest newId now keyName requestId remotePubkey method
                       (Some (PString text)) w)) = method.
Proof.
  intros Hne. unfold persistRequest, serialiseParam, strTruthy. simpl.
  destruct (String.eqb_spec text EmptyString); [contradiction|]. simpl. split; reflexivity.
Qed.

End Listing.

Section ListingOnMiniJs.
#[local] Existing Instance MiniJs.runtime.

(** C8, as the code behaves: for the [sign_event] request that
    [persistRequest] stores (its [params] are the event, and parse as a JSON
    object with kind, content and tags), GET /requests returns the row with
    [ttlSeconds] 55 at an age of 5 s and with a null [eventPreview]. *)
Theorem get_requests_sign_event_row_has_no_preview :
  let stored :=
    persistRequest "req-1" 1000%Z (Some "alice") "rpc-7" "client-pubkey" "sign_event"
      (Some (PString sampleEventJson)) (initialWorld emptyDb) in
  let rows :=
    getRequests [("alice", {| sk_iv := None; sk_data := None; sk_key := Some "nsec1" |})]
      (w_db (snd stored))
      {| qr_limit := None; qr_offset := None; qr_status := None |}
      6000%Z 6000%Z in
  JSON_parse sampleEventJson
    = Some (JObject [("kind", JNumber 1%Z); ("content", JString "hi");
                     ("tags", JArray [])])
  /\ rows =
       [{| v_id := "req-1"; v_keyName := Some "alice"; v_method := "sign_event";
           v_remotePubkey := "client-pubkey"; v_params := Some sampleEventJson;
           v_eventPreview := None;
           v_createdAt := 1000%Z; v_expiresAt := 61000%Z; v_ttlSeconds := 55%Z;
           v_requiresPassword := false; v_processedAt := None |}].
Proof. cbv zeta. split; reflexivity. Qed.

End ListingOnMiniJs.

(** * Heartbeat *)

Section HeartbeatFacts.
Local Open Scope Z_scope.





















End HeartbeatFacts.

(** * Vault *)

Lemma xorAscii_involutive (a b : ascii) : xorAscii (xorAscii a b) b = a.
Proof.
  destruct a as [a0 a1 a2 a3 a4 a5 a6 a7], b as [b0 b1 b2 b3 b4 b5 b6 b7]. simpl.
  rewrite !xorb_assoc, !xorb_nilpotent, !xorb_false_r. reflexivity.
Qed.

Lemma xorBytes_length (a b : bytes) : length (xorBytes a b) = Nat.min (length a) (length b).
Proof.
  revert b. induction a as [|x a IH]; intros [|y b]; simpl; auto.
Qed.

Lemma xorBytes_involutive (a b : bytes) :
  length a <= length b -> xorBytes (xorBytes a b) b = a.
Proof.
  revert b. induction a as [|x a IH]; intros [|y b] H; simpl in *; try reflexivity; try lia.
  rewrite xorAscii_involutive, IH by lia. reflexivity.
Qed.

Lemma hex_byte_roundtrip (b : ascii) (rest : list ascii) :
  hexDecodeList (hexChar (nat_of_ascii b / 16) :: hexChar (nat_of_ascii b mod 16) :: rest)
    = b :: hexDecodeList rest.
Proof.
  destruct b as [[|] [|] [|] [|] [|] [|] [|] [|]]; reflexivity.
Qed.

Lemma hexDecodeList_encode (bs : bytes) : hexDecodeList (hexEncodeList bs) = bs.
Proof.
  induction bs as [|b bs IH]; [reflexivity|].
  cbn [hexEncodeList]. rewrite hex_byte_roundtrip, IH. reflexivity.
Qed.

Lemma hexDecode_encode (bs : bytes) : hexDecode (hexEncode bs) = bs.
Proof.
  unfold hexDecode, hexEncode. rewrite list_ascii_of_string_of_list_ascii.
  apply hexDecodeList_encode.
Qed.

Lemma pad_amount (len : nat) : 1 <= 16 - len mod 16 <= 16.
Proof. pose proof (Nat.mod_upper_bound len 16). lia. Qed.

Lemma pkcs7Pad_length (m : bytes) :
  length (pkcs7Pad m) = 16 * (length m / 16 + 1).
Proof.
  unfold pkcs7Pad. rewrite length_app, repeat_length.
  pose proof (Nat.div_mod_eq (length m) 16).
  pose proof (Nat.mod_upper_bound (length m) 16). lia.
Qed.

Lemma pkcs7Unpad_pad (m : bytes) : pkcs7Unpad (pkcs7Pad m) = Some m.
Proof.
  unfold pkcs7Pad. set (n := 16 - length m mod 16).
  assert (Hn : 1 <= n <= 16) by apply pad_amount.
  set (c := ascii_of_nat n).
  assert (Hc : nat_of_ascii c = n) by (apply nat_ascii_embedding; lia).
  assert (Hlast : last (m ++ repeat c n) zero = c).
  { destruct n as [|k]; [lia|].
    replace (repeat c (S k)) with (repeat c k ++ [c]) by (symmetry; apply repeat_cons).
    rewrite app_assoc. apply last_last. }
  unfold pkcs7Unpad.
  destruct (m ++ repeat c n) as [|x l] eqn:E.
  { apply (f_equal (@length ascii)) in E. rewrite length_app, repeat_length in E.
    simpl in E. lia. }
  cbv zeta. rewrite Hlast, Hc. rewrite <- E.
  rewrite length_app, repeat_length.
  replace (length m + n - n) with (length m) by lia.
  rewrite skipn_app, skipn_all, Nat.sub_diag. simpl skipn.
  rewrite firstn_app, firstn_all, Nat.sub_diag. simpl firstn. rewrite app_nil_r.
  assert (Hall : forall (a : ascii) k, forallb (Ascii.eqb a) (repeat a k) = true).
  { clear. intros a k. induction k as [|k IH]; simpl; [reflexivity|].
    rewrite Ascii.eqb_refl. exact IH. }
  simpl app. rewrite Hall.
  destruct Hn as [H1 H16].
  apply Nat.leb_le in H1, H16. rewrite H1, H16.
  assert (Hle : (n <=? length m + n)%nat = true) by (apply Nat.leb_le; lia).
  rewrite Hle. reflexivity.
Qed.

Lemma iv_check (iv : bytes) :
  length iv = 16 -> negb (length iv =? IV_LENGTH)%nat = false.
Proof. intros ->. reflexivity. Qed.

Lemma length_check (ct : bytes) (n : nat) :
  length ct = 16 * n -> 0 < n ->
  ((length ct =? 0) || negb (length ct mod 16 =? 0))%nat = false.
Proof.
  intros -> Hn. apply orb_false_iff. split.
  - apply Nat.eqb_neq. lia.
  - apply negb_false_iff, Nat.eqb_eq. rewrite Nat.mul_comm. apply Nat.Div0.mod_mul.
Qed.

(** ** The ['utf8'] encoding *)


Section Utf8Facts.
Local Open Scope N_scope.










(** A lone surrogate is encoded as U+FFFD. *)
Example lone_surrogate_is_replaced :
  utf8Encode [55296] = map ascii_of_N [239; 191; 189]
  /\ utf8DecodeStrict (utf8Encode [55296]) = Some [65533].
Proof. split; reflexivity. Qed.

End Utf8Facts.

Section VaultFacts.
Context {C : NodeCrypto}.
Hypothesis laws : BlockCipherLaws C.

Lemma cbcEncrypt_length (n : nat) :
  forall (fuel : nat) (key prev m : bytes),
    length m = 16 * n -> n <= fuel -> length prev = 16 ->
    length (cbcEncrypt fuel key prev m) = 16 * n.
Proof.
  induction n as [|n IH]; intros fuel key prev m Hm Hf Hp.
  - destruct m; [|simpl in Hm; lia]. destruct fuel; reflexivity.
  - destruct fuel as [|fuel]; [lia|].
    destruct m as [|x m'] eqn:Em; [simpl in Hm; lia|]. rewrite <- Em in *.
    cbn [cbcEncrypt]. rewrite Em at 1. rewrite length_app.
    assert (Hblock : length (xorBytes (firstn 16 m) prev) = 16).
    { rewrite xorBytes_length, length_firstn. lia. }
    rewrite (aes_encrypt_length laws key _ Hblock).
    rewrite IH; [lia| |lia|].
    + rewrite length_skipn. lia.
    + apply (aes_encrypt_length laws). exact Hblock.
Qed.

Lemma cbc_roundtrip (n : nat) :
  forall (fuelE fuelD : nat) (key prev m : bytes),
    length m = 16 * n -> n <= fuelE -> n <= fuelD -> length prev = 16 ->
    cbcDecrypt fuelD key prev (cbcEncrypt fuelE key prev m) = m.
Proof.
  induction n as [|n IH]; intros fuelE fuelD key prev m Hm HfE HfD Hp.
  - destruct m; [|simpl in Hm; lia]. destruct fuelE, fuelD; reflexivity.
  - destruct fuelE as [|fuelE]; [lia|]. destruct fuelD as [|fuelD]; [lia|].
    destruct m as [|x m'] eqn:Em; [simpl in Hm; lia|]. rewrite <- Em in *.
    cbn [cbcEncrypt]. rewrite Em at 1.
    set (block := xorBytes (firstn 16 m) prev).
    assert (Hblock : length block = 16).
    { unfold block. rewrite xorBytes_length, length_firstn. lia. }
    set (c := aesEncryptBlock key block).
    assert (Hc : length c = 16) by (apply (aes_encrypt_length laws); exact Hblock).
    set (rest := cbcEncrypt fuelE key c (skipn 16 m)).
    cbn [cbcDecrypt].
    destruct (c ++ rest) as [|y l] eqn:Ec.
    { apply (f_equal (@length ascii)) in Ec. rewrite length_app in Ec. simpl in Ec. lia. }
    rewrite <- Ec.
    rewrite firstn_app, Hc, Nat.sub_diag, firstn_all2 by lia. simpl firstn.
    rewrite app_nil_r.
    rewrite skipn_app, Hc, Nat.sub_diag, skipn_all2 by lia. simpl skipn. simpl app.
    unfold c at 1. rewrite (aes_decrypt_encrypt laws key block Hblock).
    unfold block. rewrite xorBytes_involutive by (rewrite length_firstn; lia).
    unfold rest. rewrite IH; [apply firstn_skipn| | lia | lia | exact Hc].
    rewrite length_skipn. lia.
Qed.

Lemma aes256cbc_roundtrip (key iv plaintext : bytes) :
  length iv = 16 ->
  aes256cbcDecrypt key iv (aes256cbcEncrypt key iv plaintext) = inr plaintext.
Proof.
  intros Hiv. unfold aes256cbcDecrypt, aes256cbcEncrypt.
  set (padded := pkcs7Pad plaintext).
  set (n := length plaintext / 16 + 1).
  assert (Hp : length padded = 16 * n) by apply pkcs7Pad_length.
  assert (Hct : length (cbcEncrypt (length padded) key iv padded) = 16 * n).
  { apply cbcEncrypt_length; [exact Hp | lia | exact Hiv]. }
  rewrite (iv_check iv Hiv), (length_check _ n Hct) by (unfold n; lia).
  rewrite (cbc_roundtrip n); [|exact Hp|lia|lia|exact Hiv].
  unfold padded. rewrite pkcs7Unpad_pad. reflexivity.
Qed.


(** Decryption depends on the passphrase through the derived key only. *)
Lemma decryptSecret_by_key (secret passphrase other : JsString) (salt iv : bytes) :
  length salt = 16 -> length iv = 16 ->
  deriveKey other salt = deriveKey passphrase salt ->
  decryptSecret (encryptSecret secret passphrase salt iv) other
  = inr (utf8Decode (utf8Encode secret)).
Proof.
  intros Hs Hiv Hkey. unfold decryptSecret, encryptSecret. cbn [enc_iv enc_data].
  rewrite !hexDecode_encode.
  rewrite firstn_app, Hs, Nat.sub_diag, firstn_all2 by lia. simpl firstn.
  rewrite app_nil_r.
  rewrite skipn_app, Hs, Nat.sub_diag, skipn_all2 by lia. simpl skipn. simpl app.
  rewrite Hkey, aes256cbc_roundtrip by exact Hiv. reflexivity.
Qed.


End VaultFacts.

Section KeyDerivation.
Context {C : NodeCrypto}.

Lemma list_ascii_of_string_app (a b : string) :
  list_ascii_of_string (a ++ b) = list_ascii_of_string a ++ list_ascii_of_string b.
Proof. induction a as [|c a IH]; simpl; [reflexivity|]. rewrite IH. reflexivity. Qed.

Lemma list_ascii_of_string_length (s : string) :
  length (list_ascii_of_string s) = String.length s.
Proof. induction s as [|c s IH]; simpl; [reflexivity|]. rewrite IH. reflexivity. Qed.




End KeyDerivation.

Lemma xorCipher_laws : BlockCipherLaws XorCipher.crypto.
Proof.
  assert (Hk : forall key, length (XorCipher.blockKey key) = 16).
  { intros key. unfold XorCipher.blockKey. rewrite length_firstn, length_app, repeat_length. lia. }
  split; intros key block Hb; simpl; unfold XorCipher.encryptBlock.
  - apply xorBytes_involutive. rewrite Hk. lia.
  - rewrite xorBytes_length, Hk. lia.
Qed.




(** Nor does the round trip hold for every plaintext: a lone surrogate
    comes back as U+FFFD, whatever the passphrase, the hash and the block
    cipher are. *)
Example vault_lone_surrogate_is_replaced :
  forall (C : NodeCrypto),
    BlockCipherLaws C ->
    forall (passphrase : JsString) (salt iv : bytes),
      length salt = 16 -> length iv = 16 ->
      decryptSecret (encryptSecret [55296%N] passphrase salt iv) passphrase
      = inr [65533%N].
Proof.
  intros C laws passphrase salt iv Hs Hiv.
  rewrite (decryptSecret_by_key laws) by (assumption || reflexivity).
  reflexivity.
Qed.

(* ------------------------------------------------------------------------- *)
(** * The properties on concrete stores *)

Section OnConcreteInputs.
#[local] Existing Instance MiniJs.runtime.
#[local] Existing Instance Nip19.tools.

Lemma veto_precedence_witness :
  keyUser_findUnique vetoedStore "alice" "client-pubkey" = Some aliceClient
  /\ hasVeto vetoedStore (ku_id aliceClient)
  /\ isRequestPermitted
       (applyOps
          [OpPermitAllRequests "client-pubkey" "alice" "get_public_key" None None;
           OpRenameKeyUser 1 "phone"]
          vetoedStore)
       "alice" "client-pubkey" "get_public_key" None = Some false.
Proof.
  assert (Hv : hasVeto vetoedStore (ku_id aliceClient)).
  { eexists. split; [left; reflexivity | repeat split]. }
  split; [reflexivity|]. split; [exact Hv|].
  exact (proj1 veto_precedence vetoedStore "alice" "client-pubkey" aliceClient
           eq_refl Hv _ "get_public_key" None).
Defined.

(** Two clients of the same key: the client with the [kind=1] grant is
    answered from its own row, which comes after the other client's
    [kind=all] row in the table. *)
Lemma acl_evaluation_witness :
  In aliceClient (keyUsers twoClientStore)
  /\ KeyUserOf "alice" "client-pubkey" aliceClient
  /\ ~ hasVeto twoClientStore (ku_id aliceClient)
  /\ ~ applicable (ku_id aliceClient) "sign_event" (Some (PString sampleEventJson))
        otherAllRow
  /\ applicable (ku_id aliceClient) "sign_event" (Some (PString sampleEventJson))
       kindOneRow
  /\ isRequestPermitted twoClientStore "alice" "client-pubkey" "sign_event"
       (Some (PString sampleEventJson)) = Some true.
Proof.
  assert (Hin : In aliceClient (keyUsers twoClientStore)) by (right; left; reflexivity).
  assert (Hk : KeyUserOf "alice" "client-pubkey" aliceClient) by (split; reflexivity).
  assert (Huniq : forall u, In u (keyUsers twoClientStore) ->
                            KeyUserOf "alice" "client-pubkey" u -> u = aliceClient).
  { intros u [<-|[<-|[]]] [_ Hp]; [discriminate Hp | reflexivity]. }
  assert (Hnv : ~ hasVeto twoClientStore (ku_id aliceClient)).
  { intros (c & [<-|[<-|[]]] & _ & Hm & _); discriminate. }
  assert (Hother : ~ applicable (ku_id aliceClient) "sign_event"
                     (Some (PString sampleEventJson)) otherAllRow).
  { intros [Hid _]. discriminate Hid. }
  assert (Happ : applicable (ku_id aliceClient) "sign_event"
                   (Some (PString sampleEventJson)) kindOneRow).
  { split; [reflexivity|]. split; [reflexivity|]. intros _.
    exists "1". split; [reflexivity|]. right. exists 1%Z. split; [|reflexivity].
    apply CarriesKind_json
      with (v := JObject [("kind", JNumber 1%Z); ("content", JString "hi");
                          ("tags", JArray [])]);
      [discriminate | reflexivity | reflexivity]. }
  split; [exact Hin|]. split; [exact Hk|]. split; [exact Hnv|].
  split; [exact Hother|]. split; [exact Happ|].
  refine (proj2 (proj2 (proj2 (acl_evaluation twoClientStore "alice" "client-pubkey"
                                 "sign_event" (Some (PString sampleEventJson)))
                          aliceClient Hin Hk Huniq Hnv)
                   [otherAllRow] kindOneRow [] eq_refl _ Happ)
            (or_intror eq_refl)).
  intros c [<-|[]]. exact Hother.
Defined.

(** The evaluator on a store with one [sign_event kind=1] grant: another
    kind, another method and another client are unknown; kind 1 is allowed
    until the KeyUser is revoked; a later [kind=all] grant covers kind 7. *)
Example acl_on_kind_one_store :
  isRequestPermitted kindOneStore "alice" "client-pubkey" "sign_event"
    (Some (PString (eventOfKind "1"))) = Some true
  /\ isRequestPermitted kindOneStore "alice" "client-pubkey" "sign_event"
       (Some (PString (eventOfKind "7"))) = None
  /\ isRequestPermitted kindOneStore "alice" "client-pubkey" "sign_event"
       (Some (PString "not json")) = None
  /\ isRequestPermitted kindOneStore "alice" "client-pubkey" "get_public_key" None
       = None
  /\ isRequestPermitted kindOneStore "alice" "stranger" "sign_event"
       (Some (PString (eventOfKind "1"))) = None
  /\ isRequestPermitted (applyOps [OpRevokeKeyUser 1 99%Z] kindOneStore)
       "alice" "client-pubkey" "sign_event" (Some (PString (eventOfKind "1")))
       = Some false
  /\ isRequestPermitted
       (permitAllRequests kindOneStore "client-pubkey" "alice" "sign_event" None
          (Some {| scope_kind := Some KindAll |}))
       "alice" "client-pubkey" "sign_event" (Some (PString (eventOfKind "7")))
       = Some true.
Proof. repeat split. Qed.

(** The third end-to-end scenario: the first redemption succeeds and leaves
    the [connect] and [sign_event kind=1] rows. *)
Example first_redemption :
  fst (applyToken "client-pubkey" "token-1" 10%Z 11%Z redeemableStore) = inr tt
  /\ signingConditions redeemedStore =
       [{| sc_id := 1; sc_keyUserId := 1; sc_method := "connect"; sc_kind := None;
           sc_allowed := Some true |};
        {| sc_id := 2; sc_keyUserId := 1; sc_method := "sign_event";
           sc_kind := Some "1"; sc_allowed := Some true |}]
  /\ isRequestPermitted redeemedStore "alice" "client-pubkey" "sign_event"
       (Some (PString sampleEventJson)) = Some true.
Proof. repeat split. Qed.

Lemma redeemed_token_cannot_be_redeemed_again_witness :
  applyToken "other-client" "token-1" 20%Z 21%Z redeemedStore
    = (inl "Token already redeemed", redeemedStore).
Proof.
  eapply redeemed_token_cannot_be_redeemed_again; [reflexivity | discriminate].
Defined.


Lemma unauthorised_admin_request_is_dropped_witness :
  rpc_method strangerRevoke <> "create_account"
  /\ validateAdminRequest strangerRevoke [sampleNpub] = false
  /\ w_sent (onRequest noCollaborator [sampleNpub] 50%Z strangerRevoke
               (initialWorld redeemedStore)) = [].
Proof.
  assert (Hm : rpc_method strangerRevoke <> "create_account") by discriminate.
  assert (Hv : validateAdminRequest strangerRevoke [sampleNpub] = false)
    by (vm_compute; reflexivity).
  split; [exact Hm|]. split; [exact Hv|].
  exact (proj1 (proj2 (unauthorised_admin_request_is_dropped noCollaborator
                         [sampleNpub] 50%Z strangerRevoke
                         (initialWorld redeemedStore) Hm Hv))).
Defined.

(** The same call from the listed admin revokes the KeyUser and is answered. *)
Example authorised_revoke :
  let w := onRequest noCollaborator [sampleNpub] 50%Z adminRevoke
             (initialWorld redeemedStore) in
  map ku_revokedAt (keyUsers (w_db w)) = [Some 50%Z]
  /\ map rs_result (w_sent w) = [MiniJs.stringify (JArray [JString "ok"])].
Proof. vm_compute. split; reflexivity. Qed.

(** Entries of the allow-list that are not npubs are passed over. *)
Example allow_list_skips_hex_and_nsec :
  decodeNpubs [sampleNpubHex; sampleNsec; "npub1invalid"; sampleNpub] = [sampleNpubHex]
  /\ validateAdminRequest adminRevoke [sampleNpubHex; sampleNsec] = false
  /\ validateAdminRequest adminRevoke [sampleNsec; sampleNpub] = true.
Proof. vm_compute. repeat split. Qed.

(** A heartbeat left without any delivery publishes at 20 s and 40 s and
    exits with status 1 at 50 s. *)
Example heartbeat_silent_run :
  let h := runHeartbeat (repeat [] (Z.to_nat 50000)) (startHeartbeat (Some "admin") 0%Z) in
  hb_exit h = Some 1%Z /\ hb_now h = 50000%Z
  /\ map fst (hb_published h) = [20000%Z; 40000%Z]
  /\ hb_exit (runHeartbeat (repeat [] (Z.to_nat 49999))
                (startHeartbeat (Some "admin") 0%Z)) = None.
Proof. vm_compute. repeat split. Qed.


End OnConcreteInputs.

(* ------------------------------------------------------------------------- *)
(** * The store under the daemon's writes *)

Lemma NoDup_snoc {A : Type} (l : list A) (x : A) :
  NoDup l -> ~ In x l -> NoDup (l ++ [x]).
Proof.
  intros Hl Hx. induction Hl as [|a l Ha Hl IH]; simpl.
  - constructor; [intros []|constructor].
  - constructor.
    + intros Hin. apply in_app_or in Hin as [Hin|[<-|[]]]; [contradiction|].
      apply Hx. left. reflexivity.
    + apply IH. intros Hin. apply Hx. right. exact Hin.
Qed.

Lemma findUnique_none_pair (db : Db) (keyName pubkey : string) :
  keyUser_findUnique db keyName pubkey = None ->
  ~ In (keyName, pubkey) (map (fun u => (ku_keyName u, ku_userPubkey u)) (keyUsers db)).
Proof.
  unfold keyUser_findUnique. intros Hnone Hin.
  apply in_map_iff in Hin as (u & Hpair & Hu). injection Hpair as Hk Hp.
  pose proof (find_none _ _ Hnone u Hu) as Hf.
  unfold keyUserIs in Hf. rewrite Hk, Hp, !String.eqb_refl in Hf. discriminate.
Qed.

Lemma integrity_same_tables (db db' : Db) :
  keyUsers db' = keyUsers db -> signingConditions db' = signingConditions db ->
  nextKeyUserId db' = nextKeyUserId db -> nextConditionId db' = nextConditionId db ->
  StoreIntegrity db -> StoreIntegrity db'.
Proof.
  intros Hu Hc Hn Hm [H1 H2 H3 H4 H5 H6 H7].
  constructor; rewrite ?Hu, ?Hc, ?Hn, ?Hm; assumption.
Qed.

Lemma integrity_upsert (db : Db) (keyName pubkey : string) (d : option string) :
  StoreIntegrity db ->
  StoreIntegrity (snd (keyUser_upsert db keyName pubkey d))
  /\ In (fst (keyUser_upsert db keyName pubkey d))
        (keyUsers (snd (keyUser_upsert db keyName pubkey d))).
Proof.
  intros Hi. unfold keyUser_upsert.
  destruct (keyUser_findUnique db keyName pubkey) as [u|] eqn:E; cbn [fst snd].
  - split; [exact Hi|]. unfold keyUser_findUnique in E. apply find_some in E. tauto.
  - destruct Hi as [H1 H2 H3 H4 H5 H6 H7]. split.
    + constructor; cbn [keyUsers signingConditions nextKeyUserId nextConditionId
                         withKeyUsers]; try assumption.
      * intros u Hu. apply in_app_or in Hu as [Hu|[<-|[]]].
        -- specialize (H1 u Hu). lia.
        -- cbn [ku_id]. lia.
      * rewrite map_app. cbn [map ku_id]. apply NoDup_snoc; [exact H2|].
        intros Hin. apply in_map_iff in Hin as (u & Hid & Hu).
        specialize (H1 u Hu). lia.
      * rewrite map_app. cbn [map ku_keyName ku_userPubkey]. apply NoDup_snoc; [exact H3|].
        apply findUnique_none_pair. exact E.
      * intros c Hc. destruct (H6 c Hc) as (u & Hu & Hid). exists u.
        split; [apply in_or_app; left; exact Hu | exact Hid].
    + cbn [keyUsers withKeyUsers]. apply in_or_app. right. left. reflexivity.
Qed.

Lemma integrity_create (db : Db) (k : nat) (m : string) (kind : option string)
    (a : option bool) :
  StoreIntegrity db ->
  (exists u, In u (keyUsers db) /\ ku_id u = k) ->
  a = Some true \/ (m = "*" /\ a = Some false) ->
  StoreIntegrity (signingCondition_create db k m kind a).
Proof.
  intros [H1 H2 H3 H4 H5 H6 H7] Hk Ha.
  constructor; cbn [keyUsers signingConditions nextKeyUserId nextConditionId
                    signingCondition_create withConditions]; try assumption.
  - intros c Hc. apply in_app_or in Hc as [Hc|[<-|[]]].
    + specialize (H4 c Hc). lia.
    + cbn [sc_id]. lia.
  - rewrite map_app. cbn [map sc_id]. apply NoDup_snoc; [exact H5|].
    intros Hin. apply in_map_iff in Hin as (c & Hid & Hc). specialize (H4 c Hc). lia.
  - intros c Hc. apply in_app_or in Hc as [Hc|[<-|[]]]; [apply H6; exact Hc|].
    cbn [sc_keyUserId]. exact Hk.
  - intros c Hc. apply in_app_or in Hc as [Hc|[<-|[]]]; [apply H7; exact Hc|].
    cbn [sc_allowed sc_method]. exact Ha.
Qed.

Lemma integrity_update (db : Db) (id : nat) (f : KeyUser -> KeyUser) :
  (forall u, ku_id (f u) = ku_id u /\ ku_keyName (f u) = ku_keyName u
             /\ ku_userPubkey (f u) = ku_userPubkey u) ->
  StoreIntegrity db -> StoreIntegrity (keyUser_update db id f).
Proof.
  intros Hf [H1 H2 H3 H4 H5 H6 H7].
  set (g := fun u => if Nat.eqb (ku_id u) id then f u else u).
  assert (Hg : forall u, ku_id (g u) = ku_id u /\ ku_keyName (g u) = ku_keyName u
                         /\ ku_userPubkey (g u) = ku_userPubkey u).
  { intros u. unfold g. destruct (Nat.eqb (ku_id u) id); [apply Hf | auto]. }
  constructor; cbn [keyUsers signingConditions nextKeyUserId nextConditionId
                    keyUser_update withKeyUsers]; fold g; try assumption.
  - intros u Hu. apply in_map_iff in Hu as (v & <- & Hv).
    destruct (Hg v) as (-> & _). apply H1. exact Hv.
  - rewrite map_map. erewrite map_ext; [exact H2|]. intros u. apply Hg.
  - rewrite map_map. erewrite map_ext; [exact H3|]. intros u. cbv beta.
    destruct (Hg u) as (_ & -> & ->). reflexivity.
  - intros c Hc. destruct (H6 c Hc) as (u & Hu & Hid). exists (g u).
    split; [apply in_map; exact Hu|]. destruct (Hg u) as (-> & _). exact Hid.
Qed.

Lemma integrity_fold_rules (k : nat) (rules : list PolicyRule) (d : Db) :
  StoreIntegrity d -> (exists u, In u (keyUsers d) /\ ku_id u = k) ->
  StoreIntegrity (fold_left (ruleCondition k) rules d).
Proof.
  revert d. induction rules as [|r rules IH]; intros d Hi Hk; simpl; [exact Hi|].
  apply IH.
  - unfold ruleCondition. apply integrity_create; auto.
  - exact Hk.
Qed.

Section IntegrityFacts.
Context {R : JsRuntime}.

Lemma integrity_permitAllRequests (db : Db) (pubkey keyName method : string)
    (d : option string) (scope : option AllowScope) :
  StoreIntegrity db -> StoreIntegrity (permitAllRequests db pubkey keyName method d scope).
Proof.
  intros Hi. unfold permitAllRequests.
  destruct (integrity_upsert db keyName pubkey d Hi) as [Hi1 Hin].
  destruct (keyUser_upsert db keyName pubkey d) as [u db1]. cbn [fst snd] in *.
  destruct (scopeToCondition method scope) as [m k].
  apply integrity_create; eauto.
Qed.

Lemma integrity_blockAllRequests (db : Db) (pubkey keyName : string) :
  StoreIntegrity db -> StoreIntegrity (blockAllRequests db pubkey keyName).
Proof.
  intros Hi. unfold blockAllRequests.
  destruct (integrity_upsert db keyName pubkey None Hi) as [Hi1 Hin].
  destruct (keyUser_upsert db keyName pubkey None) as [u db1]. cbn [fst snd] in *.
  apply integrity_create; eauto.
Qed.

Lemma integrity_redeemed (db : Db) (record : Token) (policy : Policy)
    (pubkey : string) (now : Z) :
  StoreIntegrity db -> StoreIntegrity (redeemed db record policy pubkey now).
Proof.
  intros Hi. unfold redeemed.
  destruct (integrity_upsert db (tok_keyName record) pubkey
              (Some (tok_clientName record)) Hi) as [Hi1 Hin].
  set (up := keyUser_upsert db (tok_keyName record) pubkey (Some (tok_clientName record))) in *.
  match goal with
  | |- StoreIntegrity (token_update ?d _ _) =>
      apply (integrity_same_tables d); [reflexivity..|]
  end.
  apply integrity_fold_rules.
  - apply integrity_create; eauto.
  - exists (fst up). split; [exact Hin | reflexivity].
Qed.

Lemma integrity_applyOp (op : StoreOp) (db : Db) :
  StoreIntegrity db -> StoreIntegrity (applyOp op db).
Proof.
  intros Hi. destruct op; cbn [applyOp].
  - apply integrity_permitAllRequests. exact Hi.
  - apply integrity_blockAllRequests. exact Hi.
  - rewrite applyToken_run.
    destruct (fst (fetchValidToken token now db)) as [e|[record policy]]; cbn [snd];
      [exact Hi | apply integrity_redeemed; exact Hi].
  - apply integrity_update; [intros u; repeat split | exact Hi].
  - apply integrity_update; [intros u; repeat split | exact Hi].
  - apply (integrity_same_tables db); [reflexivity..|exact Hi].
  - apply (integrity_same_tables db); [reflexivity..|exact Hi].
  - apply (integrity_same_tables db); [reflexivity..|exact Hi].
  - apply (integrity_same_tables db); [reflexivity..|exact Hi].
  - apply (integrity_same_tables db); [reflexivity..|exact Hi].
Qed.

Lemma integrity_applyOps (ops : list StoreOp) (db : Db) :
  StoreIntegrity db -> StoreIntegrity (applyOps ops db).
Proof.
  revert db. induction ops as [|op ops IH]; intros db Hi; simpl; [exact Hi|].
  apply IH. apply integrity_applyOp. exact Hi.
Qed.

End IntegrityFacts.

Lemma integrity_emptyDb : StoreIntegrity emptyDb.
Proof.
  constructor; simpl; try (intros ? []); constructor.
Qed.

Section DecisionFacts.
Context {R : JsRuntime}.

Lemma find_matching_granted (db : Db) (u : KeyUser) (q : ConditionQuery)
    (c : SigningCondition) :
  StoreIntegrity db -> ~ hasVeto db (ku_id u) ->
  find (conditionMatches (ku_id u) q) (signingConditions db) = Some c ->
  sc_allowed c = Some true.
Proof.
  intros Hi Hnv Hf. apply find_some in Hf as [Hin Hm].
  destruct (si_grant_or_veto db Hi c Hin) as [Ha|[Hs Ha]]; [exact Ha|].
  exfalso. apply Hnv. exists c. split; [exact Hin|].
  unfold conditionMatches in Hm. apply andb_true_iff in Hm as [Hm _].
  apply andb_true_iff in Hm as [Hk _]. apply Nat.eqb_eq in Hk.
  repeat split; assumption.
Qed.

(** On a store that satisfies [StoreIntegrity] the decision does not depend
    on the order of the rows. *)
Lemma decision_by_cases (db : Db) (keyName pubkey method : string)
    (payload : option Payload) (u : KeyUser) :
  StoreIntegrity db ->
  keyUser_findUnique db keyName pubkey = Some u ->
  let result := isRequestPermitted db keyName pubkey method payload in
  (hasVeto db (ku_id u) -> result = Some false)
  /\ (~ hasVeto db (ku_id u) ->
      (exists c, In c (signingConditions db) /\ applicable (ku_id u) method payload c) ->
      result = match ku_revokedAt u with Some _ => Some false | None => Some true end)
  /\ (~ hasVeto db (ku_id u) ->
      (forall c, In c (signingConditions db) -> ~ applicable (ku_id u) method payload c) ->
      result = None).
Proof.
  intros Hi Hf result. subst result. split; [|split].
  - intros Hv. eapply veto_denies; eassumption.
  - intros Hnv (c & Hin & Hap). unfold isRequestPermitted. rewrite Hf.
    rewrite (no_veto_find db (ku_id u) Hnv).
    apply conditionMatches_applicable in Hap.
    destruct (find_exists _ _ _ Hin Hap) as (c' & Hc'). rewrite Hc'.
    rewrite (find_matching_granted db u _ c' Hi Hnv Hc').
    destruct (ku_revokedAt u); reflexivity.
  - intros Hnv Hnone. unfold isRequestPermitted. rewrite Hf.
    rewrite (no_veto_find db (ku_id u) Hnv).
    destruct (find _ (signingConditions db)) as [c|] eqn:E; [|reflexivity].
    apply find_some in E as [Hin Hm]. apply conditionMatches_applicable in Hm.
    exfalso. exact (Hnone c Hin Hm).
Qed.

Lemma granted_when_applicable (db : Db) (keyName pubkey method : string)
    (payload : option Payload) (u : KeyUser) (c : SigningCondition) :
  StoreIntegrity db ->
  keyUser_findUnique db keyName pubkey = Some u ->
  ku_revokedAt u = None -> ~ hasVeto db (ku_id u) ->
  In c (signingConditions db) -> applicable (ku_id u) method payload c ->
  isRequestPermitted db keyName pubkey method payload = Some true.
Proof.
  intros Hi Hf Hr Hnv Hin Hap.
  destruct (decision_by_cases db keyName pubkey method payload u Hi Hf) as (_ & H & _).
  rewrite H; [rewrite Hr; reflexivity | exact Hnv | eauto].
Qed.

Lemma revoked_never_permitted (db : Db) (keyName pubkey method : string)
    (payload : option Payload) (u : KeyUser) :
  keyUser_findUnique db keyName pubkey = Some u -> ku_revokedAt u <> None ->
  isRequestPermitted db keyName pubkey method payload <> Some true.
Proof.
  intros Hf Hr. unfold isRequestPermitted. rewrite Hf.
  destruct (find (isExplicitDeny (ku_id u)) (signingConditions db)); [discriminate|].
  destruct (find _ (signingConditions db)) as [c|]; [|discriminate].
  destruct (sc_allowed c) as [[|]|]; destruct (ku_revokedAt u); try discriminate.
  contradiction.
Qed.

(** *** Revocation survives every write *)

Lemma StaysRevoked_refl (db : Db) : StaysRevoked db db.
Proof. intros kn pk u Hf Hr. eauto. Qed.

Lemma StaysRevoked_trans (a b c : Db) :
  StaysRevoked a b -> StaysRevoked b c -> StaysRevoked a c.
Proof.
  intros H1 H2 kn pk u Hf Hr. destruct (H1 _ _ _ Hf Hr) as (u' & Hf' & Hr').
  exact (H2 _ _ _ Hf' Hr').
Qed.

Lemma StaysRevoked_same (db db' : Db) :
  keyUsers db' = keyUsers db -> StaysRevoked db db'.
Proof.
  intros Hu kn pk u Hf Hr. exists u. unfold keyUser_findUnique in *. rewrite Hu. auto.
Qed.

Lemma StaysRevoked_upsert (db : Db) (keyName pubkey : string) (d : option string) :
  StaysRevoked db (snd (keyUser_upsert db keyName pubkey d)).
Proof.
  unfold keyUser_upsert.
  destruct (keyUser_findUnique db keyName pubkey) eqn:E; cbn [snd];
    [apply StaysRevoked_refl|].
  intros kn pk u Hf Hr. exists u. split; [|exact Hr].
  unfold keyUser_findUnique in *. cbn [keyUsers withKeyUsers]. rewrite find_app, Hf.
  reflexivity.
Qed.

Lemma StaysRevoked_update (db : Db) (id : nat) (f : KeyUser -> KeyUser) :
  (forall u, ku_keyName (f u) = ku_keyName u /\ ku_userPubkey (f u) = ku_userPubkey u
             /\ (ku_revokedAt u <> None -> ku_revokedAt (f u) <> None)) ->
  StaysRevoked db (keyUser_update db id f).
Proof.
  intros Hf kn pk u Hfind Hr. unfold keyUser_findUnique in *.
  cbn [keyUsers keyUser_update withKeyUsers]. rewrite find_map_stable.
  - rewrite Hfind. cbn [option_map]. eexists. split; [reflexivity|].
    destruct (Nat.eqb (ku_id u) id); [apply Hf; exact Hr | exact Hr].
  - intros x. destruct (Nat.eqb (ku_id x) id); [|reflexivity].
    unfold keyUserIs. destruct (Hf x) as (-> & -> & _). reflexivity.
Qed.

Lemma StaysRevoked_applyOp (op : StoreOp) (db : Db) : StaysRevoked db (applyOp op db).
Proof.
  destruct op; cbn [applyOp].
  - unfold permitAllRequests.
    pose proof (StaysRevoked_upsert db keyName remotePubkey description) as Hu.
    destruct (keyUser_upsert db keyName remotePubkey description) as [u db1].
    destruct (scopeToCondition method scope) as [m k]. cbn [snd] in Hu.
    eapply StaysRevoked_trans; [exact Hu | apply StaysRevoked_same; reflexivity].
  - unfold blockAllRequests.
    pose proof (StaysRevoked_upsert db keyName remotePubkey None) as Hu.
    destruct (keyUser_upsert db keyName remotePubkey None) as [u db1]. cbn [snd] in Hu.
    eapply StaysRevoked_trans; [exact Hu | apply StaysRevoked_same; reflexivity].
  - rewrite applyToken_run.
    destruct (fst (fetchValidToken token now db)) as [e|[record policy]]; cbn [snd];
      [apply StaysRevoked_refl|].
    unfold redeemed.
    eapply StaysRevoked_trans; [apply StaysRevoked_upsert|].
    apply StaysRevoked_same. cbn [keyUsers token_update withTokens].
    destruct (fold_ruleCondition
                (ku_id (fst (keyUser_upsert db (tok_keyName record) remotePubkey
                               (Some (tok_clientName record)))))
                (pol_rules policy)
                (signingCondition_create
                   (snd (keyUser_upsert db (tok_keyName record) remotePubkey
                           (Some (tok_clientName record))))
                   (ku_id (fst (keyUser_upsert db (tok_keyName record) remotePubkey
                                  (Some (tok_clientName record)))))
                   "connect" None (Some true))) as (_ & Hu & _).
    rewrite Hu. reflexivity.
  - apply StaysRevoked_update. intros u. repeat split. discriminate.
  - apply StaysRevoked_update. intros u. repeat split. auto.
  - apply StaysRevoked_same; reflexivity.
  - apply StaysRevoked_same; reflexivity.
  - apply StaysRevoked_same; reflexivity.
  - apply StaysRevoked_same; reflexivity.
  - apply StaysRevoked_same; reflexivity.
Qed.

Lemma StaysRevoked_applyOps (ops : list StoreOp) (db : Db) :
  StaysRevoked db (applyOps ops db).
Proof.
  revert db. induction ops as [|op ops IH]; intros db; simpl; [apply StaysRevoked_refl|].
  eapply StaysRevoked_trans; [apply StaysRevoked_applyOp | apply IH].
Qed.

Lemma revoke_marks (db : Db) (keyName pubkey : string) (u : KeyUser) (now : Z) :
  keyUser_findUnique db keyName pubkey = Some u ->
  keyUser_findUnique (keyUser_update db (ku_id u) (setRevokedAt now)) keyName pubkey
    = Some (setRevokedAt now u).
Proof.
  intros Hf. unfold keyUser_findUnique in *. cbn [keyUsers keyUser_update withKeyUsers].
  rewrite find_map_stable.
  - rewrite Hf. cbn [option_map]. rewrite Nat.eqb_refl. reflexivity.
  - intros x. destruct (Nat.eqb (ku_id x) (ku_id u)); reflexivity.
Qed.

(** *** What a grant changes *)

Lemma hasVeto_grants (db db' : Db) (extra : list SigningCondition) (k : nat) :
  signingConditions db' = signingConditions db ++ extra ->
  (forall c, In c extra -> sc_allowed c = Some true) ->
  hasVeto db' k -> hasVeto db k.
Proof.
  intros Hc Hx (c & Hin & Hv). rewrite Hc in Hin.
  apply in_app_or in Hin as [Hin|Hin]; [exists c; auto|].
  destruct Hv as (_ & _ & Ha). rewrite (Hx c Hin) in Ha. discriminate.
Qed.

Lemma fresh_id_unused (db : Db) (k : nat) :
  StoreIntegrity db -> nextKeyUserId db <= k -> ~ hasVeto db k.
Proof.
  intros Hi Hk (c & Hin & Hid & _).
  destruct (si_conditions_owned db Hi c Hin) as (u & Hu & Heq).
  pose proof (si_user_ids_issued db Hi u Hu). lia.
Qed.

Lemma fresh_id_no_rows (db : Db) (k : nat) (c : SigningCondition) :
  StoreIntegrity db -> nextKeyUserId db <= k -> In c (signingConditions db) ->
  sc_keyUserId c <> k.
Proof.
  intros Hi Hk Hin Heq.
  destruct (si_conditions_owned db Hi c Hin) as (u & Hu & Hid).
  pose proof (si_user_ids_issued db Hi u Hu). lia.
Qed.

(** The KeyUser that [upsert] returns for a client in good standing is not
    revoked and has no veto among the rows of the store. *)
Lemma upsert_good_standing (db : Db) (keyName pubkey : string) (d : option string) :
  StoreIntegrity db -> inGoodStanding db keyName pubkey ->
  let u := fst (keyUser_upsert db keyName pubkey d) in
  ku_revokedAt u = None /\ ~ hasVeto db (ku_id u).
Proof.
  intros Hi Hg. unfold keyUser_upsert.
  destruct (keyUser_findUnique db keyName pubkey) as [u|] eqn:E; cbn [fst].
  - exact (Hg u E).
  - cbn [ku_revokedAt ku_id]. split; [reflexivity|].
    apply fresh_id_unused; [exact Hi | lia].
Qed.

(** A store that extends [db] by rows that all allow: a client in good
    standing is permitted whatever one of the new rows applies to. *)
Lemma grants_permit (db db' : Db) (keyName pubkey method : string)
    (payload : option Payload) (d : option string)
    (extra : list SigningCondition) (c : SigningCondition) :
  StoreIntegrity db -> StoreIntegrity db' ->
  inGoodStanding db keyName pubkey ->
  keyUser_findUnique db' keyName pubkey = Some (fst (keyUser_upsert db keyName pubkey d)) ->
  signingConditions db' = signingConditions db ++ extra ->
  (forall x, In x extra -> sc_allowed x = Some true) ->
  In c extra ->
  applicable (ku_id (fst (keyUser_upsert db keyName pubkey d))) method payload c ->
  isRequestPermitted db' keyName pubkey method payload = Some true.
Proof.
  intros Hi Hi' Hg Hf Hc Hx Hin Hap.
  destruct (upsert_good_standing db keyName pubkey d Hi Hg) as [Hr Hnv].
  eapply granted_when_applicable; try eassumption.
  - intros Hv. apply Hnv. eapply hasVeto_grants; eassumption.
  - rewrite Hc. apply in_or_app. right. exact Hin.
Qed.

Lemma permitAllRequests_rows (db : Db) (pubkey keyName method : string)
    (d : option string) (scope : option AllowScope) :
  let db' := permitAllRequests db pubkey keyName method d scope in
  let u := fst (keyUser_upsert db keyName pubkey d) in
  keyUser_findUnique db' keyName pubkey = Some u
  /\ signingConditions db' =
       signingConditions db ++
         [{| sc_id := nextConditionId db; sc_keyUserId := ku_id u;
             sc_method := method; sc_kind := snd (scopeToCondition method scope);
             sc_allowed := Some true |}].
Proof.
  cbv zeta. unfold permitAllRequests.
  pose proof (upsert_found db keyName pubkey d) as Hf.
  destruct (upsert_conditions db keyName pubkey d) as (Hc & Hn & _).
  destruct (keyUser_upsert db keyName pubkey d) as [u db1]. cbn [fst snd] in *.
  assert (Hm : fst (scopeToCondition method scope) = method).
  { unfold scopeToCondition. destruct scope as [s|]; [destruct (scope_kind s)|];
      reflexivity. }
  destruct (scopeToCondition method scope) as [m k]. cbn [fst snd] in *. subst m.
  split; [exact Hf|].
  cbn [signingConditions signingCondition_create withConditions]. rewrite Hc, Hn.
  reflexivity.
Qed.

End DecisionFacts.

Section ReachableStores.
Context {R : JsRuntime}.

Lemma integrity_reachable (ops : list StoreOp) : StoreIntegrity (applyOps ops emptyDb).
Proof. apply integrity_applyOps. exact integrity_emptyDb. Qed.

(** X1: every store that the daemon's writes produce from the empty store
    keeps the KeyUser and SigningCondition tables consistent: KeyUser ids and
    SigningCondition ids are unique and below their counters, no two KeyUsers
    share [(keyName, userPubkey)], every SigningCondition belongs to a KeyUser
    of the store, and every SigningCondition either allows or is a
    [method='*'] denial. *)
Theorem store_integrity_invariant :
  forall (ops : list StoreOp), StoreIntegrity (applyOps ops emptyDb).
Proof.
  intros ops.
  apply integrity_applyOps. exact integrity_emptyDb.
Qed.

Lemma find_veto_none (db : Db) (k : nat) :
  find (isExplicitDeny k) (signingConditions db) = None -> ~ hasVeto db k.
Proof.
  intros Hnone (c & Hin & Hv). apply isExplicitDeny_veto in Hv.
  rewrite (find_none _ _ Hnone c Hin) in Hv. discriminate.
Qed.

Lemma refusal_cause (db : Db) (keyName pubkey method : string)
    (payload : option Payload) (u : KeyUser) :
  StoreIntegrity db ->
  keyUser_findUnique db keyName pubkey = Some u ->
  isRequestPermitted db keyName pubkey method payload = Some false ->
  hasVeto db (ku_id u) \/ ku_revokedAt u <> None.
Proof.
  intros Hi Hf. unfold isRequestPermitted. rewrite Hf.
  destruct (find (isExplicitDeny (ku_id u)) (signingConditions db)) as [v|] eqn:Ev.
  - intros _. left. apply find_some in Ev as [Hin Hv]. exists v. split; [exact Hin|].
    apply isExplicitDeny_veto. exact Hv.
  - apply find_veto_none in Ev.
    destruct (find _ (signingConditions db)) as [c|] eqn:Ec; [|discriminate].
    rewrite (find_matching_granted db u _ c Hi Ev Ec).
    destruct (ku_revokedAt u); [intros _; right; discriminate | discriminate].
Qed.

(** X2: on a store that the daemon's writes produce from the empty store the
    decision for a known client does not depend on the order of the rows: a
    veto refuses; without veto, a row that applies allows unless the KeyUser
    is revoked, and then refuses; without veto and without such a row the
    decision is left open.  So the evaluator refuses only a client that is
    under a veto or revoked. *)
Theorem acl_decision_on_reachable_store :
  forall (ops : list StoreOp) (keyName clientPubkey method : string)
         (payload : option Payload) (keyUser : KeyUser),
    let db := applyOps ops emptyDb in
    let result := isRequestPermitted db keyName clientPubkey method payload in
    keyUser_findUnique db keyName clientPubkey = Some keyUser ->
    (hasVeto db (ku_id keyUser) -> result = Some false)
    /\ (~ hasVeto db (ku_id keyUser) ->
        (exists c, In c (signingConditions db)
                   /\ applicable (ku_id keyUser) method payload c) ->
        result = match ku_revokedAt keyUser with
                 | Some _ => Some false
                 | None => Some true
                 end)
    /\ (~ hasVeto db (ku_id keyUser) ->
        (forall c, In c (signingConditions db) ->
                   ~ applicable (ku_id keyUser) method payload c) ->
        result = None)
    /\ (result = Some false ->
        hasVeto db (ku_id keyUser) \/ ku_revokedAt keyUser <> None).
Proof.
  intros ops keyName clientPubkey method payload keyUser db result Hf.
  pose proof (integrity_reachable ops) as Hi. fold db in Hi.
  destruct (decision_by_cases db keyName clientPubkey method payload keyUser Hi Hf)
    as (H1 & H2 & H3).
  split; [exact H1|]. split; [exact H2|]. split; [exact H3|].
  apply refusal_cause; assumption.
Qed.

(** X3: once a KeyUser is revoked, no later write of the daemon makes the
    evaluator allow a request of that client to that key: neither a new
    grant, nor the redemption of a token, nor a rename. *)
Theorem revocation_is_permanent :
  forall (db : Db) (keyName clientPubkey : string) (keyUser : KeyUser) (now : Z),
    keyUser_findUnique db keyName clientPubkey = Some keyUser ->
    forall (ops : list StoreOp) (method : string) (payload : option Payload),
      isRequestPermitted
        (applyOps (OpRevokeKeyUser (ku_id keyUser) now :: ops) db)
        keyName clientPubkey method payload <> Some true.
Proof.
  intros db keyName clientPubkey keyUser now Hf ops method payload.
  cbn [applyOps fold_left applyOp].
  pose proof (revoke_marks db keyName clientPubkey keyUser now Hf) as Hm.
  destruct (StaysRevoked_applyOps ops _ _ _ _ Hm) as (u' & Hf' & Hr'); [discriminate|].
  eapply revoked_never_permitted; eassumption.
Qed.

(** X4: a grant written by [permitAllRequests] is honoured from then on: in
    every later store in which the client is neither revoked nor under a
    veto, the evaluator allows the granted method; for [sign_event] this
    needs the kind of the grant to be ["all"] or the kind that the request
    carries. *)
Theorem standing_grant_is_honoured :
  forall (before after : list StoreOp) (clientPubkey keyName method : string)
         (description : option string) (scope : option AllowScope)
         (payload : option Payload),
    let granted :=
      permitAllRequests (applyOps before emptyDb) clientPubkey keyName method
        description scope in
    let db := applyOps after granted in
    inGoodStanding db keyName clientPubkey ->
    (method <> "sign_event"
     \/ inKindSet payload (snd (scopeToCondition method scope))) ->
    isRequestPermitted db keyName clientPubkey method payload = Some true.
Proof.
  intros before after clientPubkey keyName method description scope payload granted db
    Hg Hk.
  assert (Hi : StoreIntegrity db).
  { apply integrity_applyOps, integrity_permitAllRequests, integrity_reachable. }
  destruct (permitAllRequests_rows (applyOps before emptyDb) clientPubkey keyName method
              description scope) as [Hf Hrows].
  fold granted in Hf, Hrows.
  destruct (Extends_applyOps after granted) as [Hu Hc]. fold db in Hu, Hc.
  destruct (Hu _ _ _ Hf) as (u' & Hf' & Hid).
  destruct (Hg u' Hf') as [Hr Hnv].
  eapply granted_when_applicable; try eassumption.
  - apply Hc. rewrite Hrows. apply in_or_app. right. left. reflexivity.
  - rewrite Hid. split; [reflexivity|]. split; [reflexivity|].
    intros Hs. destruct Hk as [Hk|Hk]; [contradiction | exact Hk].
Qed.

Lemma find_snoc_miss {A : Type} (f : A -> bool) (l : list A) (x : A) :
  f x = false -> find f (l ++ [x]) = find f l.
Proof.
  intros Hx. rewrite find_app. destruct (find f l); [reflexivity|].
  simpl. rewrite Hx. reflexivity.
Qed.

Lemma find_none_fresh (db : Db) (k : nat) (f : SigningCondition -> bool) :
  StoreIntegrity db -> nextKeyUserId db <= k ->
  (forall c, f c = true -> sc_keyUserId c = k) ->
  find f (signingConditions db) = None.
Proof.
  intros Hi Hk Hf. destruct (find f (signingConditions db)) as [c|] eqn:E; [|reflexivity].
  apply find_some in E as [Hin Hc]. exfalso.
  exact (fresh_id_no_rows db k c Hi Hk Hin (Hf c Hc)).
Qed.

(** A [sign_event] row without kind is selected by no [sign_event] query. *)
Lemma kindless_row_unmatched (db : Db) (pubkey keyName : string) (d : option string)
    (scope : option AllowScope) (keyName' pubkey' : string) (payload : option Payload) :
  StoreIntegrity db ->
  snd (scopeToCondition "sign_event" scope) = None ->
  isRequestPermitted (permitAllRequests db pubkey keyName "sign_event" d scope)
    keyName' pubkey' "sign_event" payload
  = isRequestPermitted db keyName' pubkey' "sign_event" payload.
Proof.
  intros Hi Hkind.
  destruct (permitAllRequests_rows db pubkey keyName "sign_event" d scope) as [Hf Hrows].
  rewrite Hkind in Hrows.
  set (db' := permitAllRequests db pubkey keyName "sign_event" d scope) in *.
  assert (Hveto : forall k, find (isExplicitDeny k) (signingConditions db')
                            = find (isExplicitDeny k) (signingConditions db)).
  { intros k. rewrite Hrows. apply find_snoc_miss. unfold isExplicitDeny.
    cbn [sc_allowed]. apply andb_false_r. }
  assert (Hmatch : forall k, find (conditionMatches k
                                     (buildConditionQuery "sign_event" payload))
                               (signingConditions db')
                             = find (conditionMatches k
                                       (buildConditionQuery "sign_event" payload))
                                 (signingConditions db)).
  { intros k. rewrite Hrows. apply find_snoc_miss. unfold conditionMatches.
    cbn [sc_kind]. unfold buildConditionQuery. cbn [negb String.eqb Ascii.eqb Bool.eqb
      andb q_kindIn kindMatches]. apply andb_false_r. }
  assert (Husers : keyUsers db' = keyUsers (snd (keyUser_upsert db keyName pubkey d))).
  { unfold db', permitAllRequests.
    destruct (keyUser_upsert db keyName pubkey d) as [u db1].
    destruct (scopeToCondition "sign_event" scope) as [m k]. reflexivity. }
  unfold isRequestPermitted at 1 2. unfold keyUser_findUnique at 1 2. rewrite Husers.
  unfold keyUser_upsert.
  destruct (keyUser_findUnique db keyName pubkey) as [u|] eqn:E; cbn [snd keyUsers withKeyUsers].
  - destruct (find (keyUserIs keyName' pubkey') (keyUsers db)) as [u'|]; [|reflexivity].
    rewrite Hveto, Hmatch. reflexivity.
  - rewrite find_app.
    destruct (find (keyUserIs keyName' pubkey') (keyUsers db)) as [u'|] eqn:E';
      [rewrite Hveto, Hmatch; reflexivity|].
    cbn [find]. destruct (keyUserIs keyName' pubkey' _); [|reflexivity].
    cbn [ku_id ku_revokedAt]. rewrite Hveto, Hmatch.
    rewrite (find_none_fresh db (nextKeyUserId db)); [|exact Hi|lia|].
    + rewrite (find_none_fresh db (nextKeyUserId db)); [reflexivity|exact Hi|lia|].
      intros c Hc. unfold conditionMatches in Hc. apply andb_true_iff in Hc as [Hc _].
      apply andb_true_iff in Hc as [Hc _]. apply Nat.eqb_eq. exact Hc.
    + intros c Hc. unfold isExplicitDeny in Hc. apply andb_true_iff in Hc as [Hc _].
      apply andb_true_iff in Hc as [Hc _]. apply Nat.eqb_eq. exact Hc.
Qed.

(** X5: a [sign_event] grant written without a scope kind is a row that no
    [sign_event] query selects: after it the evaluator decides every
    [sign_event] request, of every client, as it did before. *)
Theorem unscoped_sign_event_grant_matches_nothing :
  forall (ops : list StoreOp) (clientPubkey keyName : string)
         (description : option string) (keyName' clientPubkey' : string)
         (payload : option Payload),
    let db := applyOps ops emptyDb in
    isRequestPermitted
      (permitAllRequests db clientPubkey keyName "sign_event" description None)
      keyName' clientPubkey' "sign_event" payload
    = isRequestPermitted db keyName' clientPubkey' "sign_event" payload
    /\ isRequestPermitted
         (permitAllRequests db clientPubkey keyName "sign_event" description
            (Some {| scope_kind := None |}))
         keyName' clientPubkey' "sign_event" payload
       = isRequestPermitted db keyName' clientPubkey' "sign_event" payload.
Proof.
  intros ops clientPubkey keyName description keyName' clientPubkey' payload db.
  split; apply kindless_row_unmatched; try reflexivity; apply integrity_reachable.
Qed.

Lemma redeemed_rows (db : Db) (record : Token) (policy : Policy) (pubkey : string)
    (redeemedNow : Z) :
  let db' := redeemed db record policy pubkey redeemedNow in
  let u := fst (keyUser_upsert db (tok_keyName record) pubkey
                  (Some (tok_clientName record))) in
  keyUser_findUnique db' (tok_keyName record) pubkey = Some u
  /\ signingConditions db' =
       signingConditions db ++
         grantRows (ku_id u) (nextConditionId db)
           (("connect", None) :: map ruleEntry (pol_rules policy)).
Proof.
  cbv zeta. unfold redeemed.
  set (up := keyUser_upsert db (tok_keyName record) pubkey
               (Some (tok_clientName record))).
  pose proof (upsert_found db (tok_keyName record) pubkey
                (Some (tok_clientName record))) as Hfound.
  destruct (upsert_conditions db (tok_keyName record) pubkey
              (Some (tok_clientName record))) as (Hc & Hn & _).
  fold up in Hfound, Hc, Hn.
  set (db2 := signingCondition_create (snd up) (ku_id (fst up)) "connect" None (Some true)).
  destruct (fold_ruleCondition (ku_id (fst up)) (pol_rules policy) db2) as (Fc & Fu & _).
  split.
  - unfold keyUser_findUnique, token_update. cbn [keyUsers withTokens]. rewrite Fu.
    exact Hfound.
  - unfold token_update. cbn [signingConditions withTokens]. rewrite Fc. unfold db2.
    cbn [signingConditions signingCondition_create withConditions nextConditionId].
    rewrite Hc, Hn, <- app_assoc. reflexivity.
Qed.

Lemma grantRows_allow (k first : nat) (entries : list (string * option string))
    (c : SigningCondition) :
  In c (grantRows k first entries) ->
  sc_allowed c = Some true /\ sc_keyUserId c = k
  /\ In (sc_method c, sc_kind c) entries.
Proof.
  revert first. induction entries as [|[m kd] entries IH]; intros first; simpl; [intros []|].
  intros [<-|Hin]; [simpl; auto|]. destruct (IH _ Hin) as (Ha & Hk & He). auto.
Qed.

Lemma grantRows_In (k first : nat) (entries : list (string * option string))
    (m : string) (kd : option string) :
  In (m, kd) entries ->
  exists c, In c (grantRows k first entries)
            /\ sc_keyUserId c = k /\ sc_method c = m /\ sc_kind c = kd.
Proof.
  revert first. induction entries as [|[m' kd'] entries IH]; intros first; simpl; [intros []|].
  intros [H|Hin].
  - injection H as -> ->. eexists. split; [left; reflexivity|]. simpl. auto.
  - destruct (IH (S first) Hin) as (c & Hc & Hrest). exists c. split; [right; exact Hc|].
    exact Hrest.
Qed.

(** X6: after a successful redemption the client, when it is neither revoked
    nor under a veto, is allowed [connect] and every method of a rule of the
    token's policy; for a [sign_event] rule this needs the kind of the rule
    to be ["all"] or the kind that the request carries. *)
Theorem redemption_grants_policy_rules :
  forall (ops : list StoreOp) (clientPubkey token : string) (now redeemedNow : Z)
         (record : Token) (policy : Policy),
    let db := applyOps ops emptyDb in
    let db' := snd (applyToken clientPubkey token now redeemedNow db) in
    fst (fetchValidToken token now db) = inr (record, policy) ->
    inGoodStanding db (tok_keyName record) clientPubkey ->
    (forall payload,
        isRequestPermitted db' (tok_keyName record) clientPubkey "connect" payload
          = Some true)
    /\ (forall rule payload,
          In rule (pol_rules policy) ->
          pr_method rule <> "sign_event" \/ inKindSet payload (pr_kind rule) ->
          isRequestPermitted db' (tok_keyName record) clientPubkey (pr_method rule)
            payload = Some true).
Proof.
  intros ops clientPubkey token now redeemedNow record policy db db' Hfetch Hg.
  pose proof (integrity_reachable ops) as Hi. fold db in Hi.
  assert (Hdb' : db' = redeemed db record policy clientPubkey redeemedNow).
  { unfold db'. rewrite applyToken_run, Hfetch. reflexivity. }
  assert (Hi' : StoreIntegrity db') by (rewrite Hdb'; apply integrity_redeemed; exact Hi).
  destruct (redeemed_rows db record policy clientPubkey redeemedNow) as (Hf & Hrows).
  rewrite <- Hdb' in Hf, Hrows.
  set (d := Some (tok_clientName record)) in *.
  set (u := fst (keyUser_upsert db (tok_keyName record) clientPubkey d)) in *.
  set (extra := grantRows (ku_id u) (nextConditionId db)
                  (("connect", None) :: map ruleEntry (pol_rules policy))) in *.
  assert (Hall : forall x, In x extra -> sc_allowed x = Some true).
  { intros x Hx. apply grantRows_allow in Hx. tauto. }
  assert (Hpermit : forall m kd payload,
             In (m, kd) (("connect", None) :: map ruleEntry (pol_rules policy)) ->
             (m <> "sign_event" \/ inKindSet payload kd) ->
             isRequestPermitted db' (tok_keyName record) clientPubkey m payload
               = Some true).
  { intros m kd payload Hin Hk.
    destruct (grantRows_In (ku_id u) (nextConditionId db) _ m kd Hin)
      as (c & Hc & Hcu & Hcm & Hck).
    apply (grants_permit db db' (tok_keyName record) clientPubkey m payload d extra c);
      try assumption.
    fold u. split; [exact Hcu|]. split; [exact Hcm|]. rewrite Hck. intros Hs.
    destruct Hk as [Hk|Hk]; [contradiction | exact Hk]. }
  split.
  - intros payload. apply (Hpermit "connect" None payload); [left; reflexivity|].
    left. discriminate.
  - intros rule payload Hin Hk. apply (Hpermit (pr_method rule) (pr_kind rule) payload).
    + right. apply in_map_iff. exists rule. split; [reflexivity | exact Hin].
    + exact Hk.
Qed.

End ReachableStores.

(* ------------------------------------------------------------------------- *)
(** * The request URL, the listing and the vault record *)

Lemma stripTrailingSlashes_slashes (k : nat) : stripTrailingSlashes (slashes k) = "".
Proof. induction k as [|k IH]; simpl; [reflexivity|]. rewrite IH. reflexivity. Qed.

Lemma stripTrailingSlashes_app (s : string) (k : nat) :
  stripTrailingSlashes (s ++ slashes k) = stripTrailingSlashes s.
Proof.
  induction s as [|c s IH]; simpl; [apply stripTrailingSlashes_slashes|].
  rewrite IH. reflexivity.
Qed.

Lemma stripTrailingSlashes_removed (s : string) :
  exists k, s = (stripTrailingSlashes s ++ slashes k)%string.
Proof.
  induction s as [|c s [k IH]]; simpl; [exists 0; reflexivity|].
  destruct (Ascii.eqb_spec c "/") as [->|Hc]; simpl.
  - destruct (String.eqb_spec (stripTrailingSlashes s) "") as [E|E].
    + exists (S k). simpl. f_equal. rewrite IH at 1. rewrite E. reflexivity.
    + exists k. simpl. f_equal. exact IH.
  - exists k. simpl. f_equal. exact IH.
Qed.

Lemma stripTrailingSlashes_no_slash (s prefix : string) :
  stripTrailingSlashes s <> (prefix ++ "/")%string.
Proof.
  revert prefix. induction s as [|c s IH]; intros prefix; simpl.
  - destruct prefix; discriminate.
  - destruct (Ascii.eqb_spec c "/") as [->|Hc]; simpl.
    + destruct (String.eqb_spec (stripTrailingSlashes s) "") as [E|E].
      * destruct prefix; discriminate.
      * destruct prefix as [|p prefix]; simpl.
        -- intros H. injection H as H. contradiction.
        -- intros H. injection H as _ H. exact (IH _ H).
    + destruct prefix as [|p prefix]; simpl.
      * intros H. injection H as H _. contradiction.
      * intros H. injection H as _ H. exact (IH _ H).
Qed.

(** X7: the URL of the approval page does not depend on trailing slashes of
    the base URL: [buildRequestUrl] removes every slash at the end of the
    base, and nothing else, before it appends ["/requests/"] and the request
    id, so the stripped base never ends with a slash. *)
Theorem request_url_ignores_trailing_slashes :
  forall (baseUrl requestId : string) (k : nat),
    buildRequestUrl (baseUrl ++ slashes k) requestId = buildRequestUrl baseUrl requestId
    /\ (exists n, baseUrl = (stripTrailingSlashes baseUrl ++ slashes n)%string)
    /\ (forall prefix, stripTrailingSlashes baseUrl <> (prefix ++ "/")%string)
    /\ buildRequestUrl baseUrl requestId
       = (stripTrailingSlashes baseUrl ++ "/requests/" ++ requestId)%string.
Proof.
  intros baseUrl requestId k. unfold buildRequestUrl.
  rewrite stripTrailingSlashes_app. split; [reflexivity|].
  split; [apply stripTrailingSlashes_removed|].
  split; [apply stripTrailingSlashes_no_slash | reflexivity].
Qed.

Lemma insert_In (r x : Request) (l : list Request) :
  In x (insertByCreatedAtDesc r l) -> x = r \/ In x l.
Proof.
  induction l as [|y l IH]; simpl.
  - intros [<-|[]]. left. reflexivity.
  - destruct (Z.ltb (rq_createdAt y) (rq_createdAt r)); simpl.
    + intros [<-|[<-|H]]; auto.
    + intros [<-|H]; auto. destruct (IH H); auto.
Qed.

Lemma insert_sorted (r : Request) (l : list Request) :
  StronglySorted newerFirst l -> StronglySorted newerFirst (insertByCreatedAtDesc r l).
Proof.
  intros Hs. induction Hs as [|y l Hs IH Hy]; simpl.
  - constructor; constructor.
  - destruct (Z.ltb_spec (rq_createdAt y) (rq_createdAt r)) as [Hlt|Hge].
    + constructor; [constructor; assumption|].
      constructor; [unfold newerFirst; lia|].
      apply Forall_forall. intros z Hz. rewrite Forall_forall in Hy.
      specialize (Hy z Hz). unfold newerFirst in *. lia.
    + constructor; [exact IH|].
      apply Forall_forall. intros z Hz. apply insert_In in Hz as [->|Hz].
      * unfold newerFirst. lia.
      * rewrite Forall_forall in Hy. exact (Hy z Hz).
Qed.

Lemma orderBy_sorted (rs : list Request) :
  StronglySorted newerFirst (orderByCreatedAtDesc rs).
Proof.
  induction rs as [|r rs IH]; simpl; [constructor|]. apply insert_sorted. exact IH.
Qed.

Lemma sorted_skipn {A : Type} (R : A -> A -> Prop) (n : nat) (l : list A) :
  StronglySorted R l -> StronglySorted R (skipn n l).
Proof.
  revert l. induction n as [|n IH]; intros l Hs; [exact Hs|].
  destruct l as [|x l]; [constructor|]. simpl. apply IH.
  inversion Hs; assumption.
Qed.

Lemma sorted_firstn {A : Type} (R : A -> A -> Prop) (n : nat) (l : list A) :
  StronglySorted R l -> StronglySorted R (firstn n l).
Proof.
  revert l. induction n as [|n IH]; intros l Hs; [constructor|].
  destruct l as [|x l]; [constructor|]. simpl. inversion Hs as [|? ? Hl Hx]; subst.
  constructor; [apply IH; exact Hl|].
  apply Forall_forall. intros z Hz. rewrite Forall_forall in Hx. apply Hx.
  apply In_firstn in Hz. exact Hz.
Qed.

Lemma sorted_map {A B : Type} (R : A -> A -> Prop) (S : B -> B -> Prop) (f : A -> B)
    (l : list A) :
  (forall a b, R a b -> S (f a) (f b)) ->
  StronglySorted R l -> StronglySorted S (map f l).
Proof.
  intros Hf Hs. induction Hs as [|x l Hs IH Hx]; simpl; constructor; [exact IH|].
  apply Forall_forall. intros z Hz. apply in_map_iff in Hz as (y & <- & Hy).
  rewrite Forall_forall in Hx. apply Hf, Hx, Hy.
Qed.

Lemma queryLimit_bounds (q : RequestsQuery) : (1 <= queryLimit q <= 50)%Z.
Proof. unfold queryLimit. destruct (qr_limit q); lia. Qed.

Section ListingFacts.
Context {R : JsRuntime}.

Lemma findMany_rows (db : Db) (status : string) (now offset limit : Z) (record : Request) :
  In record (request_findMany db status now offset limit) ->
  In record (requests db) /\ statusWhere status now record = true.
Proof.
  unfold request_findMany. intros H. apply In_firstn, In_skipn in H.
  assert (Hsorted : forall rs x, In x (orderByCreatedAtDesc rs) -> In x rs).
  { clear. induction rs as [|r rs IH]; simpl; [auto|]. intros x Hx.
    apply insert_In in Hx as [->|Hx]; auto. }
  apply Hsorted, filter_In in H. exact H.
Qed.

(** X8: GET /requests answers with at most [limit] rows, and never more
    than 50, ordered newest first; every row comes from a Request of the
    store that passes the status filter of the query, expires 60 s after its
    creation, and has a time to live that is not negative. *)
Theorem requests_listing_bounded_and_ordered :
  forall (allKeys : list (string * StoredKey)) (db : Db) (q : RequestsQuery)
         (now nowMillis : Z),
    let rows := getRequests allKeys db q now nowMillis in
    (Z.of_nat (length rows) <= queryLimit q <= 50)%Z
    /\ StronglySorted (fun a b => (v_createdAt b <= v_createdAt a)%Z) rows
    /\ Forall (fun row =>
                 (exists record,
                     In record (requests db)
                     /\ statusWhere (queryStatus q) now record = true
                     /\ row = requestView allKeys nowMillis record)
                 /\ v_expiresAt row = (v_createdAt row + 60000)%Z
                 /\ (0 <= v_ttlSeconds row)%Z) rows.
Proof.
  intros allKeys db q now nowMillis rows. subst rows. unfold getRequests.
  pose proof (queryLimit_bounds q) as Hl. split; [|split].
  - rewrite length_map. unfold request_findMany. rewrite length_firstn. lia.
  - apply (sorted_map newerFirst); [intros a b H; exact H|].
    unfold request_findMany. apply sorted_firstn, sorted_skipn, orderBy_sorted.
  - apply Forall_forall. intros row Hrow. apply in_map_iff in Hrow as (record & <- & Hin).
    apply findMany_rows in Hin as [Hin Hst]. split; [|split].
    + exists record. auto.
    + reflexivity.
    + unfold requestView. cbn [v_ttlSeconds]. lia.
Qed.

End ListingFacts.

Lemma hexEncodeList_length (bs : bytes) : length (hexEncodeList bs) = 2 * length bs.
Proof. induction bs as [|b bs IH]; simpl; [reflexivity|]. rewrite IH. lia. Qed.

Lemma hexEncode_length (bs : bytes) : String.length (hexEncode bs) = 2 * length bs.
Proof.
  unfold hexEncode. rewrite <- list_ascii_of_string_length.
  rewrite list_ascii_of_string_of_list_ascii. apply hexEncodeList_length.
Qed.

Section VaultLayout.
Context {C : NodeCrypto}.

Lemma encryptSecret_data (secret passphrase : JsString) (salt iv : bytes) :
  hexDecode (enc_data (encryptSecret secret passphrase salt iv))
  = salt ++ aes256cbcEncrypt (deriveKey passphrase salt) iv (utf8Encode secret).
Proof.
  unfold encryptSecret. cbn [enc_data]. rewrite !hexDecode_encode. reflexivity.
Qed.

Lemma aes256cbcEncrypt_length (laws : BlockCipherLaws C) (key iv plaintext : bytes) :
  length iv = 16 ->
  length (aes256cbcEncrypt key iv plaintext) = 16 * (length plaintext / 16 + 1).
Proof.
  intros Hiv. unfold aes256cbcEncrypt.
  apply (cbcEncrypt_length laws); [apply pkcs7Pad_length | | exact Hiv].
  rewrite pkcs7Pad_length. lia.
Qed.

End VaultLayout.

(** X9: the record that [encryptSecret] returns, for a 16-byte IV and a
    block cipher that outputs 16-byte blocks: [iv] is the IV in 32 hex
    digits; [data] is the hex form of the salt followed by the ciphertext,
    and the ciphertext has the length of the plaintext, in UTF-8 bytes,
    rounded up to the next multiple of 16 bytes, one full block of padding
    included when that length is a multiple of 16. *)
Theorem encrypted_record_layout :
  forall (C : NodeCrypto),
    BlockCipherLaws C ->
    forall (secret passphrase : JsString) (salt iv : bytes),
      length iv = 16 ->
      let stored := encryptSecret secret passphrase salt iv in
      enc_iv stored = hexEncode iv
      /\ String.length (enc_iv stored) = 32
      /\ firstn (length salt) (hexDecode (enc_data stored)) = salt
      /\ String.length (enc_data stored)
         = 2 * (length salt + 16 * (length (utf8Encode secret) / 16 + 1)).
Proof.
  intros C laws secret passphrase salt iv Hiv stored.
  split; [reflexivity|]. split; [|split].
  - unfold stored, encryptSecret. cbn [enc_iv]. rewrite hexEncode_length, Hiv. reflexivity.
  - unfold stored. rewrite encryptSecret_data.
    rewrite firstn_app, Nat.sub_diag, firstn_all. simpl. apply app_nil_r.
  - unfold stored, encryptSecret. cbn [enc_data]. rewrite hexDecode_encode.
    rewrite hexEncode_length, length_app.
    rewrite (aes256cbcEncrypt_length laws) by exact Hiv. reflexivity.
Qed.

(* ------------------------------------------------------------------------- *)
(** * These properties on concrete inputs *)

Section FurtherWitnesses.
#[local] Existing Instance MiniJs.runtime.
#[local] Existing Instance Nip19.tools.

Lemma acl_decision_on_reachable_store_witness :
  isRequestPermitted (applyOps [grantAllKinds] emptyDb) "alice" "client-pubkey"
    "sign_event" (Some (PString (eventOfKind "7"))) = Some true.
Proof.
  refine (proj1 (proj2 (acl_decision_on_reachable_store [grantAllKinds] "alice"
                          "client-pubkey" "sign_event"
                          (Some (PString (eventOfKind "7"))) aliceClient eq_refl))
            _ _).
  - intros (c & [<-|[]] & _ & Hm & _). discriminate.
  - exists allKindsRow. split; [left; reflexivity|].
    split; [reflexivity|]. split; [reflexivity|]. intros _.
    exists "all". split; [reflexivity|]. left. reflexivity.
Defined.

Lemma revocation_is_permanent_witness :
  isRequestPermitted
    (applyOps [OpRevokeKeyUser 1 99%Z; grantAllKinds] kindOneStore)
    "alice" "client-pubkey" "sign_event" (Some (PString (eventOfKind "1")))
  <> Some true.
Proof.
  exact (revocation_is_permanent kindOneStore "alice" "client-pubkey" aliceClient 99%Z
           eq_refl [grantAllKinds] "sign_event" (Some (PString (eventOfKind "1")))).
Defined.

Lemma standing_grant_is_honoured_witness :
  isRequestPermitted
    (applyOps [OpRenameKeyUser 1 "phone"]
       (permitAllRequests (applyOps [] emptyDb) "client-pubkey" "alice" "sign_event"
          None allKinds))
    "alice" "client-pubkey" "sign_event" (Some (PString (eventOfKind "7"))) = Some true.
Proof.
  apply (standing_grant_is_honoured [] [OpRenameKeyUser 1 "phone"] "client-pubkey"
           "alice" "sign_event" None allKinds (Some (PString (eventOfKind "7")))).
  - intros u Hu. injection Hu as <-. split; [reflexivity|].
    intros (c & [<-|[]] & _ & Hm & _). discriminate.
  - right. exists "all". split; [reflexivity|]. left. reflexivity.
Defined.

Lemma redemption_grants_policy_rules_witness :
  isRequestPermitted
    (snd (applyToken "client-pubkey" "token-1" 10%Z 11%Z (applyOps issueToken emptyDb)))
    "alice" "client-pubkey" "connect" None = Some true.
Proof.
  refine (proj1 (redemption_grants_policy_rules issueToken "client-pubkey" "token-1"
                   10%Z 11%Z issuedToken signerPolicy eq_refl _) None).
  intros u Hu. discriminate.
Defined.

Lemma encrypted_record_layout_witness :
  String.length
    (enc_data (encryptSecret (C := XorCipher.crypto) (jsString sampleNsec)
                 (jsString "correct horse") (repeat "s"%char 16) (repeat "i"%char 16)))
  = 2 * (length (repeat "s"%char 16)
         + 16 * (length (utf8Encode (jsString sampleNsec)) / 16 + 1)).
Proof.
  exact (proj2 (proj2 (proj2 (encrypted_record_layout XorCipher.crypto xorCipher_laws
                                (jsString sampleNsec) (jsString "correct horse")
                                (repeat "s"%char 16) (repeat "i"%char 16) eq_refl)))).
Defined.

End FurtherWitnesses.

(* ------------------------------------------------------------------------- *)
(** * The web approval *)

Section WebFacts.
Context {R : JsRuntime} {B : Bcrypt}.
Variable nullKeyNameMessage : string.

Lemma validateAuthCookie_reads (req : WebRequest) (s : WebStore) :
  snd (validateAuthCookie req s) = s.
Proof.
  unfold validateAuthCookie. destruct (wq_jwt req) as [token|]; [|reflexivity].
  destruct (negb (strTruthy token)); reflexivity.
Qed.

Lemma loadPendingRequest_run (req : WebRequest) (s : WebStore) :
  loadPendingRequest req s =
  (match request_findUnique (ws_db s) (wq_id req) with
   | Some record =>
       if isSome (rq_allowed record) then inl alreadyProcessed else inr record
   | None => inl alreadyProcessed
   end, s).
Proof.
  unfold loadPendingRequest, bind, gets, throw, ret.
  destruct (request_findUnique (ws_db s) (wq_id req)) as [record|]; [|reflexivity].
  destruct (isSome (rq_allowed record)); reflexivity.
Qed.

Lemma authenticateUser_reads (keyStore : option (list (string * StoredKey)))
    (record : Request) (req : WebRequest) (s : WebStore) :
  snd (authenticateUser keyStore record req s) = s.
Proof.
  unfold authenticateUser. unfold bind at 1.
  pose proof (validateAuthCookie_reads req s) as Hc.
  destruct (validateAuthCookie req s) as [[e|cookie] s0]; cbn [snd] in Hc; subst s0;
    [reflexivity|].
  destruct cookie; [reflexivity|].
  destruct (rq_keyName record) as [k|].
  - destruct (negb (strTruthy k)).
    + destruct (isPlainKey _); reflexivity.
    + destruct (isPlainKey _); [reflexivity|].
      destruct (nth_error (splitOn "@" k) 0) as [username|]; [|reflexivity].
      destruct (nth_error (splitOn "@" k) 1) as [domain|]; [|reflexivity].
      destruct (negb (strTruthy username) || negb (strTruthy domain)); [reflexivity|].
      destruct (wq_password req) as [password|]; [|reflexivity].
      destruct (negb (strTruthy password)); [reflexivity|].
      unfold bind, gets. destruct (user_findUnique s username domain) as [u|];
        [|reflexivity].
      destruct (bcrypt_compare password (usr_password u)); reflexivity.
  - destruct (isPlainKey _); reflexivity.
Qed.

Lemma logApproval_run (record : Request) (logNow : Z) (s : WebStore) :
  fst (logApproval record logNow s) = inr tt
  /\ ws_db (snd (logApproval record logNow s)) = ws_db s
  /\ ws_users (snd (logApproval record logNow s)) = ws_users s
  /\ ws_keys (snd (logApproval record logNow s)) = ws_keys s.
Proof.
  unfold logApproval.
  destruct (optStrTruthy (rq_keyName record) && strTruthy (rq_remotePubkey record));
    [|repeat split].
  destruct (rq_keyName record) as [k|]; [|repeat split].
  unfold bind, gets.
  destruct (keyUser_findUnique (ws_db s) k (rq_remotePubkey record)); repeat split.
Qed.

(** The handler, step by step. *)
Lemma approveRequest_run (keyStore : option (list (string * StoredKey)))
    (req : WebRequest) (now logNow : Z) (s : WebStore) :
  approveRequest nullKeyNameMessage keyStore req now logNow s =
  match fst (loadPendingRequest req s) with
  | inl e => (inl e, s)
  | inr record =>
      match fst (authenticateUser keyStore record req s) with
      | inl e => (inl e, s)
      | inr user =>
          match rq_keyName record with
          | None =>
              (inl nullKeyNameMessage,
               setWebDb s (request_approve (ws_db s) (rq_id record) now))
          | Some keyName =>
              (inr user,
               snd (logApproval record logNow
                      (setWebDb s (approvedDb (ws_db s) record keyName now))))
          end
      end
  end.
Proof.
  unfold approveRequest. unfold bind at 1. rewrite loadPendingRequest_run. cbn [fst].
  destruct (request_findUnique (ws_db s) (wq_id req)) as [record|]; [|reflexivity].
  destruct (isSome (rq_allowed record)); [reflexivity|].
  unfold bind at 1.
  pose proof (authenticateUser_reads keyStore record req s) as Ha.
  destruct (authenticateUser keyStore record req s) as [[e|user] s0]; cbn [fst snd] in *;
    subst s0; [reflexivity|].
  unfold bind at 1. unfold liftWeb at 1, modify at 1. cbn [fst snd].
  unfold permitForRecord, approvedDb.
  destruct (rq_keyName record) as [keyName|]; [|reflexivity].
  unfold bind at 1. unfold liftWeb at 1, modify at 1. cbn [ws_db setWebDb].
  destruct (String.eqb (rq_method record) "connect").
  - unfold bind at 1. unfold liftWeb at 1, modify at 1. cbn [ws_db setWebDb].
    unfold bind, ret.
    destruct (logApproval_run record logNow
                (setWebDb
                   (setWebDb
                      (setWebDb s (request_approve (ws_db s) (rq_id record) now))
                      (permitAllRequests (request_approve (ws_db s) (rq_id record) now)
                         (rq_remotePubkey record) keyName (rq_method record) None
                         (Some {| scope_kind := Some KindAll |})))
                   (permitAllRequests
                      (permitAllRequests (request_approve (ws_db s) (rq_id record) now)
                         (rq_remotePubkey record) keyName (rq_method record) None
                         (Some {| scope_kind := Some KindAll |}))
                      (rq_remotePubkey record) keyName "sign_event" None
                      (Some {| scope_kind := Some KindAll |})))) as (Hl & _).
    unfold setWebDb in *. cbn [ws_db ws_users ws_keys ws_logs] in *.
    destruct (logApproval record logNow _) as [[e|[]] s3]; cbn [fst snd] in *;
      [discriminate | reflexivity].
  - unfold bind at 1. unfold ret at 1.
    unfold bind, ret.
    destruct (logApproval_run record logNow
                (setWebDb
                   (setWebDb s (request_approve (ws_db s) (rq_id record) now))
                   (permitAllRequests (request_approve (ws_db s) (rq_id record) now)
                      (rq_remotePubkey record) keyName (rq_method record) None
                      (Some {| scope_kind := Some KindAll |})))) as (Hl & _).
    unfold setWebDb in *. cbn [ws_db ws_users ws_keys ws_logs] in *.
    destruct (logApproval record logNow _) as [[e|[]] s3]; cbn [fst snd] in *;
      [discriminate | reflexivity].
Qed.

End WebFacts.

Section StoreFrames.
Context {R : JsRuntime}.

Lemma permitAllRequests_requests (db : Db) (pubkey keyName method : string)
    (d : option string) (scope : option AllowScope) :
  requests (permitAllRequests db pubkey keyName method d scope) = requests db.
Proof.
  unfold permitAllRequests.
  destruct (upsert_conditions db keyName pubkey d) as (_ & _ & _ & _ & _ & Hr).
  destruct (keyUser_upsert db keyName pubkey d) as [u db1]. cbn [snd] in Hr.
  destruct (scopeToCondition method scope) as [m k]. exact Hr.
Qed.

Lemma approvedDb_requests (db : Db) (record : Request) (keyName : string) (now : Z) :
  requests (approvedDb db record keyName now)
  = requests (request_approve db (rq_id record) now).
Proof.
  unfold approvedDb. destruct (String.eqb (rq_method record) "connect");
    rewrite ?permitAllRequests_requests; reflexivity.
Qed.

Lemma request_approve_found (db : Db) (id : string) (record : Request) (now : Z) :
  request_findUnique db id = Some record ->
  exists approved,
    request_findUnique (request_approve db id now) id = Some approved
    /\ rq_allowed approved = Some true /\ rq_params approved = rq_params record
    /\ rq_id record = id.
Proof.
  intros Hf. unfold request_findUnique in *. cbn [requests request_approve withRequests].
  rewrite find_map_stable.
  - rewrite Hf. cbn [option_map]. apply find_some in Hf as [_ Hid].
    rewrite Hid. eexists. split; [reflexivity|]. cbn [rq_allowed rq_params].
    apply String.eqb_eq in Hid. auto.
  - intros x. destruct (String.eqb (rq_id x) id) eqn:E; cbn [rq_id]; exact E.
Qed.

End StoreFrames.

Section WebTheorems.
Context {R : JsRuntime} {B : Bcrypt}.
Variable nullKeyNameMessage : string.

(** What a call of the handler amounts to. *)
Lemma processRequestWebHandler_cases (keyStore : option (list (string * StoredKey)))
    (req : WebRequest) (now logNow : Z) (s : WebStore) :
  let result := processRequestWebHandler nullKeyNameMessage keyStore req now logNow s in
  (exists e, result = (ReplyUnauthorized e, s))
  \/ (exists record,
        request_findUnique (ws_db s) (wq_id req) = Some record
        /\ rq_allowed record = None /\ rq_keyName record = None
        /\ result = (ReplyUnauthorized nullKeyNameMessage,
                     setWebDb s (request_approve (ws_db s) (rq_id record) now)))
  \/ (exists record keyName user,
        request_findUnique (ws_db s) (wq_id req) = Some record
        /\ rq_allowed record = None /\ rq_keyName record = Some keyName
        /\ fst (authenticateUser keyStore record req s) = inr user
        /\ result = (ReplyOk (option_map usr_pubkey user),
                     snd (logApproval record logNow
                            (setWebDb s (approvedDb (ws_db s) record keyName now))))).
Proof.
  cbv zeta. unfold processRequestWebHandler. rewrite approveRequest_run.
  rewrite loadPendingRequest_run. cbn [fst].
  destruct (request_findUnique (ws_db s) (wq_id req)) as [record|] eqn:Ef;
    [|left; eauto].
  destruct (rq_allowed record) as [a|] eqn:Ea; cbn [isSome]; [left; eauto|].
  destruct (fst (authenticateUser keyStore record req s)) as [e|user] eqn:Eu;
    [left; eauto|].
  destruct (rq_keyName record) as [keyName|] eqn:Ek.
  - right. right. exists record, keyName, user. repeat split; assumption.
  - right. left. exists record. repeat split; assumption.
Qed.

(** X11: a refusal (401) of POST /requests/:id writes nothing: the request
    that is missing or already decided, and every failure of the
    authentication, are found before the first write.  The one exception is
    a pending request without key name that passes the cookie check: it is
    marked approved before the store refuses the grant. *)
Theorem web_approval_refusal_writes_nothing :
  forall (keyStore : option (list (string * StoredKey))) (req : WebRequest)
         (now logNow : Z) (s s' : WebStore) (error : string),
    processRequestWebHandler nullKeyNameMessage keyStore req now logNow s
      = (ReplyUnauthorized error, s') ->
    s' = s
    \/ exists record,
         request_findUnique (ws_db s) (wq_id req) = Some record
         /\ rq_keyName record = None
         /\ error = nullKeyNameMessage
         /\ s' = setWebDb s (request_approve (ws_db s) (rq_id record) now).
Proof.
  intros keyStore req now logNow s s' error H.
  destruct (processRequestWebHandler_cases keyStore req now logNow s)
    as [(e & He)|[(record & Hf & Ha & Hk & He)|(record & keyName & user & _ & _ & _ & _ & He)]];
    rewrite He in H.
  - left. congruence.
  - right. exists record. injection H as <- <-. auto.
  - discriminate.
Qed.

(** X12: a request is approved once: after an approval that went through,
    every further POST for the same request id, whatever it carries, is
    refused with "Request not found or already processed" and writes
    nothing. *)
Theorem web_approval_is_once_only :
  forall (keyStore : option (list (string * StoredKey))) (req : WebRequest)
         (now logNow : Z) (s s' : WebStore) (pubkey : option string),
    processRequestWebHandler nullKeyNameMessage keyStore req now logNow s
      = (ReplyOk pubkey, s') ->
    forall (keyStore2 : option (list (string * StoredKey))) (req2 : WebRequest)
           (now2 logNow2 : Z),
      wq_id req2 = wq_id req ->
      processRequestWebHandler nullKeyNameMessage keyStore2 req2 now2 logNow2 s'
        = (ReplyUnauthorized alreadyProcessed, s').
Proof.
  intros keyStore req now logNow s s' pubkey H keyStore2 req2 now2 logNow2 Hid.
  destruct (processRequestWebHandler_cases keyStore req now logNow s)
    as [(e & He)|[(record & Hf & Ha & Hk & He)|(record & keyName & user & Hf & Ha & Hk & Hu & He)]];
    rewrite He in H; try discriminate.
  injection H as _ <-.
  destruct (logApproval_run record logNow
              (setWebDb s (approvedDb (ws_db s) record keyName now))) as (_ & Hdb & _).
  destruct (request_approve_found (ws_db s) (wq_id req) record now Hf)
    as (approved & Hfound & Hallowed & _ & Hrid).
  unfold processRequestWebHandler. rewrite approveRequest_run, loadPendingRequest_run.
  cbn [fst]. unfold request_findUnique in *. rewrite Hdb. cbn [ws_db setWebDb].
  rewrite approvedDb_requests, Hrid, Hid, Hfound, Hallowed. reflexivity.
Qed.

(** X13: an approval that went through resolves the wait of
    [requestAuthorization]: the next poll of [awaitWebDecision] for that
    request finds it approved and resolves with its stored parameters. *)
Theorem web_approval_resolves_wait :
  forall (keyStore : option (list (string * StoredKey))) (req : WebRequest)
         (now logNow : Z) (s s' : WebStore) (pubkey : option string),
    processRequestWebHandler nullKeyNameMessage keyStore req now logNow s
      = (ReplyOk pubkey, s') ->
    exists record,
      request_findUnique (ws_db s) (wq_id req) = Some record
      /\ rq_allowed record = None
      /\ pollOnce (ws_db s') (awaitWebDecision (wq_id req))
         = {| wt_requestId := wq_id req; wt_intervalActive := false;
              wt_promise := Resolved (rq_params record) |}.
Proof.
  intros keyStore req now logNow s s' pubkey H.
  destruct (processRequestWebHandler_cases keyStore req now logNow s)
    as [(e & He)|[(record & Hf & Ha & Hk & He)|(record & keyName & user & Hf & Ha & Hk & Hu & He)]];
    rewrite He in H; try discriminate.
  injection H as _ <-. exists record. split; [exact Hf|]. split; [exact Ha|].
  destruct (logApproval_run record logNow
              (setWebDb s (approvedDb (ws_db s) record keyName now))) as (_ & Hdb & _).
  destruct (request_approve_found (ws_db s) (wq_id req) record now Hf)
    as (approved & Hfound & Hallowed & Hparams & Hrid).
  unfold pollOnce, awaitWebDecision. cbn [wt_intervalActive wt_requestId wt_promise].
  unfold request_findUnique in *. rewrite Hdb. cbn [ws_db setWebDb].
  rewrite approvedDb_requests, Hrid, Hfound, Hallowed, Hparams. reflexivity.
Qed.

End WebTheorems.

Section GrantsLater.
Context {R : JsRuntime}.

Lemma granted_after (db : Db) (after : list StoreOp)
    (clientPubkey keyName method : string) (description : option string)
    (scope : option AllowScope) (payload : option Payload) :
  StoreIntegrity db ->
  let db2 :=
    applyOps after (permitAllRequests db clientPubkey keyName method description scope) in
  inGoodStanding db2 keyName clientPubkey ->
  (method <> "sign_event" \/ inKindSet payload (snd (scopeToCondition method scope))) ->
  isRequestPermitted db2 keyName clientPubkey method payload = Some true.
Proof.
  intros Hdb db2 Hg Hk.
  set (granted := permitAllRequests db clientPubkey keyName method description scope) in *.
  assert (Hi : StoreIntegrity db2).
  { apply integrity_applyOps, integrity_permitAllRequests. exact Hdb. }
  destruct (permitAllRequests_rows db clientPubkey keyName method description scope)
    as [Hf Hrows].
  fold granted in Hf, Hrows.
  destruct (Extends_applyOps after granted) as [Hu Hc]. fold db2 in Hu, Hc.
  destruct (Hu _ _ _ Hf) as (u' & Hf' & Hid).
  destruct (Hg u' Hf') as [Hr Hnv].
  eapply granted_when_applicable; try eassumption.
  - apply Hc. rewrite Hrows. apply in_or_app. right. left. reflexivity.
  - rewrite Hid. split; [reflexivity|]. split; [reflexivity|].
    intros Hs. destruct Hk as [Hk|Hk]; [contradiction | exact Hk].
Qed.

Lemma all_kinds_cover (payload : option Payload) : inKindSet payload (Some "all").
Proof. exists "all". split; [reflexivity|]. left. reflexivity. Qed.

Lemma integrity_request_approve (db : Db) (id : string) (now : Z) :
  StoreIntegrity db -> StoreIntegrity (request_approve db id now).
Proof. apply integrity_same_tables; reflexivity. Qed.

(** The grants of an approval, read in the store it leaves. *)
Lemma approvedDb_grants (db : Db) (record : Request) (keyName : string) (now : Z)
    (payload : option Payload) :
  StoreIntegrity db ->
  inGoodStanding (approvedDb db record keyName now) keyName (rq_remotePubkey record) ->
  isRequestPermitted (approvedDb db record keyName now) keyName (rq_remotePubkey record)
    (rq_method record) payload = Some true
  /\ (rq_method record = "connect" ->
      isRequestPermitted (approvedDb db record keyName now) keyName
        (rq_remotePubkey record) "sign_event" payload = Some true).
Proof.
  intros Hi. unfold approvedDb.
  set (A := request_approve db (rq_id record) now).
  assert (HA : StoreIntegrity A) by (apply integrity_request_approve; exact Hi).
  set (scope := Some {| scope_kind := Some KindAll |}).
  destruct (String.eqb_spec (rq_method record) "connect") as [Hm|Hm]; intros Hg.
  - split.
    + apply (granted_after A
               [OpPermitAllRequests (rq_remotePubkey record) keyName "sign_event" None scope]
               (rq_remotePubkey record) keyName (rq_method record) None scope payload HA).
      * exact Hg.
      * right. apply all_kinds_cover.
    + intros _.
      apply (granted_after _ [] (rq_remotePubkey record) keyName "sign_event" None scope
               payload).
      * apply integrity_permitAllRequests. exact HA.
      * exact Hg.
      * right. apply all_kinds_cover.
  - split; [|contradiction].
    apply (granted_after A [] (rq_remotePubkey record) keyName (rq_method record) None
             scope payload HA); [exact Hg|].
    right. apply all_kinds_cover.
Qed.

End GrantsLater.

Section WebGrant.
Context {R : JsRuntime} {B : Bcrypt}.
Variable nullKeyNameMessage : string.

(** X14: every approval on the web page is a standing grant: after it, a
    client that is neither revoked nor under a veto is allowed the method of
    the approved request, for [sign_event] whatever the kind of the event,
    without being asked again; the approval of a [connect] request allows
    [sign_event] of every kind as well. *)
Theorem web_approval_is_standing_grant :
  forall (ops : list StoreOp) (users : list User) (keys : list KeyRow)
         (logs : list LogEntry) (keyStore : option (list (string * StoredKey)))
         (req : WebRequest) (now logNow : Z) (s' : WebStore)
         (pubkey : option string),
    processRequestWebHandler nullKeyNameMessage keyStore req now logNow
      {| ws_db := applyOps ops emptyDb; ws_users := users; ws_keys := keys;
         ws_logs := logs |}
      = (ReplyOk pubkey, s') ->
    exists record keyName,
      request_findUnique (applyOps ops emptyDb) (wq_id req) = Some record
      /\ rq_keyName record = Some keyName
      /\ (inGoodStanding (ws_db s') keyName (rq_remotePubkey record) ->
          forall payload,
            isRequestPermitted (ws_db s') keyName (rq_remotePubkey record)
              (rq_method record) payload = Some true
            /\ (rq_method record = "connect" ->
                isRequestPermitted (ws_db s') keyName (rq_remotePubkey record)
                  "sign_event" payload = Some true)).
Proof.
  intros ops users keys logs keyStore req now logNow s' pubkey H.
  set (s := {| ws_db := applyOps ops emptyDb; ws_users := users; ws_keys := keys;
               ws_logs := logs |}) in *.
  destruct (processRequestWebHandler_cases nullKeyNameMessage keyStore req now logNow s)
    as [(e & He)|[(record & Hf & Ha & Hk & He)|(record & keyName & user & Hf & Ha & Hk & Hu & He)]];
    rewrite He in H; try discriminate.
  injection H as _ <-. exists record, keyName. split; [exact Hf|]. split; [exact Hk|].
  destruct (logApproval_run record logNow
              (setWebDb s (approvedDb (ws_db s) record keyName now))) as (_ & Hdb & _).
  change (ws_db s) with (applyOps ops emptyDb) in Hdb.
  rewrite Hdb. cbn [ws_db setWebDb]. intros Hg payload.
  apply approvedDb_grants; [apply integrity_reachable | exact Hg].
Qed.

End WebGrant.

Section WebCredentials.
Context {R : JsRuntime} {B : Bcrypt}.
Variable nullKeyNameMessage : string.

Lemma validateAuthCookie_true (req : WebRequest) (s : WebStore) :
  fst (validateAuthCookie req s) = inr true -> validCookie s req.
Proof.
  unfold validateAuthCookie, validCookie. destruct (wq_jwt req) as [token|]; [|discriminate].
  destruct (strTruthy token) eqn:Et; cbn [negb]; [|discriminate].
  unfold bind, gets, ret. cbn [fst].
  destruct (user_findByPubkey s token) as [user|] eqn:Eu; cbn [isSome]; [|discriminate].
  intros _. exists token, user. split; [reflexivity|].
  split; [apply strTruthy_nonempty; exact Et | exact Eu].
Qed.

Lemma nth_error_two {A : Type} (l : list A) (a b : A) :
  nth_error l 0 = Some a -> nth_error l 1 = Some b -> exists rest, l = a :: b :: rest.
Proof.
  destruct l as [|x [|y rest]]; simpl; try discriminate.
  intros H1 H2. injection H1 as ->. injection H2 as ->. eauto.
Qed.

(** The three ways through [authenticateUser]. *)
Lemma authenticateUser_passes (keyStore : option (list (string * StoredKey)))
    (record : Request) (req : WebRequest) (s : WebStore) (user : option User) :
  fst (authenticateUser keyStore record req s) = inr user ->
  (validCookie s req /\ user = user_findByPubkey s (rq_remotePubkey record))
  \/ (user = None
      /\ exists keyName store,
           rq_keyName record = Some keyName /\ keyName <> EmptyString
           /\ keyStore = Some store /\ isPlainKey (assocLast keyName store) = true)
  \/ (exists keyName username domain rest password account,
        rq_keyName record = Some keyName
        /\ splitOn "@" keyName = username :: domain :: rest
        /\ wq_password req = Some password /\ password <> EmptyString
        /\ user_findUnique s username domain = Some account
        /\ bcrypt_compare password (usr_password account) = true
        /\ user = Some account).
Proof.
  unfold authenticateUser. unfold bind at 1.
  pose proof (validateAuthCookie_reads req s) as Hs.
  pose proof (validateAuthCookie_true req s) as Hc.
  destruct (validateAuthCookie req s) as [[e|cookie] s0]; cbn [fst snd] in Hs, Hc;
    subst s0; [discriminate|].
  destruct cookie.
  { unfold gets. cbn [fst]. intros H. injection H as <-. left. split; [auto|reflexivity]. }
  clear Hc.
  assert (Hplain : forall k,
             isPlainKey
               match keyStore with
               | Some store => assocLast k store
               | None => None
               end = true ->
             exists store, keyStore = Some store
                           /\ isPlainKey (assocLast k store) = true).
  { intros k. destruct keyStore as [store|]; [eauto | discriminate]. }
  destruct (rq_keyName record) as [k|].
  - destruct (strTruthy k) eqn:Ek; cbn [negb].
    + destruct (isPlainKey _) eqn:Ep.
      * intros H. injection H as <-. right. left. split; [reflexivity|].
        destruct (Hplain k Ep) as (store & Hst & Hp). exists k, store.
        split; [reflexivity|]. split; [apply strTruthy_nonempty; exact Ek|]. auto.
      * clear Hplain Ep.
        destruct (nth_error (splitOn "@" k) 0) as [username|] eqn:E0; [|discriminate].
        destruct (nth_error (splitOn "@" k) 1) as [domain|] eqn:E1; [|discriminate].
        destruct (negb (strTruthy username) || negb (strTruthy domain)); [discriminate|].
        destruct (wq_password req) as [password|]; [|discriminate].
        destruct (strTruthy password) eqn:Epw; cbn [negb]; [|discriminate].
        unfold bind, gets.
        destruct (user_findUnique s username domain) as [account|] eqn:Eu; [|discriminate].
        destruct (bcrypt_compare password (usr_password account)) eqn:Eb; [|discriminate].
        intros H. injection H as <-. right. right.
        destruct (nth_error_two _ _ _ E0 E1) as (rest & Hsplit).
        exists k, username, domain, rest, password, account.
        split; [reflexivity|]. split; [exact Hsplit|]. split; [reflexivity|].
        split; [apply strTruthy_nonempty; exact Epw|]. auto.
    + destruct (isPlainKey _) eqn:Ep; [|discriminate].
      destruct keyStore; discriminate Ep.
  - destruct (isPlainKey _) eqn:Ep; [|discriminate]. discriminate Ep.
Qed.

(** X20: what an approval on the web page takes.  A POST /requests/:id is
    answered 200 only for a pending request with a key name, and only in one
    of three ways: with a [jwt] cookie that is the pubkey of some registered
    user (any user, and the answer then names the pubkey of the user
    registered under the client's pubkey, if any); or, without such a cookie,
    when the key of the request is stored in plain text (no credentials are
    asked, and the answer names no pubkey); or, without such a cookie and for
    another key, with the password of the account [username@domain] that the
    key name spells, checked by [bcrypt.compare]. *)
Theorem web_approval_needs_credentials :
  forall (keyStore : option (list (string * StoredKey))) (req : WebRequest)
         (now logNow : Z) (s s' : WebStore) (pubkey : option string),
    processRequestWebHandler nullKeyNameMessage keyStore req now logNow s
      = (ReplyOk pubkey, s') ->
    exists record keyName,
      request_findUnique (ws_db s) (wq_id req) = Some record
      /\ rq_allowed record = None /\ rq_keyName record = Some keyName
      /\ ((validCookie s req
           /\ pubkey = option_map usr_pubkey
                         (user_findByPubkey s (rq_remotePubkey record)))
          \/ (pubkey = None /\ keyName <> EmptyString
              /\ exists store, keyStore = Some store
                               /\ isPlainKey (assocLast keyName store) = true)
          \/ (exists username domain rest password account,
                splitOn "@" keyName = username :: domain :: rest
                /\ wq_password req = Some password /\ password <> EmptyString
                /\ user_findUnique s username domain = Some account
                /\ bcrypt_compare password (usr_password account) = true
                /\ pubkey = Some (usr_pubkey account))).
Proof.
  intros keyStore req now logNow s s' pubkey H.
  destruct (processRequestWebHandler_cases nullKeyNameMessage keyStore req now logNow s)
    as [(e & He)|[(record & Hf & Ha & Hk & He)|(record & keyName & user & Hf & Ha & Hk & Hu & He)]];
    rewrite He in H; try discriminate.
  injection H as <- _. exists record, keyName.
  split; [exact Hf|]. split; [exact Ha|]. split; [exact Hk|].
  destruct (authenticateUser_passes keyStore record req s user Hu)
    as [[Hc ->]|[(-> & k & store & Hk' & Hne & Hst & Hp)
                |(k & username & domain & rest & password & account & Hk' & Hsp & Hpw
                  & Hne & Hacc & Hb & ->)]].
  - left. split; [exact Hc | reflexivity].
  - right. left. rewrite Hk in Hk'. injection Hk' as <-.
    split; [reflexivity|]. split; [exact Hne|]. exists store. auto.
  - right. right. rewrite Hk in Hk'. injection Hk' as <-.
    exists username, domain, rest, password, account. repeat split; assumption.
Qed.

End WebCredentials.

(* ------------------------------------------------------------------------- *)
(** * The wait for the key of a new account *)

Section KeyWaitFacts.
Local Open Scope Z_scope.

Lemma runKeyWait_cleared (keyName : string) (runs : list (list KeyRow * Z))
    (kw : KeyWaiter) :
  kw_intervalActive kw = false -> runKeyWait keyName runs kw = kw.
Proof.
  induction runs as [|[keys elapsed] runs IH]; intros H; simpl; [reflexivity|].
  unfold pollKey. rewrite H. apply IH. exact H.
Qed.

Lemma runKeyWait_app (keyName : string) (a b : list (list KeyRow * Z)) (kw : KeyWaiter) :
  runKeyWait keyName (a ++ b) kw = runKeyWait keyName b (runKeyWait keyName a kw).
Proof.
  revert kw. induction a as [|[keys elapsed] a IH]; intros kw; simpl; [reflexivity|].
  apply IH.
Qed.

Lemma runKeyWait_waiting (keyName : string) (runs : list (list KeyRow * Z)) :
  stillWaiting keyName runs ->
  runKeyWait keyName runs waitForKeyCreation = waitForKeyCreation.
Proof.
  induction 1 as [|[keys elapsed] runs [Hk He] _ IH]; [reflexivity|].
  cbn [fst snd] in Hk, He. cbn [runKeyWait].
  replace (pollKey keyName keys elapsed waitForKeyCreation) with waitForKeyCreation;
    [exact IH|].
  unfold pollKey. cbn [kw_intervalActive waitForKeyCreation]. rewrite Hk.
  destruct (Z.ltb_spec 60000 elapsed); [lia | reflexivity].
Qed.

(** X15: the wait for the key of a new account goes on as long as the runs
    of its callback neither find the key nor read more than 60 s on the
    clock.  The first run that finds the key resolves the promise with the
    pubkey of the key, even when it reads more than 60 s; the first run that
    does not find it and reads more than 60 s rejects with a timeout.  Either
    way the interval is cleared and later runs change nothing. *)
Theorem key_creation_wait_settles :
  forall (keyName : string) (before : list (list KeyRow * Z)) (keys : list KeyRow)
         (elapsed : Z) (after : list (list KeyRow * Z)),
    stillWaiting keyName before ->
    runKeyWait keyName before waitForKeyCreation = waitForKeyCreation
    /\ (forall record : KeyRow,
          key_findUnique keys keyName = Some record ->
          runKeyWait keyName (before ++ (keys, elapsed) :: after) waitForKeyCreation
          = {| kw_intervalActive := false;
               kw_promise := Resolved (Some (key_pubkey record)) |})
    /\ (key_findUnique keys keyName = None -> 60000 < elapsed ->
        runKeyWait keyName (before ++ (keys, elapsed) :: after) waitForKeyCreation
        = {| kw_intervalActive := false; kw_promise := Rejected keyCreationTimeout |}).
Proof.
  intros keyName before keys elapsed after Hw.
  pose proof (runKeyWait_waiting keyName before Hw) as Hb.
  split; [exact Hb|]. split.
  - intros record Hk. rewrite runKeyWait_app, Hb. cbn [runKeyWait].
    replace (pollKey keyName keys elapsed waitForKeyCreation)
      with {| kw_intervalActive := false;
              kw_promise := Resolved (Some (key_pubkey record)) |};
      [apply runKeyWait_cleared; reflexivity|].
    unfold pollKey. cbn [kw_intervalActive waitForKeyCreation]. rewrite Hk.
    destruct (Z.ltb 60000 elapsed); reflexivity.
  - intros Hk He. rewrite runKeyWait_app, Hb. cbn [runKeyWait].
    replace (pollKey keyName keys elapsed waitForKeyCreation)
      with {| kw_intervalActive := false; kw_promise := Rejected keyCreationTimeout |};
      [apply runKeyWait_cleared; reflexivity|].
    unfold pollKey. cbn [kw_intervalActive waitForKeyCreation]. rewrite Hk.
    destruct (Z.ltb_spec 60000 elapsed); [reflexivity | lia].
Qed.

End KeyWaitFacts.

(* ------------------------------------------------------------------------- *)
(** * The answers of the administrators on the relay *)

Section RelayFacts.
Context {R : JsRuntime}.

Lemma getIndex_defined (parsed : Js) (i j : nat) (v : option Js) :
  getIndex parsed i = Some v -> exists w, getIndex parsed j = Some w.
Proof. destruct parsed; simpl; intros H; try discriminate; eauto. Qed.

(** [handlePermissionResponse] once the answer has been parsed and its
    first element read. *)
Lemma handlePermissionResponse_parsed (remotePubkey keyName method result : string)
    (db : Db) (parsed : Js) (decision : option Js) :
  keyName <> EmptyString ->
  JSON_parse result = Some parsed -> getIndex parsed 0 = Some decision ->
  exists description scope,
    getIndex parsed 1 = Some description /\ getIndex parsed 2 = Some scope
    /\ handlePermissionResponse remotePubkey (Some keyName) method result db =
       if isJsString decision "always" then
         match permitAllRequestsJs remotePubkey keyName method description scope db with
         | (inr _, db') => (Some true, db')
         | (inl _, db') => (None, db')
         end
       else if isJsString decision "never" then
         (Some false, blockAllRequests db remotePubkey keyName)
       else if isJsString decision "allow" || isJsBool decision true then (Some true, db)
       else if isJsString decision "deny" || isJsBool decision false then (Some false, db)
       else (None, db).
Proof.
  intros Hk Hp Hd.
  destruct (getIndex_defined parsed 0 1 decision Hd) as (description & H1).
  destruct (getIndex_defined parsed 0 2 decision Hd) as (scope & H2).
  exists description, scope. split; [exact H1|]. split; [exact H2|].
  unfold handlePermissionResponse.
  apply strTruthy_nonempty in Hk. rewrite Hk, Hp, Hd, H1, H2. reflexivity.
Qed.

Lemma permitAllRequestsJs_run (remotePubkey keyName method : string)
    (description scope : option Js) (d : option string) (k : option string) (db : Db) :
  descriptionArgument description = Some d ->
  scopeToConditionJs method scope = Some (method, k) ->
  permitAllRequestsJs remotePubkey keyName method description scope db
  = (inr tt,
     signingCondition_create (snd (keyUser_upsert db keyName remotePubkey d))
       (ku_id (fst (keyUser_upsert db keyName remotePubkey d))) method k (Some true)).
Proof.
  intros Hd Hs. unfold permitAllRequestsJs. rewrite Hd. unfold bind, update.
  destruct (keyUser_upsert db keyName remotePubkey d) as [u db1]. rewrite Hs. reflexivity.
Qed.

Lemma scopeToConditionJs_method (method : string) (scope : option Js) (m : string)
    (k : option string) :
  scopeToConditionJs method scope = Some (m, k) -> m = method.
Proof.
  unfold scopeToConditionJs. destruct scope as [s|]; [|congruence].
  destruct (negb (truthy s)); [congruence|].
  destruct (getProp s "kind") as [kind|]; [|congruence].
  destruct (jsToString kind); congruence.
Qed.

(** What [permitAllRequestsJs] can leave behind: nothing, a KeyUser, or a
    KeyUser and its grant. *)
Lemma permitAllRequestsJs_extends (remotePubkey keyName method : string)
    (description scope : option Js) (db : Db) :
  Extends db (snd (permitAllRequestsJs remotePubkey keyName method description scope db)).
Proof.
  unfold permitAllRequestsJs.
  destruct (descriptionArgument description) as [d|]; [|apply Extends_refl].
  unfold bind, update.
  pose proof (Extends_upsert db keyName remotePubkey d) as Hu.
  destruct (keyUser_upsert db keyName remotePubkey d) as [u db1]. cbn [snd] in Hu.
  destruct (scopeToConditionJs method scope) as [[m k]|]; [|exact Hu].
  eapply Extends_trans; [exact Hu | apply Extends_create].
Qed.

Lemma handlePermissionResponse_writes (remotePubkey : string) (keyName : option string)
    (method result : string) (db : Db) :
  snd (handlePermissionResponse remotePubkey keyName method result db) = db
  \/ exists parsed,
       JSON_parse result = Some parsed
       /\ (getIndex parsed 0 = Some (Some (JString "always"))
           \/ getIndex parsed 0 = Some (Some (JString "never"))).
Proof.
  unfold handlePermissionResponse.
  destruct keyName as [keyName|]; [|left; reflexivity].
  destruct (negb (strTruthy keyName)); [left; reflexivity|].
  destruct (JSON_parse result) as [parsed|]; [|left; reflexivity].
  destruct (getIndex parsed 0) as [decision|] eqn:E0; [|left; reflexivity].
  destruct (getIndex parsed 1) as [description|]; [|left; reflexivity].
  destruct (getIndex parsed 2) as [scope|]; [|left; reflexivity].
  assert (Hs : forall s, isJsString decision s = true -> decision = Some (JString s)).
  { intros s. unfold isJsString. destruct decision as [[]|]; try discriminate.
    intros H. apply String.eqb_eq in H. rewrite H. reflexivity. }
  destruct (isJsString decision "always") eqn:Ea.
  { right. exists parsed. split; [reflexivity|]. left. rewrite E0, (Hs _ Ea). reflexivity. }
  destruct (isJsString decision "never") eqn:En.
  { right. exists parsed. split; [reflexivity|]. right. rewrite E0, (Hs _ En). reflexivity. }
  left. destruct (isJsString decision "allow" || isJsBool decision true); [reflexivity|].
  destruct (isJsString decision "deny" || isJsBool decision false); reflexivity.
Qed.

Lemma handlePermissionResponse_approval (remotePubkey : string) (keyName : option string)
    (method result : string) (db : Db) :
  fst (handlePermissionResponse remotePubkey keyName method result db) = Some true ->
  exists parsed decision,
    JSON_parse result = Some parsed /\ getIndex parsed 0 = Some (Some decision)
    /\ (decision = JString "always" \/ decision = JString "allow"
        \/ decision = JBool true).
Proof.
  unfold handlePermissionResponse.
  destruct keyName as [keyName|]; [|discriminate].
  destruct (negb (strTruthy keyName)); [discriminate|].
  destruct (JSON_parse result) as [parsed|]; [|discriminate].
  destruct (getIndex parsed 0) as [decision|] eqn:E0; [|discriminate].
  destruct (getIndex parsed 1) as [description|]; [|discriminate].
  destruct (getIndex parsed 2) as [scope|]; [|discriminate].
  assert (Hs : forall s, isJsString decision s = true -> decision = Some (JString s)).
  { intros s. unfold isJsString. destruct decision as [[]|]; try discriminate.
    intros H. apply String.eqb_eq in H. rewrite H. reflexivity. }
  assert (Hb : forall b, isJsBool decision b = true -> decision = Some (JBool b)).
  { intros b. unfold isJsBool. destruct decision as [[]|]; try discriminate.
    intros H. apply Bool.eqb_prop in H. rewrite H. reflexivity. }
  destruct (isJsString decision "always") eqn:Ea.
  { intros _. exists parsed, (JString "always"). rewrite E0, (Hs _ Ea). auto. }
  destruct (isJsString decision "never"); [discriminate|].
  destruct (isJsString decision "allow") eqn:El.
  { intros _. exists parsed, (JString "allow"). rewrite E0, (Hs _ El). auto. }
  destruct (isJsBool decision true) eqn:Et.
  { intros _. exists parsed, (JBool true). rewrite E0, (Hb _ Et). auto. }
  cbn [orb]. destruct (isJsString decision "deny" || isJsBool decision false);
    discriminate.
Qed.

(** X16: an administrator's "never" on the relay path blocks the client
    for good: the pending request is refused, and from then on, whatever the
    daemon writes, the authorisation callback of the key refuses every
    request of that client at once, without storing a Request and without
    sending anything. *)
Theorem relay_never_blocks_for_good :
  forall (remotePubkey keyName method result : string) (parsed : Js) (db : Db),
    keyName <> EmptyString ->
    JSON_parse result = Some parsed ->
    getIndex parsed 0 = Some (Some (JString "never")) ->
    let answer := handlePermissionResponse remotePubkey (Some keyName) method result db in
    fst answer = Some false
    /\ forall (npubEncode : string -> option string) (ops : list StoreOp) (w : World)
              (configBaseUrl : option string) (relayDecision : option bool)
              (newId : string) (now : Z) (id method' : string)
              (params : option (list Payload)),
         npubEncode remotePubkey <> None ->
         w_db w = applyOps ops (snd answer) ->
         buildAuthorizationCallback npubEncode keyName configBaseUrl relayDecision newId
           now id method' remotePubkey params w = (Decided false, w).
Proof.
  intros remotePubkey keyName method result parsed db Hk Hp Hd answer.
  destruct (handlePermissionResponse_parsed remotePubkey keyName method result db parsed
              _ Hk Hp Hd) as (description & scope & _ & _ & Hrun).
  cbn [isJsString String.eqb Ascii.eqb Bool.eqb] in Hrun.
  subst answer. rewrite Hrun. split; [reflexivity|].
  intros npubEncode ops w configBaseUrl relayDecision newId now id method' params He Hw.
  cbn [snd] in Hw.
  destruct (blockAllRequests_vetoes db remotePubkey keyName) as (u & Hf & c & Hin & Hv).
  destruct (Extends_applyOps ops (blockAllRequests db remotePubkey keyName)) as [Hu Hc].
  destruct (Hu _ _ _ Hf) as (u' & Hf' & Hid).
  unfold buildAuthorizationCallback.
  destruct (npubEncode remotePubkey) as [humanPubkey|]; [|contradiction].
  rewrite Hw.
  rewrite (veto_denies _ keyName remotePubkey method'
             match params with Some (first :: _) => Some first | _ => None end u' Hf').
  - reflexivity.
  - exists c. split; [apply Hc; exact Hin | rewrite Hid; exact Hv].
Qed.

(** The grant of an "always", read in the stores that follow. *)
Lemma created_grant_permits (db : Db) (after : list StoreOp)
    (pubkey keyName method : string) (d : option string) (k : option string)
    (payload : option Payload) :
  StoreIntegrity db ->
  let db2 :=
    applyOps after
      (signingCondition_create (snd (keyUser_upsert db keyName pubkey d))
         (ku_id (fst (keyUser_upsert db keyName pubkey d))) method k (Some true)) in
  inGoodStanding db2 keyName pubkey ->
  (method <> "sign_event" \/ inKindSet payload k) ->
  isRequestPermitted db2 keyName pubkey method payload = Some true.
Proof.
  intros Hdb db2 Hg Hk.
  destruct (integrity_upsert db keyName pubkey d Hdb) as [Hi1 Hin1].
  pose proof (upsert_found db keyName pubkey d) as Hf.
  set (u := fst (keyUser_upsert db keyName pubkey d)) in *.
  set (db1 := snd (keyUser_upsert db keyName pubkey d)) in *.
  set (granted := signingCondition_create db1 (ku_id u) method k (Some true)) in *.
  assert (Hig : StoreIntegrity granted).
  { apply integrity_create; [exact Hi1 | exists u; split; [exact Hin1|reflexivity] | left; reflexivity]. }
  assert (Hi : StoreIntegrity db2) by (apply integrity_applyOps; exact Hig).
  destruct (Extends_applyOps after granted) as [Hu Hc]. fold db2 in Hu, Hc.
  destruct (Hu keyName pubkey u Hf) as (u' & Hf' & Hid).
  destruct (Hg u' Hf') as [Hr Hnv].
  eapply granted_when_applicable; try eassumption.
  - apply Hc. unfold granted. cbn. apply in_or_app. right. left. reflexivity.
  - rewrite Hid. split; [reflexivity|]. split; [reflexivity|].
    intros Hs. destruct Hk as [Hk|Hk]; [contradiction | exact Hk].
Qed.

(** X17: an administrator's "always" on the relay path is a standing
    grant.  When the description and the scope of the answer are well formed,
    the pending request is approved, and from then on a client that is neither
    revoked nor under a veto is allowed the method without being asked again:
    for [sign_event] when the kind of the answer's scope is "all" or the kind
    of the event, for every other method whatever the scope. *)
Theorem relay_always_is_standing_grant :
  forall (ops after : list StoreOp) (remotePubkey keyName method result : string)
         (parsed : Js) (description scope : option Js) (d k : option string)
         (payload : option Payload),
    keyName <> EmptyString ->
    JSON_parse result = Some parsed ->
    getIndex parsed 0 = Some (Some (JString "always")) ->
    getIndex parsed 1 = Some description -> descriptionArgument description = Some d ->
    getIndex parsed 2 = Some scope -> scopeToConditionJs method scope = Some (method, k) ->
    let answer :=
      handlePermissionResponse remotePubkey (Some keyName) method result
        (applyOps ops emptyDb) in
    let later := applyOps after (snd answer) in
    fst answer = Some true
    /\ (inGoodStanding later keyName remotePubkey ->
        (method <> "sign_event" \/ inKindSet payload k) ->
        isRequestPermitted later keyName remotePubkey method payload = Some true).
Proof.
  intros ops after remotePubkey keyName method result parsed description scope d k
    payload Hk Hp H0 H1 Hd H2 Hs answer later.
  destruct (handlePermissionResponse_parsed remotePubkey keyName method result
              (applyOps ops emptyDb) parsed _ Hk Hp H0)
    as (description' & scope' & H1' & H2' & Hrun).
  rewrite H1 in H1'. injection H1' as <-. rewrite H2 in H2'. injection H2' as <-.
  cbn [isJsString String.eqb Ascii.eqb Bool.eqb] in Hrun.
  rewrite (permitAllRequestsJs_run remotePubkey keyName method description scope d k
             (applyOps ops emptyDb) Hd Hs) in Hrun.
  subst later answer. rewrite Hrun. cbn [fst snd]. split; [reflexivity|].
  apply created_grant_permits. apply integrity_reachable.
Qed.

(** X18: what an answer on the relay path can do.  It writes to the store
    only when it parses as JSON and its first element is "always" or "never";
    it approves the request only when its first element is "always", "allow"
    or [true]; and whatever it is, it removes no KeyUser and no
    SigningCondition. *)
Theorem relay_answer_effects :
  forall (remotePubkey : string) (keyName : option string) (method result : string)
         (db : Db),
    let answer := handlePermissionResponse remotePubkey keyName method result db in
    (snd answer = db
     \/ exists parsed,
          JSON_parse result = Some parsed
          /\ (getIndex parsed 0 = Some (Some (JString "always"))
              \/ getIndex parsed 0 = Some (Some (JString "never"))))
    /\ (fst answer <> Some true
        \/ exists parsed decision,
             JSON_parse result = Some parsed /\ getIndex parsed 0 = Some (Some decision)
             /\ (decision = JString "always" \/ decision = JString "allow"
                 \/ decision = JBool true))
    /\ Extends db (snd answer).
Proof.
  intros remotePubkey keyName method result db answer. subst answer.
  split; [apply handlePermissionResponse_writes|]. split.
  - destruct (fst (handlePermissionResponse remotePubkey keyName method result db))
      as [[|]|] eqn:E; [right|left; discriminate|left; discriminate].
    apply handlePermissionResponse_approval with (1 := E).
  - destruct (handlePermissionResponse_writes remotePubkey keyName method result db)
      as [->|(parsed & Hp & Hd)]; [apply Extends_refl|].
    unfold handlePermissionResponse.
    destruct keyName as [keyName|]; [|apply Extends_refl].
    destruct (negb (strTruthy keyName)); [apply Extends_refl|].
    rewrite Hp.
    assert (H0 : exists dec, getIndex parsed 0 = Some (Some (JString dec))
                             /\ (dec = "always" \/ dec = "never")).
    { destruct Hd as [Hd|Hd]; eauto. }
    destruct H0 as (dec & H0 & Hdec). rewrite H0.
    destruct (getIndex parsed 1) as [description|]; [|apply Extends_refl].
    destruct (getIndex parsed 2) as [scope|]; [|apply Extends_refl].
    destruct Hdec as [->| ->]; cbn [isJsString String.eqb Ascii.eqb Bool.eqb].
    + pose proof (permitAllRequestsJs_extends remotePubkey keyName method description
                    scope db) as He.
      destruct (permitAllRequestsJs remotePubkey keyName method description scope db)
        as [[e|[]] db']; exact He.
    + exact (Extends_applyOp (OpBlockAllRequests remotePubkey keyName) db).
Qed.

End RelayFacts.

(* ------------------------------------------------------------------------- *)
(** * The unlock command *)





Section UnlockFacts.
Context {R : JsRuntime} {C : NodeCrypto}.



End UnlockFacts.


(* ------------------------------------------------------------------------- *)
(** * The properties of the approvals and of the key ring on concrete inputs *)

Section BrokerWitnesses.
#[local] Existing Instance MiniJs.runtime.
#[local] Existing Instance Nip19.tools.
#[local] Existing Instance NoPasswords.bcrypt.

Lemma web_approval_refusal_writes_nothing_witness :
  let s := webStoreOf (applyOps pendingConnect emptyDb) in
  processRequestWebHandler "Argument keyName must not be null" None approvalPost 5%Z 6%Z s
  = (ReplyUnauthorized "Invalid key identifier", s)
  /\ (s = s
      \/ exists record,
           request_findUnique (ws_db s) "req-1" = Some record
           /\ rq_keyName record = None
           /\ "Invalid key identifier" = "Argument keyName must not be null"
           /\ s = setWebDb s (request_approve (ws_db s) (rq_id record) 5%Z)).
Proof.
  split; [reflexivity|].
  exact (web_approval_refusal_writes_nothing "Argument keyName must not be null" None
           approvalPost 5%Z 6%Z (webStoreOf (applyOps pendingConnect emptyDb))
           (webStoreOf (applyOps pendingConnect emptyDb)) "Invalid key identifier"
           eq_refl).
Defined.

Lemma web_approval_is_once_only_witness :
  processRequestWebHandler "Argument keyName must not be null" None
    {| wq_id := "req-1"; wq_jwt := Some "client-pubkey"; wq_password := Some "secret" |}
    7%Z 8%Z approvedStore
  = (ReplyUnauthorized alreadyProcessed, approvedStore).
Proof.
  exact (web_approval_is_once_only "Argument keyName must not be null" plainKeyStore
           approvalPost 5%Z 6%Z (webStoreOf (applyOps pendingConnect emptyDb))
           approvedStore None eq_refl None
           {| wq_id := "req-1"; wq_jwt := Some "client-pubkey";
              wq_password := Some "secret" |} 7%Z 8%Z eq_refl).
Defined.

Lemma web_approval_resolves_wait_witness :
  exists record,
    request_findUnique (applyOps pendingConnect emptyDb) "req-1" = Some record
    /\ rq_allowed record = None
    /\ pollOnce (ws_db approvedStore) (awaitWebDecision "req-1")
       = {| wt_requestId := "req-1"; wt_intervalActive := false;
            wt_promise := Resolved (rq_params record) |}.
Proof.
  exact (web_approval_resolves_wait "Argument keyName must not be null" plainKeyStore
           approvalPost 5%Z 6%Z (webStoreOf (applyOps pendingConnect emptyDb))
           approvedStore None eq_refl).
Defined.

Lemma web_approval_is_standing_grant_witness :
  exists record keyName,
    request_findUnique (applyOps pendingConnect emptyDb) "req-1" = Some record
    /\ rq_keyName record = Some keyName
    /\ (inGoodStanding (ws_db approvedStore) keyName (rq_remotePubkey record) ->
        forall payload,
          isRequestPermitted (ws_db approvedStore) keyName (rq_remotePubkey record)
            (rq_method record) payload = Some true
          /\ (rq_method record = "connect" ->
              isRequestPermitted (ws_db approvedStore) keyName (rq_remotePubkey record)
                "sign_event" payload = Some true)).
Proof.
  exact (web_approval_is_standing_grant "Argument keyName must not be null"
           pendingConnect [] [] [] plainKeyStore approvalPost 5%Z 6%Z approvedStore None
           eq_refl).
Defined.

Lemma key_creation_wait_settles_witness :
  runKeyWait "alice" ([([], 100%Z); ([], 207%Z)] ++ ([aliceKeyRow], 61000%Z) :: [([], 61100%Z)])
    waitForKeyCreation
  = {| kw_intervalActive := false; kw_promise := Resolved (Some otherNpubHex) |}.
Proof.
  refine (proj1 (proj2 (key_creation_wait_settles "alice" [([], 100%Z); ([], 207%Z)]
                          [aliceKeyRow] 61000%Z [([], 61100%Z)] _))
            aliceKeyRow eq_refl).
  repeat constructor; cbn; discriminate.
Defined.

Lemma relay_never_blocks_for_good_witness :
  let later :=
    initialWorld
      (applyOps [grantAllKinds]
         (snd (handlePermissionResponse "client-pubkey" (Some "alice") "connect"
                 (answerOf [JString "never"]) kindOneStore))) in
  buildAuthorizationCallback encodeAny "alice" None (Some true) "req-2" 9%Z "rpc-2"
    "sign_event" "client-pubkey" (Some [PString (eventOfKind "1")]) later
  = (Decided false, later).
Proof.
  refine (proj2 (relay_never_blocks_for_good "client-pubkey" "alice" "connect"
                   (answerOf [JString "never"]) (JArray [JString "never"]) kindOneStore
                   _ eq_refl eq_refl)
            encodeAny [grantAllKinds]
            (initialWorld
               (applyOps [grantAllKinds]
                  (snd (handlePermissionResponse "client-pubkey" (Some "alice") "connect"
                          (answerOf [JString "never"]) kindOneStore))))
            None (Some true) "req-2" 9%Z "rpc-2" "sign_event"
            (Some [PString (eventOfKind "1")]) _ eq_refl); discriminate.
Defined.

Lemma relay_always_is_standing_grant_witness :
  isRequestPermitted
    (applyOps [OpRenameKeyUser 1 "phone"]
       (snd (handlePermissionResponse "client-pubkey" (Some "alice") "sign_event"
               (answerOf [JString "always"; JString "phone";
                          JObject [("kind", JNumber 1%Z)]])
               (applyOps [] emptyDb))))
    "alice" "client-pubkey" "sign_event" (Some (PString (eventOfKind "1"))) = Some true.
Proof.
  refine (proj2 (relay_always_is_standing_grant [] [OpRenameKeyUser 1 "phone"]
                   "client-pubkey" "alice" "sign_event"
                   (answerOf [JString "always"; JString "phone";
                              JObject [("kind", JNumber 1%Z)]])
                   (JArray [JString "always"; JString "phone";
                            JObject [("kind", JNumber 1%Z)]])
                   (Some (JString "phone")) (Some (JObject [("kind", JNumber 1%Z)]))
                   (Some "phone") (Some "1") (Some (PString (eventOfKind "1")))
                   _ eq_refl eq_refl eq_refl eq_refl eq_refl eq_refl) _ _).
  - discriminate.
  - intros u Hu. injection Hu as <-. split; [reflexivity|].
    intros (c & [<-|[]] & _ & Hm & _). discriminate.
  - right. exists "1". split; [reflexivity|]. right. exists 1%Z.
    split; [|reflexivity].
    apply CarriesKind_json
      with (v := JObject [("kind", JNumber 1%Z); ("content", JString "hi");
                          ("tags", JArray [])]);
      [discriminate | reflexivity | reflexivity].
Defined.


Lemma web_approval_needs_credentials_witness :
  exists record keyName,
    request_findUnique (applyOps pendingConnect emptyDb) "req-1" = Some record
    /\ rq_allowed record = None /\ rq_keyName record = Some keyName
    /\ ((validCookie (webStoreOf (applyOps pendingConnect emptyDb)) approvalPost
         /\ None = option_map usr_pubkey
                     (user_findByPubkey (webStoreOf (applyOps pendingConnect emptyDb))
                        (rq_remotePubkey record)))
        \/ (@None string = None /\ keyName <> EmptyString
            /\ exists store, plainKeyStore = Some store
                             /\ isPlainKey (assocLast keyName store) = true)
        \/ (exists username domain rest password account,
              splitOn "@" keyName = username :: domain :: rest
              /\ wq_password approvalPost = Some password /\ password <> EmptyString
              /\ user_findUnique (webStoreOf (applyOps pendingConnect emptyDb)) username
                   domain = Some account
              /\ bcrypt_compare password (usr_password account) = true
              /\ None = Some (usr_pubkey account))).
Proof.
  exact (web_approval_needs_credentials "Argument keyName must not be null" plainKeyStore
           approvalPost 5%Z 6%Z (webStoreOf (applyOps pendingConnect emptyDb))
           approvedStore None eq_refl).
Defined.

End BrokerWitnesses.
